(** * PASTA: RTT estimation, connection typing and stepping-stone detection

    A shallow embedding of the analytical core of PASTA
    ([pasta/connection.py], [pasta/plugins/connection_type.py],
    [pasta/plugins/stepping_stone_detection_serverside.py]) together with
    the properties its specification states about it.

    Conventions of the embedding.
    - A Python [int] is a [Z].  A [datetime] is the [Z] number of
      microseconds since an arbitrary origin and a [timedelta] is a [Z]
      number of microseconds, which is how the [datetime] module stores
      them; [timedelta / int] is the floor division of Python 2.7.
    - A Python [float] that is a number of seconds
      ([timedelta.total_seconds()]), or is computed from such numbers, is a
      binary64 number: a [float] of the kernel, with the arithmetic of
      IEEE 754 (rounding to nearest, ties to even).  A float that is an
      integer or the ratio of two integers (a count, a number of bytes,
      the ratio of two of them) is the exact rational [Q] of which it is
      the rounding.  A float division by zero raises, as in Python.
    - A datagram is a mutable object.  Objects live in a store ([heap]) and
      lists and dictionaries hold references to them, so that an assignment
      to [d.RTT] is seen through every alias of [d].
    - A dictionary whose keys are [True] and [False] is a [bdict].
    - An exception is a value of [exn]; code that may raise returns a
      [result].
    - The numbers that a unit test takes from [random] are an argument of
      its model. *)

From Stdlib Require Import Floats.
From Stdlib Require Import String.
From Stdlib Require Import ZArith List Bool Lia QArith.
From Stdlib Require Import Permutation DecimalString.
Import ListNotations.

Open Scope Z_scope.

(** ** Dictionaries keyed by a boolean: [{True: x, False: y}] *)

Record bdict (A : Type) : Type := mkBdict { at_True : A; at_False : A }.
Arguments mkBdict {A} _ _.
Arguments at_True {A} _.
Arguments at_False {A} _.

Definition bget {A : Type} (m : bdict A) (k : bool) : A :=
  if k then at_True m else at_False m.

Definition bset {A : Type} (m : bdict A) (k : bool) (v : A) : bdict A :=
  if k then mkBdict v (at_False m) else mkBdict (at_True m) v.

(** ** Exceptions and results *)

Inductive exn : Type :=
| ZeroDivisionError
| AttributeError      (* [None.total_seconds()] *)
| IndexError
| KeyError
| UnboundLocalError.

Inductive result (A : Type) : Type :=
| Ok (a : A)
| Raise (e : exn).
Arguments Ok {A} _.
Arguments Raise {A} _.

Definition rbind {A B : Type} (m : result A) (f : A -> result B) : result B :=
  match m with
  | Ok a => f a
  | Raise e => Raise e
  end.

Declare Scope result_scope.
Delimit Scope result_scope with result.
Notation "x <- m ;; k" := (rbind m (fun x => k))
  (at level 61, m at next level, right associativity) : result_scope.

(** [for x in xs: acc = body(acc, x)] where the body may raise. *)
Fixpoint rfold {A B : Type} (body : A -> B -> result A) (xs : list B) (acc : A)
  : result A :=
  match xs with
  | [] => Ok acc
  | x :: xs' => rbind (body acc x) (rfold body xs')
  end.

(** ** Numbers *)

(** The integer [n] as a binary floating-point number that has not been
    rounded. *)
Definition integer (n : Z) : spec_float :=
  match n with
  | Z0 => S754_zero false
  | Zpos m => S754_finite false m 0
  | Zneg m => S754_finite true m 0
  end.

(** The binary64 number nearest to the rational [q], a tie going to the
    one whose last bit is 0: what Python gives to the true division of two
    [int]s, and to the literal that writes [q] in decimal. *)
Definition double (q : Q) : float :=
  SF2Prim (SFdiv prec emax (integer (Qnum q)) (integer (Zpos (Qden q)))).

(** [timedelta.total_seconds()]: the true division of the microseconds by
    [10**6]. *)
Definition total_seconds (td : Z) : float := double (td # 1000000).

(** [a / b] on binary64 numbers. *)
Definition float_div (a b : float) : result float :=
  if PrimFloat.eqb b 0 then Raise ZeroDivisionError else Ok (a / b)%float.

(** [a / b] on floats kept as rationals. *)
Definition fdiv (a b : Q) : result Q :=
  if Qeq_bool b 0 then Raise ZeroDivisionError else Ok (a / b)%Q.

(** Integer division of Python 2 ([/] on two [int]s). *)
Definition idiv (a b : Z) : result Z :=
  if b =? 0 then Raise ZeroDivisionError else Ok (a / b).

(** [a < b] and [a <= b] on floats kept as rationals. *)
Definition fle (a b : Q) : bool := Qle_bool a b.
Definition flt (a b : Q) : bool := negb (Qle_bool b a).

(** [sum(...)] of integers. *)
Definition zsum (l : list Z) : Z := fold_left Z.add l 0.

(** [float(len(l))] *)
Definition flen {A : Type} (l : list A) : Q := inject_Z (Z.of_nat (length l)).

(** ** connection.py *)

Module Connection.

(** [class Datagram]. *)
Record Datagram : Type := mkDatagram {
  sentByClient : bool;
  time : Z;
  seqNb : Z;
  totalLen : Z;
  payloadLen : Z;
  ack : Z;            (* -1 if not ACKed else seqnb of the datagram ACKed *)
  RTT : option Z      (* None until estimated *)
}.

(** References to datagram objects and the store that holds the objects. *)
Definition ref : Type := nat.
Definition heap : Type := ref -> Datagram.

(** [d.RTT = v] on the object itself. *)
Definition with_RTT (d : Datagram) (v : option Z) : Datagram :=
  mkDatagram (sentByClient d) (time d) (seqNb d) (totalLen d)
             (payloadLen d) (ack d) v.

(** [d.RTT = v] through the reference [r]. *)
Definition assign_RTT (h : heap) (r : ref) (v : option Z) : heap :=
  fun r' => if Nat.eqb r' r then with_RTT (h r') v else h r'.

(** *** Step 1 of [compute_RTT]: the body of the loop over the reversed
    list.  [last_acking] maps a direction to the pending acker sent in
    that direction. *)
Definition step1 (st : heap * bdict (option ref)) (datagram : ref)
  : heap * bdict (option ref) :=
  let '(h, last_acking) := st in
  let '(h, last_acking) :=
    match bget last_acking (negb (sentByClient (h datagram))) with
    | Some acker =>
        if seqNb (h datagram) <? seqNb (h acker) then
          (assign_RTT h datagram
             (Some (time (h acker) - time (h datagram))),
           bset last_acking (negb (sentByClient (h datagram))) None)
        else (h, last_acking)
    | None => (h, last_acking)
    end in
  if ack (h datagram) >? -1
  then (h, bset last_acking (sentByClient (h datagram)) (Some datagram))
  else (h, last_acking).

Definition pass1 (h : heap) (datagrams : list ref)
  : heap * bdict (option ref) :=
  fold_left step1 datagrams (h, mkBdict None None).

(** *** Step 2 of [compute_RTT] *)

(** [for d in empty: d.RTT = datagram.RTT] *)
Definition fill_copy (h : heap) (empty : list ref) (datagram : ref) : heap :=
  fold_left (fun h d => assign_RTT h d (RTT (h datagram))) empty h.

(** [i = 1; for d in empty: d.RTT = last + i * diff; i += 1] *)
Fixpoint fill_linear (h : heap) (empty : list ref) (last diff i : Z) : heap :=
  match empty with
  | [] => h
  | d :: empty' =>
      fill_linear (assign_RTT h d (Some (last + i * diff)))
                  empty' last diff (i + 1)
  end.

(** [for d in empty: d.RTT = last] *)
Definition fill_last (h : heap) (empty : list ref) (last : Z) : heap :=
  fold_left (fun h d => assign_RTT h d (Some last)) empty h.

Record state2 : Type := mkState2 {
  store : heap;
  last_RTT : bdict (option Z);
  empty_RTTs : bdict (list ref)
}.

(** The body of the forward loop. *)
Definition step2 (st : state2) (datagram : ref) : state2 :=
  let h := store st in
  let way := sentByClient (h datagram) in
  match RTT (h datagram) with
  | None =>
      mkState2 h (last_RTT st)
               (bset (empty_RTTs st) way (bget (empty_RTTs st) way ++ [datagram]))
  | Some v =>
      let '(h, empty) :=
        match bget (empty_RTTs st) way with
        | [] => (h, empty_RTTs st)
        | _ :: _ =>
            (match bget (last_RTT st) way with
             | None => fill_copy h (bget (empty_RTTs st) way) datagram
             | Some last =>
                 let diff := v - last in
                 let diff :=
                   diff / (1 + Z.of_nat (length (bget (empty_RTTs st) way))) in
                 fill_linear h (bget (empty_RTTs st) way) last diff 1
             end,
             bset (empty_RTTs st) way [])
        end in
      mkState2 h (bset (last_RTT st) way (RTT (h datagram))) empty
  end.

Definition pass2 (h : heap) (datagrams : list ref) : state2 :=
  fold_left step2 datagrams (mkState2 h (mkBdict None None) (mkBdict [] [])).


(** The body of the closing loop [for way in (True, False)]. *)
Definition step3 (last : bdict (option Z)) (empty : bdict (list ref))
           (h : heap) (way : bool) : heap :=
  match bget last way with
  | None => h
  | Some v => fill_last h (bget empty way) v
  end.

(** [Connection.compute_RTT]: the store and the list [self.datagrams]
    before, the store and the list after. *)
Definition compute_RTT (h : heap) (datagrams : list ref) : heap * list ref :=
  let datagrams := rev datagrams in
  let '(h, _) := pass1 h datagrams in
  let datagrams := rev datagrams in
  let st := pass2 h datagrams in
  let h := fold_left (step3 (last_RTT st) (empty_RTTs st)) [true; false] (store st) in
  (h, datagrams).

(** *** [Connection.__init__]: the four totals it computes from
    [self.datagrams] *)

(** [sum(1 for p in self.datagrams if p.sentByClient)] *)
Definition clientSentNbDatagrams (datagrams : list Datagram) : Z :=
  zsum (map (fun _ => 1) (filter (fun p => sentByClient p) datagrams)).

(** [sum(1 for p in self.datagrams if not p.sentByClient)] *)
Definition serverSentNbDatagrams (datagrams : list Datagram) : Z :=
  zsum (map (fun _ => 1) (filter (fun p => negb (sentByClient p)) datagrams)).

(** [sum(p.totalLen for p in self.datagrams if p.sentByClient)] *)
Definition clientSentLen (datagrams : list Datagram) : Z :=
  zsum (map totalLen (filter (fun p => sentByClient p) datagrams)).

(** [sum(p.totalLen for p in self.datagrams if not p.sentByClient)] *)
Definition serverSentLen (datagrams : list Datagram) : Z :=
  zsum (map totalLen (filter (fun p => negb (sentByClient p)) datagrams)).

(** *** Vocabulary of the properties of [compute_RTT] *)

(** Every field of [d'] other than the RTT is that of [d]. *)
Definition unchanged_but_RTT (d d' : Datagram) : Prop :=
  sentByClient d' = sentByClient d /\ time d' = time d /\
  seqNb d' = seqNb d /\ totalLen d' = totalLen d /\
  payloadLen d' = payloadLen d /\ ack d' = ack d.

(** The datagrams of [datagrams] sent in direction [way], in order. *)
Definition way_of (h : heap) (datagrams : list ref) (way : bool) : list ref :=
  filter (fun r => Bool.eqb (sentByClient (h r)) way) datagrams.

(** No datagram of [run] has an RTT. *)
Definition unset (h : heap) (run : list ref) : Prop :=
  forall r, In r run -> RTT (h r) = None.

(** Two stores hold the same objects up to their RTTs. *)
Definition same_frame (h h' : heap) : Prop :=
  forall r, with_RTT (h' r) None = with_RTT (h r) None.

(** The state in which the forward loop of Step 2 starts. *)
Definition init2 (h : heap) : state2 :=
  mkState2 h (mkBdict None None) (mkBdict [] []).

(** What Step 2 of [compute_RTT] leaves in the store, from the state its
    forward loop ends in. *)
Definition finish (st : state2) : heap :=
  fold_left (step3 (last_RTT st) (empty_RTTs st)) [true; false] (store st).

(** The state of the forward loop agrees with the store [h0] on the
    directions, and each list of [empty_RTTs] holds datagrams of its own
    direction. *)
Definition sorted_by_way (h0 : heap) (st : state2) : Prop :=
  (forall r, sentByClient (store st r) = sentByClient (h0 r)) /\
  (forall way r, In r (bget (empty_RTTs st) way) -> sentByClient (h0 r) = way).

(** The store when Step 2 of [compute_RTT] starts. *)
Definition after_step1 (h : heap) (datagrams : list ref) : heap :=
  fst (pass1 h (rev datagrams)).

(** The value of the specification for the datagram at the 1-indexed
    position [i] of a run of [k] datagrams between the RTTs [r0] and [r1]:
    the linear interpolation [r0 + i * (r1 - r0) / (k + 1)], in
    microseconds, without rounding. *)
Definition linear_interpolation (r0 r1 : Z) (k i : nat) : Q :=
  (inject_Z r0
   + inject_Z (Z.of_nat i) * inject_Z (r1 - r0) / inject_Z (Z.of_nat k + 1))%Q.

(** The objects that the references of [datagrams] designate. *)
Definition objects (h : heap) (datagrams : list ref) : list Datagram :=
  map h datagrams.

(** The datagrams of the list are in the order of their timestamps. *)
Definition chronological (h : heap) (datagrams : list ref) : Prop :=
  ForallOrdPairs (fun a b => time (h a) <= time (h b)) datagrams.

(** [acker] can measure [d]: it is sent in the other direction, carries an
    acknowledgment and has a greater sequence number. *)
Definition measures (h : heap) (acker d : ref) : Prop :=
  sentByClient (h acker) = negb (sentByClient (h d)) /\
  -1 < ack (h acker) /\ seqNb (h d) < seqNb (h acker).

(** The datagrams of the list that have an RTT, and those that carry an
    acknowledgment. *)
Definition with_an_RTT (h : heap) (datagrams : list ref) : list ref :=
  filter (fun r => match RTT (h r) with Some _ => true | None => false end)
         datagrams.

Definition acking (h : heap) (datagrams : list ref) : list ref :=
  filter (fun r => ack (h r) >? -1) datagrams.

(** The number of pending ackers. *)
Definition pending (last_acking : bdict (option ref)) : nat :=
  length (filter (fun way => match bget last_acking way with
                             | Some _ => true
                             | None => false
                             end)
                 [true; false]).

End Connection.

(** ** plugins/connection_type.py *)

Module ConnectionType.

(** The datagram as this plugin reads it
    ("Uses: sent_by_client, rtt, payload_len, time"). *)
Record Datagram : Type := mkDatagram {
  sent_by_client : bool;
  payload_len : Z;
  time : Z;
  rtt : option Z
}.

(** Configuration constants. *)
Definition shell_max_time_to_reply : float := double (7 # 10).
Definition shell_min_replies : Q := (6 # 10)%Q.
Definition rshell_max_time_to_reply : float := double (7 # 10).
Definition rshell_min_replies : Q := (6 # 10)%Q.
Definition scp_up_min_asymetry : Q := (95 # 100)%Q.
Definition scp_down_max_asymetry : Q := (5 # 100)%Q.

(** [float(sum(p.payload_len for p in datagrams if p.sent_by_client))] and
    its counterpart for the server. *)
Definition client_sent (datagrams : list Datagram) : Q :=
  inject_Z (zsum (map payload_len (filter sent_by_client datagrams))).

Definition server_sent (datagrams : list Datagram) : Q :=
  inject_Z (zsum (map payload_len
                      (filter (fun p => negb (sent_by_client p)) datagrams))).

(** [compute_asymetry]: the value given to [self.ratio_server_sent]. *)
Definition compute_asymetry (datagrams : list Datagram) : result Q :=
  if Qeq_bool (server_sent datagrams) 0 then Ok 0%Q
  else fdiv (server_sent datagrams)
            (server_sent datagrams + client_sent datagrams)%Q.

(** [d.rtt.total_seconds()] *)
Definition rtt_total_seconds (d : Datagram) : result float :=
  match rtt d with
  | Some td => Ok (total_seconds td)
  | None => Raise AttributeError
  end.

(** The body of the loop of [compute_time_to_reply]; the state is
    [(self.time_to_reply, last_datagram)]. *)
Definition time_to_reply_step
    (st : bdict (list float) * bdict (option Datagram)) (datagram : Datagram)
  : result (bdict (list float) * bdict (option Datagram)) :=
  let '(time_to_reply, last_datagram) := st in
  if payload_len datagram =? 0 then Ok st
  else
    let way := negb (sent_by_client datagram) in
    (time_to_reply <-
       match bget last_datagram way with
       | None => Ok time_to_reply
       | Some last =>
           (s <- rtt_total_seconds last ;;
            if PrimFloat.eqb s 0 then Ok time_to_reply
            else
              (s' <- rtt_total_seconds last ;;
               t <- float_div (total_seconds (time datagram - time last)) s' ;;
               Ok (bset time_to_reply way (bget time_to_reply way ++ [t]))))
       end ;;
     let last_datagram := bset last_datagram way None in
     let last_datagram := bset last_datagram (negb way) (Some datagram) in
     Ok (time_to_reply, last_datagram))%result.

Definition compute_time_to_reply (datagrams : list Datagram)
  : result (bdict (list float)) :=
  (st <- rfold time_to_reply_step datagrams
               (mkBdict [] [], mkBdict None None) ;;
   Ok (fst st))%result.

(** The dictionaries of [analyse]. *)
Definition name : bdict string := mkBdict "shell"%string "reverse shell"%string.
Definition max_time_to_reply : bdict float :=
  mkBdict shell_max_time_to_reply rshell_max_time_to_reply.
Definition min_replies : bdict Q :=
  mkBdict shell_min_replies rshell_min_replies.

(** [sum(1 for t in l if t <= bound)] *)
Definition replies_to_consider (l : list float) (bound : float) : Z :=
  zsum (map (fun _ => 1%Z) (filter (fun t => PrimFloat.leb t bound) l)).

(** [for way in ways: ...] followed by the default to ['tunnel']. *)
Fixpoint decide (time_to_reply : bdict (list float)) (ways : list bool)
  : result string :=
  match ways with
  | [] => Ok "tunnel"%string
  | way :: ways' =>
      match bget time_to_reply way with
      | [] => decide time_to_reply ways'
      | _ :: _ =>
          (ratio <- fdiv (inject_Z (replies_to_consider
                                      (bget time_to_reply way)
                                      (bget max_time_to_reply way)))
                         (flen (bget time_to_reply way)) ;;
           if fle (bget min_replies way) ratio
           then Ok (bget name way)
           else decide time_to_reply ways')%result
      end
  end.

(** What [analyse] does from [# compute time to reply] on. *)
Definition reply_analysis (datagrams : list Datagram) : result string :=
  (time_to_reply <- compute_time_to_reply datagrams ;;
   decide time_to_reply [true; false])%result.

(** [analyse]: the value given to [self.connection_type]. *)
Definition analyse (datagrams : list Datagram) : result string :=
  (ratio_server_sent <- compute_asymetry datagrams ;;
   if flt (1 # 2) ratio_server_sent then
     if fle scp_up_min_asymetry ratio_server_sent
     then Ok "scp (down)"%string
     else reply_analysis datagrams
   else
     if fle ratio_server_sent scp_down_max_asymetry
     then Ok "scp (up)"%string
     else reply_analysis datagrams)%result.

(** *** Vocabulary of the properties of the classifier *)

(** The payload bytes sent in one direction, by the client when
    [by_client] holds and by the server otherwise. *)
Definition payload_bytes (by_client : bool) (datagrams : list Datagram) : Z :=
  fold_right
    (fun p total =>
       if Bool.eqb (sent_by_client p) by_client
       then payload_len p + total
       else total)
    0 datagrams.

(** A payload length is not negative. *)
Definition well_formed (datagrams : list Datagram) : Prop :=
  Forall (fun p => 0 <= payload_len p) datagrams.

(** Every datagram that carries payload has an RTT. *)
Definition RTT_annotated (datagrams : list Datagram) : Prop :=
  Forall (fun p => payload_len p <> 0 -> rtt p <> None) datagrams.

(** Every datagram remembered in [last_datagram] has an RTT. *)
Definition triggers_annotated (last_datagram : bdict (option Datagram)) : Prop :=
  forall way last, bget last_datagram way = Some last -> rtt last <> None.

(** The fraction of the samples that are at most [bound]. *)
Definition fraction_within (samples : list float) (bound : float) : Q :=
  (inject_Z
     (Z.of_nat (length (filter (fun t => PrimFloat.leb t bound) samples)))
   / inject_Z (Z.of_nat (length samples)))%Q.

(** There are samples and the fraction of them within [bound] is at least
    [minimum]. *)
Definition qualifies (samples : list float) (bound : float) (minimum : Q)
  : bool :=
  match samples with
  | [] => false
  | _ :: _ => Qle_bool minimum (fraction_within samples bound)
  end.

Definition labels : list string :=
  ["scp (up)"%string; "scp (down)"%string; "shell"%string;
   "reverse shell"%string; "tunnel"%string].

(** The datagram carries payload. *)
Definition has_payload (p : Datagram) : bool := negb (payload_len p =? 0).

(** The sample that [reply] adds when it answers [last]: the seconds
    between the two divided by the seconds of the RTT of [last], both as
    binary64 numbers; none when that RTT is zero. *)
Definition sample (last reply : Datagram) : list float :=
  match rtt last with
  | Some r =>
      if PrimFloat.eqb (total_seconds r) 0 then []
      else [(total_seconds (time reply - time last) / total_seconds r)%float]
  | None => []
  end.

(** The samples of the replies to the datagrams sent by the client
    ([by_client]) or by the server, among the payload-bearing datagrams
    [last :: ps] taken two by two in order. *)
Fixpoint replies (by_client : bool) (last : Datagram) (ps : list Datagram)
  : list float :=
  match ps with
  | [] => []
  | p :: ps' =>
      (if Bool.eqb (sent_by_client last) by_client
          && negb (Bool.eqb (sent_by_client p) by_client)
       then sample last p else [])
      ++ replies by_client p ps'
  end.

Definition replies_of (by_client : bool) (datagrams : list Datagram)
  : list float :=
  match filter has_payload datagrams with
  | [] => []
  | p :: ps => replies by_client p ps
  end.

(** [last_datagram] once [last] is the latest payload-bearing datagram. *)
Definition latest (last : Datagram) : bdict (option Datagram) :=
  if sent_by_client last then mkBdict (Some last) None
  else mkBdict None (Some last).

End ConnectionType.

(** ** The unit tests of plugins/connection_type.py

    [FakeConnection.fake_scp] builds its datagrams from numbers that it
    takes from [random]; they are an argument here, so that a property
    holds for every seed. *)

Module TestConnectionType.

Import ConnectionType.

(** The numbers that one turn of the loop of [fake_scp] takes from
    [random], in the order in which it takes them. *)
Record draws : Type := mkDraws {
  gap1 : Z;       (* random.randint(100000, 449999) *)
  payload : Z;    (* random.randint(48, 1024) *)
  rtt1 : Z;       (* random.randint(500000, 900000), in FakeDatagram *)
  gap2 : Z;       (* random.randint(100000, 449999) *)
  rtt2 : Z        (* random.randint(500000, 900000), in FakeDatagram *)
}.

(** [FakeDatagram(way, payload_len, time)] with the number drawn for its
    [rtt]. *)
Definition FakeDatagram (way : bool) (payload_len time rtt : Z) : Datagram :=
  mkDatagram way payload_len time (Some rtt).

(** The body of the loop of [FakeConnection.fake_scp]; the state is
    [(self.datagrams, time)]. *)
Definition fake_scp_step (way : bool) (st : list Datagram * Z) (r : draws)
  : list Datagram * Z :=
  let '(datagrams, time) := st in
  let time := time + gap1 r in
  let datagrams := datagrams ++ [FakeDatagram way (payload r) time (rtt1 r)] in
  let time := time + gap2 r in
  let datagrams := datagrams ++ [FakeDatagram (negb way) 0 time (rtt2 r)] in
  (datagrams, time).

(** [FakeConnection().fake_scp(way)]: the datagrams of the connection,
    given the time [now] and what [random] returns. *)
Definition fake_scp (way : bool) (now : Z) (random : list draws)
  : list Datagram :=
  fst (fold_left (fake_scp_step way) random ([], now)).

(** Every number is one that the call of [random.randint] can return. *)
Definition drawn_in_range (r : draws) : Prop :=
  100000 <= gap1 r <= 449999 /\ 48 <= payload r <= 1024 /\
  500000 <= rtt1 r <= 900000 /\ 100000 <= gap2 r <= 449999 /\
  500000 <= rtt2 r <= 900000.

End TestConnectionType.

(** ** Logging

    The plugins report what they do through [self.logger].  A computation
    that logs returns the messages it sent, in order, next to its result;
    a message is sent only if its arguments could be evaluated. *)

Inductive message : Type :=
| Starting_computation
| Starting_computation_for_connect (nb : nat)
| Is_stepping_stone (verdict : bool)
| Not_enough_datagrams_in_connection
| Computation_of_RTT_IAT_similarity
| Not_enough_useful_datagrams
| Similarity_between_IATs_RTTs (percent : Q)
| Checking_if_n_modulus_distribution
| n_modulus_at (percent : Q).

Definition M (A : Type) : Type := (list message * result A)%type.

Definition mret {A : Type} (a : A) : M A := ([], Ok a).

Definition mbind {A B : Type} (m : M A) (f : A -> M B) : M B :=
  match m with
  | (t, Ok a) => let '(t', r) := f a in (t ++ t', r)
  | (t, Raise e) => (t, Raise e)
  end.

Definition log (msg : message) : M unit := ([msg], Ok tt).

Definition lift {A : Type} (r : result A) : M A := ([], r).

Declare Scope log_scope.
Delimit Scope log_scope with log.
Notation "x <- m ;; k" := (mbind m (fun x => k))
  (at level 61, m at next level, right associativity) : log_scope.
Notation "m ;;; k" := (mbind m (fun _ => k))
  (at level 61, right associativity) : log_scope.

Fixpoint mfold {A B : Type} (body : A -> B -> M A) (xs : list B) (acc : A)
  : M A :=
  match xs with
  | [] => mret acc
  | x :: xs' => mbind (body acc x) (mfold body xs')
  end.

(** ** Dictionaries with integer keys

    The entries are kept in the order in which their keys were inserted. *)

Section Dict.

Context {V : Type}.

Definition dict : Type := list (Z * V).

Definition keys (d : dict) : list Z := map fst d.

(** [d[k]] *)
Fixpoint dget (d : dict) (k : Z) : result V :=
  match d with
  | [] => Raise KeyError
  | (k', v) :: d' => if k' =? k then Ok v else dget d' k
  end.

(** [d[k] = v] *)
Fixpoint dset (d : dict) (k : Z) (v : V) : dict :=
  match d with
  | [] => [(k, v)]
  | (k', v') :: d' =>
      if k' =? k then (k', v) :: d' else (k', v') :: dset d' k v
  end.

(** [del d[k]] *)
Fixpoint ddel (d : dict) (k : Z) : result dict :=
  match d with
  | [] => Raise KeyError
  | (k', v') :: d' =>
      if k' =? k then Ok d'
      else rbind (ddel d' k) (fun d'' => Ok ((k', v') :: d''))
  end.

End Dict.
Arguments dict : clear implicits.

(** [l[i]] *)
Definition index {A : Type} (l : list A) (i : nat) : result A :=
  match nth_error l i with
  | Some x => Ok x
  | None => Raise IndexError
  end.

(** [[f(x) for x in l]] where [f] may raise. *)
Fixpoint rmap {A B : Type} (f : A -> result B) (l : list A) : result (list B) :=
  match l with
  | [] => Ok []
  | x :: l' =>
      rbind (f x) (fun y => rbind (rmap f l') (fun ys => Ok (y :: ys)))
  end.

(** ** plugins/stepping_stone_detection_serverside.py *)

Module SteppingStone.

Import Connection.

(** The connection as the plugin reads it: its number and its datagrams. *)
Record connection : Type := mkConnection {
  nb : nat;
  datagrams : list Datagram
}.

(** Class constants of [SteppingStoneDetectionServerSideConnection]. *)
Definition IAT_RTT_DIFFERENT : Q := (1 # 100)%Q.
Definition CLOSE_ENOUGH : float := double (1 # 2).
Definition N_MOD_DIST : Q := (98 # 100)%Q.
Definition MIN_SIZE : Q := (1 # 10)%Q.
Definition IN_GROUP : Z := 3.

(** [datagram.sentByClient and datagram.payloadLen] as a condition. *)
Definition client_payload (datagram : Datagram) : bool :=
  sentByClient datagram && negb (payloadLen datagram =? 0).

(** An instance of [SteppingStoneDetectionServerSideConnection]. *)
Record ssdssc : Type := mkSsdssc {
  self_connection : connection;
  self_datagrams : list Datagram
}.

(** [__init__] *)
Definition init (c : connection) : ssdssc :=
  mkSsdssc c (filter client_payload (datagrams c)).

(** [datagram.RTT.total_seconds()] *)
Definition RTT_total_seconds (datagram : Datagram) : result float :=
  match RTT datagram with
  | Some td => Ok (total_seconds td)
  | None => Raise AttributeError
  end.

(** The body of the loop that builds [IATs]; the state is
    [(IATs, first, last_datagram)], [last_datagram] being unbound at first. *)
Definition IAT_step (st : list float * bool * option Datagram)
           (datagram : Datagram)
  : result (list float * bool * option Datagram) :=
  let '(IATs, first, last_datagram) := st in
  if payloadLen datagram =? 0 then Ok st
  else
    (st1 <-
       (if negb first && sentByClient datagram then
          match last_datagram with
          | None => Raise UnboundLocalError
          | Some last =>
              Ok (IATs ++ [total_seconds (time datagram - time last)],
                  Some datagram)
          end
        else Ok (IATs, last_datagram)) ;;
     let '(IATs, last_datagram) := st1 in
     if first && sentByClient datagram
     then Ok (IATs, false, Some datagram)
     else Ok (IATs, first, last_datagram))%result.

Definition build_IATs (datagrams : list Datagram) : result (list float) :=
  (st <- rfold IAT_step datagrams ([], true, None) ;;
   Ok (fst (fst st)))%result.

(** The body of the loop [for i in range(len(RTTs))]; [compt] counts. *)
Definition compare_step (RTTs IATs : list float) (compt : Q) (i : nat)
  : result Q :=
  (r <- index RTTs i ;;
   if negb (PrimFloat.eqb r 0) then
     (a <- index IATs i ;;
      q <- float_div (r - a)%float r ;;
      if PrimFloat.leb (abs q) CLOSE_ENOUGH
      then Ok (compt + 1)%Q else Ok compt)
   else Ok compt)%result.

(** [compare_RTT_IAT] from [compt = 0.] on. *)
Definition similarity (RTTs IATs : list float) : M bool :=
  (compt <- lift (rfold (compare_step RTTs IATs) (seq 0 (length RTTs)) 0%Q) ;;
   percent <- lift (fdiv compt (flen RTTs)) ;;
   log (Similarity_between_IATs_RTTs (percent * 100)%Q) ;;;
   ratio <- lift (fdiv compt (flen RTTs)) ;;
   if fle ratio IAT_RTT_DIFFERENT then mret true else mret false)%log.

(** [compare_RTT_IAT]: [Some b] for [True] and [False], [None] for [None]. *)
Definition compare_RTT_IAT (self : ssdssc) : M (option bool) :=
  (log Computation_of_RTT_IAT_similarity ;;;
   RTTs <- lift (rmap RTT_total_seconds (self_datagrams self)) ;;
   let RTTs := tl RTTs in
   if (length RTTs <? 20)%nat then
     log Not_enough_useful_datagrams ;;;
     mret None
   else
     IATs <- lift (build_IATs (datagrams (self_connection self))) ;;
     b <- similarity RTTs IATs ;;
     mret (Some b))%log.

(** The body of the loop of [closest_group]. *)
Definition closest_step (payload : Z) (closest : option Z) (group : Z)
  : option Z :=
  if (Z.abs (group - payload) <=? IN_GROUP)
     && match closest with
        | None => true
        | Some c => Z.abs (group - payload) <? c
        end
  then Some group
  else closest.

Definition closest_group (payload : Z) (groups : dict (list Z)) : option Z :=
  fold_left (closest_step payload) (keys groups) None.

(** [sum(groups[closest]) / len(groups[closest])] *)
Definition average (closest : Z) (groups : dict (list Z)) : result Z :=
  (members <- dget groups closest ;;
   members' <- dget groups closest ;;
   idiv (zsum members) (Z.of_nat (length members')))%result.

(** The loop of [update_average_possible]. *)
Fixpoint no_superposition (prov_average : Z) (groups : list Z) : bool :=
  match groups with
  | [] => true
  | group :: groups' =>
      if Z.abs (group - prov_average) <=? IN_GROUP then false
      else no_superposition prov_average groups'
  end.

Definition update_average_possible (closest : Z) (groups : dict (list Z))
  : result bool :=
  (prov_average <- average closest groups ;;
   Ok (no_superposition prov_average (keys groups)))%result.

(** The body of the clustering loop of [is_PS_modally_distributed]. *)
Definition cluster_step (groups : dict (list Z)) (payload : Z)
  : result (dict (list Z)) :=
  match closest_group payload groups with
  | None => Ok (dset groups payload [payload])
  | Some closest =>
      (members <- dget groups closest ;;
       let groups := dset groups closest (members ++ [payload]) in
       possible <- update_average_possible closest groups ;;
       if possible then
         (new_key <- average closest groups ;;
          members <- dget groups closest ;;
          let groups := dset groups new_key members in
          ddel groups closest)
       else Ok groups)%result
  end.

(** The loop that adds up the sizes of the significant groups. *)
Definition significant (groups : dict (list Z)) (payloads : list Z) : Z :=
  fold_left
    (fun nb group =>
       if flt (flen payloads * MIN_SIZE)%Q (flen (snd group))
       then nb + Z.of_nat (length (snd group))
       else nb)
    groups 0.

Definition is_PS_modally_distributed (self : ssdssc) : M bool :=
  (log Checking_if_n_modulus_distribution ;;;
   let payloads := map payloadLen (self_datagrams self) in
   groups <- lift (rfold cluster_step payloads []) ;;
   let nb := significant groups payloads in
   percent <- lift (fdiv (inject_Z nb) (flen payloads)) ;;
   log (n_modulus_at (percent * 100)%Q) ;;;
   if flt (N_MOD_DIST * flen payloads)%Q (inject_Z nb)
   then mret true
   else mret false)%log.

Definition is_stepping_stone (self : ssdssc) : M bool :=
  (prov <- compare_RTT_IAT self ;;
   match prov with
   | Some prov => if prov then mret true else is_PS_modally_distributed self
   | None => mret false
   end)%log.

(** [self.is_stepping_stone], keyed by the number of the connection. *)
Definition verdicts : Type := list (nat * bool).

Fixpoint record_verdict (vs : verdicts) (c : connection) (v : bool) : verdicts :=
  match vs with
  | [] => [(nb c, v)]
  | (n, v') :: vs' =>
      if Nat.eqb n (nb c) then (n, v) :: vs'
      else (n, v') :: record_verdict vs' c v
  end.

(** The body of the loop of [SteppingStoneDetectionServerSide.analyse]. *)
Definition analyse_step (vs : verdicts) (c : connection) : M verdicts :=
  (log (Starting_computation_for_connect (nb c)) ;;;
   if (20 <? length (datagrams c))%nat then
     v <- is_stepping_stone (init c) ;;
     let vs := record_verdict vs c v in
     log (Is_stepping_stone v) ;;;
     mret vs
   else
     log Not_enough_datagrams_in_connection ;;;
     mret (record_verdict vs c false))%log.

Definition analyse (connections : list connection) (vs : verdicts) : M verdicts :=
  (log Starting_computation ;;;
   mfold analyse_step connections vs)%log.

(** *** Vocabulary of the properties of the detector *)

(** Every datagram the detector keeps has an RTT. *)
Definition RTT_annotated (self : ssdssc) : Prop :=
  Forall (fun datagram => RTT datagram <> None) (self_datagrams self).

(** The number of client-originated, payload-bearing datagrams. *)
Definition client_payload_count (c : connection) : nat :=
  length (filter client_payload (datagrams c)).

(** What the loop that builds [IATs] knows after [n] client datagrams with
    payload. *)
Definition IAT_state (st : list float * bool * option Datagram) (n : nat)
  : Prop :=
  let '(IATs, first, last_datagram) := st in
  if first then n = 0%nat /\ IATs = []
  else last_datagram <> None /\ (length IATs + 1 = n)%nat.

(** Each group is still kept under the first payload length that was put
    in it, and every member is within [IN_GROUP] of that key. *)
Definition keyed_by_first (groups : dict (list Z)) : Prop :=
  forall key members,
    In (key, members) groups ->
    hd_error members = Some key /\
    Forall (fun m => Z.abs (key - m) <= IN_GROUP) members.

(** The payload lengths that the groups hold. *)
Definition members (groups : dict (list Z)) : list Z := concat (map snd groups).

(** Any two keys are more than [IN_GROUP] apart. *)
Definition apart (ks : list Z) : Prop :=
  ForallOrdPairs (fun a b => IN_GROUP < Z.abs (a - b)) ks.

(** The group is within [IN_GROUP] of the payload length. *)
Definition in_range (payload group : Z) : bool :=
  Z.abs (group - payload) <=? IN_GROUP.

(** The RTT [r] and the IAT [a] are close:
    [r != 0 and abs((r - a)/r) <= CLOSE_ENOUGH], on binary64 numbers. *)
Definition close (r a : float) : bool :=
  negb (PrimFloat.eqb r 0)
  && PrimFloat.leb (abs ((r - a) / r)) CLOSE_ENOUGH.

(** The number of indices at which the RTT and the IAT are close. *)
Definition close_pairs (RTTs IATs : list float) : nat :=
  length (filter (fun p => close (fst p) (snd p)) (combine RTTs IATs)).

(** The RTTs of the datagrams in seconds, in order; a datagram without an
    RTT gives none. *)
Definition RTT_seconds (datagrams : list Datagram) : list float :=
  flat_map (fun d => match RTT d with
                     | Some td => [total_seconds td]
                     | None => []
                     end)
           datagrams.

(** The times between one datagram of the list and the next, in seconds. *)
Fixpoint gaps (datagrams : list Datagram) : list float :=
  match datagrams with
  | [] => []
  | d :: rest =>
      match rest with
      | [] => []
      | d' :: _ => total_seconds (time d' - time d) :: gaps rest
      end
  end.

(** The connection that the detector is given once [compute_RTT] has run
    on the datagrams. *)
Definition measured (number : nat) (h : heap) (datagrams : list ref)
  : connection :=
  mkConnection number
    (objects (fst (compute_RTT h datagrams)) (snd (compute_RTT h datagrams))).

(** The connection without the datagrams that the detector does not keep. *)
Definition kept (c : connection) : connection :=
  mkConnection (nb c) (filter client_payload (datagrams c)).

End SteppingStone.

(** *** [SteppingStoneDetectionServerSide]: reading the verdicts *)

Module ServerSide.

Import SteppingStone.

(** [load_connections]: the dictionary [self.is_stepping_stone] it leaves. *)
Definition load_connections : verdicts := [].

(** [self.is_stepping_stone[c]] *)
Fixpoint verdict (vs : verdicts) (c : connection) : result bool :=
  match vs with
  | [] => Raise KeyError
  | (n, v) :: vs' => if Nat.eqb n (nb c) then Ok v else verdict vs' c
  end.

(** [str(n)] *)
Definition str (n : nat) : string := NilEmpty.string_of_uint (Nat.to_uint n).

Definition newline : string := String (Ascii.ascii_of_nat 10) EmptyString.

(** [['\n    Connection #'+str(c.nb) for c in self.connections
      if self.is_stepping_stone[c]]] *)
Fixpoint stepping_stones (vs : verdicts) (connections : list connection)
  : result (list string) :=
  match connections with
  | [] => Ok []
  | c :: connections' =>
      (v <- verdict vs c ;;
       rest <- stepping_stones vs connections' ;;
       if v
       then Ok ((newline ++ "    Connection #" ++ str (nb c))%string :: rest)
       else Ok rest)%result
  end.

(** [result]: the string it returns, or the exception. *)
Definition result (connections : list connection) (vs : verdicts)
  : result string :=
  (let s := "Stepping stones detected (server-side connection method):"%string in
   stepping_stones <- stepping_stones vs connections ;;
   match stepping_stones with
   | _ :: _ => Ok (s ++ String.concat EmptyString stepping_stones)%string
   | [] => Ok (s ++ newline ++ "    none")%string
   end)%result.

End ServerSide.

(** ** connection.py: [compute_RTT_2], the old version of [compute_RTT] *)

Module RoughRTT.

Import Connection.

(** The body of the first loop; [datagramAcksSeqNb] maps a direction to the
    dictionary from an acknowledged sequence number to the datagram that
    acknowledges it. *)
Definition acking_step (h : heap) (datagramAcksSeqNb : bdict (dict ref))
           (datagram : ref) : bdict (dict ref) :=
  if ack (h datagram) >? -1 then
    bset datagramAcksSeqNb (negb (sentByClient (h datagram)))
         (dset (bget datagramAcksSeqNb (negb (sentByClient (h datagram))))
               (ack (h datagram)) datagram)
  else datagramAcksSeqNb.

(** [min(sNb for sNb in acks if sNb > seqNb)]; [None] stands for the
    [ValueError] that [min] raises on an empty sequence. *)
Definition min_above (acks : list Z) (seqNb : Z) : option Z :=
  match filter (fun sNb => sNb >? seqNb) acks with
  | [] => None
  | sNb :: rest => Some (fold_left Z.min rest sNb)
  end.

(** The body of the second loop. *)
Definition rough_step (datagramAcksSeqNb : bdict (dict ref)) (h : heap)
           (datagram : ref) : result heap :=
  match min_above (keys (bget datagramAcksSeqNb (sentByClient (h datagram))))
                  (seqNb (h datagram)) with
  | None => Ok h       (* except ValueError: continue *)
  | Some seqNb =>
      (datagramAcks <-
         dget (bget datagramAcksSeqNb (sentByClient (h datagram))) seqNb ;;
       Ok (assign_RTT h datagram
             (Some (time (h datagramAcks) - time (h datagram)))))%result
  end.

(** [Connection.compute_RTT_2]: the store after, or the exception. *)
Definition compute_RTT_2 (h : heap) (datagrams : list ref) : result heap :=
  let datagramAcksSeqNb :=
    fold_left (acking_step h) datagrams (mkBdict [] []) in
  rfold (rough_step datagramAcksSeqNb) datagrams h.

(** *** Vocabulary of the properties of [compute_RTT_2] *)

(** [a] acknowledges, in the other direction, a sequence number above that
    of [d]. *)
Definition acks_after (h : heap) (d a : ref) : bool :=
  negb (Bool.eqb (sentByClient (h a)) (sentByClient (h d)))
  && (ack (h a) >? -1) && (ack (h a) >? seqNb (h d)).

(** What the second loop assigns to [d.RTT], if anything. *)
Definition outcome (acks : bdict (dict ref)) (h : heap) (d : ref) : option Z :=
  match min_above (keys (bget acks (sentByClient (h d)))) (seqNb (h d)) with
  | None => None
  | Some m =>
      match dget (bget acks (sentByClient (h d))) m with
      | Ok a => Some (time (h a) - time (h d))
      | Raise _ => None
      end
  end.

End RoughRTT.

(** ** Sample data

    Concrete stores and connections on which the properties below are
    exercised. *)

Module Samples.

(** Eight datagrams of one connection, in capture order: client datagrams
    0, 1, 3, 4, 5 and 7, and two server datagrams, 2 and 6, that carry an
    acknowledgment. *)
Definition capture : Connection.heap := fun r =>
  match r with
  | 0%nat => Connection.mkDatagram true 0 1 60 20 (-1) None
  | 1%nat => Connection.mkDatagram true 10 2 60 20 (-1) None
  | 2%nat => Connection.mkDatagram false 20 3 40 0 2 None
  | 3%nat => Connection.mkDatagram true 30 4 60 20 (-1) None
  | 4%nat => Connection.mkDatagram true 40 5 60 20 (-1) None
  | 5%nat => Connection.mkDatagram true 50 6 60 20 (-1) None
  | 6%nat => Connection.mkDatagram false 77 7 40 0 6 None
  | _ => Connection.mkDatagram true 100 8 60 20 (-1) None
  end.

Definition capture_order : list Connection.ref := seq 0 8.

(** Six datagrams of one connection, in capture order: the client
    datagrams 0, 2, 3 and 4, and the server datagrams 1 and 5, which
    acknowledge 0 after 26 microseconds and 4 after 10 microseconds. *)
Definition uneven : Connection.heap := fun r =>
  match r with
  | 0%nat => Connection.mkDatagram true 0 1 60 20 (-1) None
  | 1%nat => Connection.mkDatagram false 26 2 40 0 1 None
  | 2%nat => Connection.mkDatagram true 30 3 60 20 (-1) None
  | 3%nat => Connection.mkDatagram true 40 4 60 20 (-1) None
  | 4%nat => Connection.mkDatagram true 50 5 60 20 (-1) None
  | _ => Connection.mkDatagram false 60 6 40 0 5 None
  end.

Definition uneven_order : list Connection.ref := seq 0 6.

(** A short interactive session: the client types, the server answers
    within half an RTT. *)
Definition session : list ConnectionType.Datagram :=
  [ ConnectionType.mkDatagram true 20 0 (Some 1000000);
    ConnectionType.mkDatagram false 30 500000 (Some 1000000);
    ConnectionType.mkDatagram true 20 5000000 (Some 1000000);
    ConnectionType.mkDatagram false 30 5400000 (Some 1000000) ].

(** A datagram of a capture, with its direction, time, payload length and
    RTT. *)
Definition datagram (sentByClient : bool) (time payloadLen : Z)
           (RTT : option Z) : Connection.Datagram :=
  Connection.mkDatagram sentByClient time 0 (payloadLen + 40) payloadLen
                        (-1) RTT.

(** Twenty-one datagrams, only the first of which is a client datagram
    with payload. *)
Definition lone : SteppingStone.connection :=
  SteppingStone.mkConnection 0
    (datagram true 0 10 (Some 5) :: repeat (datagram false 1 0 (Some 5)) 20).

(** Twenty-two client datagrams of 10 bytes, one every millisecond. *)
Definition steady : SteppingStone.connection :=
  SteppingStone.mkConnection 1
    (map (fun i => datagram true (Z.of_nat i * 1000) 10 (Some 100))
         (seq 0 22)).

(** The server answers 70 ms after a datagram of the client whose RTT is
    100 ms. *)
Definition borderline : list ConnectionType.Datagram :=
  [ ConnectionType.mkDatagram true 20 0 (Some 100000);
    ConnectionType.mkDatagram false 20 70000 (Some 100000) ].

(** Twenty-one client datagrams of 10 bytes, one every 3 microseconds,
    each with an RTT of 2 microseconds. *)
Definition brisk : SteppingStone.connection :=
  SteppingStone.mkConnection 2
    (map (fun i => datagram true (Z.of_nat i * 3) 10 (Some 2)) (seq 0 21)).

(** A client datagram with payload and no RTT, answered by the server. *)
Definition unanswered : list ConnectionType.Datagram :=
  [ ConnectionType.mkDatagram true 20 0 None;
    ConnectionType.mkDatagram false 20 1 (Some 5) ].


(** A connection whose only datagram has no RTT. *)
Definition unmeasured : SteppingStone.connection :=
  SteppingStone.mkConnection 7 [datagram true 0 10 None].

(** What [random] returns when it always returns the lower bound, for the
    1000 turns of the loop of [fake_scp]. *)
Definition lowest_draws : list TestConnectionType.draws :=
  repeat (TestConnectionType.mkDraws 100000 48 500000 100000 500000) 1000.

(** The group of the payload lengths 10 and 13. *)
Definition one_group : dict (list Z) := [(10, [10; 13])].

(** Two groups of payload lengths, 12 being within [IN_GROUP] of both
    keys. *)
Definition two_groups : dict (list Z) := [(10, [10]); (15, [15])].

End Samples.

(** * Properties *)

(** ** Binary64 numbers *)

(** [double] and [total_seconds] give the numbers that Python computes,
    written here as [float.hex] prints them: the literals [0.5] and [0.7],
    and the seconds of 100 ms and of 70 ms, which are also what the
    division of the kernel gives on the two integers.  The quotient of
    the last two is the first binary64 number above [0.7]. *)
Example binary64_values :
  double (1 # 2) = 0x1p-1%float /\
  double (7 # 10) = 0x1.6666666666666p-1%float /\
  total_seconds 100000 = 0x1.999999999999ap-4%float /\
  total_seconds 70000 = 0x1.1eb851eb851ecp-4%float /\
  total_seconds 100000 = (100000 / 1000000)%float /\
  total_seconds 70000 = (70000 / 1000000)%float /\
  (total_seconds 70000 / total_seconds 100000)%float
  = 0x1.6666666666667p-1%float /\
  next_up (double (7 # 10)) = 0x1.6666666666667p-1%float.
Proof. vm_compute. repeat split. Qed.

(** ** Boolean-keyed dictionaries *)

Lemma bget_bset_same {A : Type} (m : bdict A) (k : bool) (v : A) :
  bget (bset m k v) k = v.
Proof. destruct k; reflexivity. Qed.

Lemma bget_bset_other {A : Type} (m : bdict A) (k k' : bool) (v : A) :
  k' <> k -> bget (bset m k v) k' = bget m k'.
Proof. destruct k, k'; simpl; congruence. Qed.

Lemma bget_bset_negb {A : Type} (m : bdict A) (k : bool) (v : A) :
  bget (bset m (negb k) v) k = bget m k.
Proof. destruct k; reflexivity. Qed.

Lemma bget_bset_negb' {A : Type} (m : bdict A) (k : bool) (v : A) :
  bget (bset m k v) (negb k) = bget m (negb k).
Proof. destruct k; reflexivity. Qed.

Lemma bool_neq_negb (k k' : bool) : k' <> k -> k' = negb k.
Proof. destruct k, k'; simpl; congruence. Qed.

(** ** Sums *)

Lemma fold_left_add (l : list Z) : forall a,
  fold_left Z.add l a = a + fold_right Z.add 0 l.
Proof.
  induction l as [|x l IH]; intros a; simpl; [lia|]. rewrite IH. lia.
Qed.

Lemma fold_left_add_0 (l : list Z) :
  fold_left Z.add l 0 = fold_right Z.add 0 l.
Proof. rewrite fold_left_add. reflexivity. Qed.

(** ** The RTT estimator *)

Module RTTEstimator.

Import Connection.

(** *** Assignments to [d.RTT] *)

Lemma assign_RTT_same h r v : RTT (assign_RTT h r v r) = v.
Proof. unfold assign_RTT. rewrite Nat.eqb_refl. reflexivity. Qed.

Lemma assign_RTT_other h r v r' : r' <> r -> assign_RTT h r v r' = h r'.
Proof.
  intros Hne. unfold assign_RTT.
  destruct (Nat.eqb_spec r' r); [contradiction | reflexivity].
Qed.

Lemma assign_RTT_erase h r v r' :
  with_RTT (assign_RTT h r v r') None = with_RTT (h r') None.
Proof. unfold assign_RTT. destruct (Nat.eqb r' r); reflexivity. Qed.

Lemma erase_unchanged d d' :
  with_RTT d' None = with_RTT d None -> unchanged_but_RTT d d'.
Proof.
  unfold with_RTT, unchanged_but_RTT. intros H.
  injection H as -> -> -> -> -> ->. repeat split.
Qed.

Lemma erase_sentByClient d d' :
  with_RTT d' None = with_RTT d None -> sentByClient d' = sentByClient d.
Proof. intros H. apply erase_unchanged in H. apply H. Qed.

Lemma same_frame_refl h : same_frame h h.
Proof. intros r. reflexivity. Qed.

Lemma same_frame_trans h1 h2 h3 :
  same_frame h1 h2 -> same_frame h2 h3 -> same_frame h1 h3.
Proof. intros H12 H23 r. rewrite H23. apply H12. Qed.

Lemma same_frame_assign h r v : same_frame h (assign_RTT h r v).
Proof. intros r'. apply assign_RTT_erase. Qed.

Lemma step1_frame st d : same_frame (fst st) (fst (step1 st d)).
Proof.
  destruct st as [h la]. unfold step1.
  destruct (bget la (negb (sentByClient (h d)))) as [a|].
  - destruct (seqNb (h d) <? seqNb (h a)).
    + destruct (ack (assign_RTT h d _ d) >? -1); simpl; apply same_frame_assign.
    + destruct (ack (h d) >? -1); simpl; apply same_frame_refl.
  - destruct (ack (h d) >? -1); simpl; apply same_frame_refl.
Qed.

Lemma fold_frame {S : Type} (get : S -> heap) (step : S -> ref -> S) :
  (forall st d, same_frame (get st) (get (step st d))) ->
  forall l st, same_frame (get st) (get (fold_left step l st)).
Proof.
  intros Hstep l. induction l as [|d l IH]; intros st; simpl.
  - apply same_frame_refl.
  - eapply same_frame_trans; [apply Hstep | apply IH].
Qed.

Lemma pass1_frame h l : same_frame h (fst (pass1 h l)).
Proof. unfold pass1. apply (fold_frame fst step1 step1_frame l (h, _)). Qed.

Lemma fill_copy_frame h es d : same_frame h (fill_copy h es d).
Proof.
  unfold fill_copy.
  apply (fold_frame (fun h => h)
           (fun h e => assign_RTT h e (RTT (h d)))).
  intros st e. apply same_frame_assign.
Qed.

Lemma fill_linear_frame es : forall h last diff i,
  same_frame h (fill_linear h es last diff i).
Proof.
  induction es as [|e es IH]; intros h last diff i; simpl.
  - apply same_frame_refl.
  - eapply same_frame_trans; [apply same_frame_assign | apply IH].
Qed.

Lemma fill_last_frame h es v : same_frame h (fill_last h es v).
Proof.
  unfold fill_last.
  apply (fold_frame (fun h => h) (fun h e => assign_RTT h e (Some v))).
  intros st e. apply same_frame_assign.
Qed.

Lemma step2_frame st d : same_frame (store st) (store (step2 st d)).
Proof.
  unfold step2. destruct (RTT (store st d)) as [v|]; [|apply same_frame_refl].
  destruct (bget (empty_RTTs st) (sentByClient (store st d))) as [|e es];
    [apply same_frame_refl|].
  destruct (bget (last_RTT st) (sentByClient (store st d))); cbn [store].
  - apply fill_linear_frame.
  - apply fill_copy_frame.
Qed.

Lemma pass2_frame h l : same_frame h (store (pass2 h l)).
Proof. unfold pass2. apply (fold_frame store step2 step2_frame l (mkState2 h _ _)). Qed.

Lemma step3_frame last empty h way : same_frame h (step3 last empty h way).
Proof.
  unfold step3. destruct (bget last way); [apply fill_last_frame | apply same_frame_refl].
Qed.

(** C6.  [compute_RTT] leaves [self.datagrams] in its original order, the
    same datagram at every index, and changes no field of any datagram
    other than its RTT. *)
Theorem compute_RTT_restores_order_and_fields (h : heap) (datagrams : list ref) :
  snd (compute_RTT h datagrams) = datagrams /\
  forall r, unchanged_but_RTT (h r) (fst (compute_RTT h datagrams) r).
Proof.
  unfold compute_RTT.
  pose proof (pass1_frame h (rev datagrams)) as H1.
  destruct (pass1 h (rev datagrams)) as [h1 la]. simpl in *.
  split; [apply rev_involutive|].
  intros r. apply erase_unchanged.
  pose proof (pass2_frame h1 (rev (rev datagrams))) as H2.
  set (st := pass2 h1 (rev (rev datagrams))) in *.
  pose proof (step3_frame (last_RTT st) (empty_RTTs st) (store st) true) as H3.
  pose proof (step3_frame (last_RTT st) (empty_RTTs st)
                (step3 (last_RTT st) (empty_RTTs st) (store st) true) false) as H4.
  rewrite H4, H3, H2. apply H1.
Qed.

(** *** The exact-matching pass *)

Lemma assign_RTT_ack h r v r' : ack (assign_RTT h r v r') = ack (h r').
Proof. unfold assign_RTT. destruct (Nat.eqb r' r); reflexivity. Qed.

Lemma assign_RTT_sentByClient h r v r' :
  sentByClient (assign_RTT h r v r') = sentByClient (h r').
Proof. unfold assign_RTT. destruct (Nat.eqb r' r); reflexivity. Qed.

Lemma gtb_minus_one (a : Z) : -1 <= a -> (a >? -1) = negb (a =? -1).
Proof.
  intros Ha. rewrite Z.gtb_ltb.
  destruct (Z.ltb_spec (-1) a), (Z.eqb_spec a (-1)); simpl; try reflexivity; lia.
Qed.

(** One iteration of the loop of Step 1, from any state. *)
Lemma step1_spec (h : heap) (last_acking : bdict (option ref)) (d : ref) :
  -1 <= ack (h d) ->
  let way := sentByClient (h d) in
  let st' := step1 (h, last_acking) d in
  (forall acker,
      bget last_acking (negb way) = Some acker ->
      seqNb (h d) < seqNb (h acker) ->
      RTT (fst st' d) = Some (time (h acker) - time (h d)) /\
      bget (snd st') (negb way) = None) /\
  ((forall acker,
       bget last_acking (negb way) = Some acker ->
       ~ seqNb (h d) < seqNb (h acker)) ->
   RTT (fst st' d) = RTT (h d) /\
   bget (snd st') (negb way) = bget last_acking (negb way)) /\
  (ack (h d) <> -1 -> bget (snd st') way = Some d) /\
  (ack (h d) = -1 -> bget (snd st') way = bget last_acking way) /\
  (forall r, r <> d -> fst st' r = h r).
Proof.
  intros Hack way st'. subst st'. unfold step1. fold way.
  destruct (bget last_acking (negb way)) as [a|] eqn:Hla.
  - destruct (Z.ltb_spec (seqNb (h d)) (seqNb (h a))) as [Hlt|Hge].
    + rewrite assign_RTT_ack, assign_RTT_sentByClient. fold way.
      rewrite (gtb_minus_one _ Hack).
      destruct (Z.eqb_spec (ack (h d)) (-1)) as [He|Hne]; simpl;
        (split; [intros acker Ha _; injection Ha as <-;
                 split; [apply assign_RTT_same|]
                |split; [intros Hno; exfalso; exact (Hno a eq_refl Hlt)
                        |split; [|split]]]).
      * apply bget_bset_same.
      * intros Hc; contradiction.
      * intros _. apply bget_bset_negb.
      * intros r Hr. apply assign_RTT_other, Hr.
      * rewrite bget_bset_negb'. apply bget_bset_same.
      * intros _. apply bget_bset_same.
      * intros Hc; contradiction.
      * intros r Hr. apply assign_RTT_other, Hr.
    + rewrite (gtb_minus_one _ Hack).
      destruct (Z.eqb_spec (ack (h d)) (-1)) as [He|Hne]; simpl;
        (split; [intros acker Ha Hlt; injection Ha as <-; lia
                |split; [intros _; split; [reflexivity|]
                        |split; [|split]]]).
      * exact Hla.
      * intros Hc; contradiction.
      * reflexivity.
      * reflexivity.
      * rewrite bget_bset_negb'. exact Hla.
      * intros _. apply bget_bset_same.
      * intros Hc; contradiction.
      * reflexivity.
  - rewrite (gtb_minus_one _ Hack).
    destruct (Z.eqb_spec (ack (h d)) (-1)) as [He|Hne]; simpl;
      (split; [intros acker Ha; discriminate
              |split; [intros _; split; [reflexivity|]
                      |split; [|split]]]).
    + exact Hla.
    + intros Hc; contradiction.
    + reflexivity.
    + reflexivity.
    + rewrite bget_bset_negb'. exact Hla.
    + intros _. apply bget_bset_same.
    + intros Hc; contradiction.
    + reflexivity.
Qed.

Lemma pass1_ack h l r : ack (fst (pass1 h l) r) = ack (h r).
Proof. apply (erase_unchanged _ _ (pass1_frame h l r)). Qed.

(** C4.  The exact-matching pass runs [step1] over the reversed list.  When
    it reaches a datagram [d] (after the datagrams [later], before the
    datagrams [earlier]), [d] is given the RTT [acker.time - d.time] exactly
    when the opposite direction holds a pending acker whose sequence number
    is strictly greater than that of [d], and that pending acker is then
    cleared; otherwise the RTT of [d] and the pending acker are left as they
    are.  Independently, [d] becomes the pending acker of its own direction
    when it carries an acknowledgment reference ([ack <> -1]) and the
    pending acker of its direction is left alone when it does not.  No other
    datagram is touched.  [ack] is [-1] or a sequence number. *)
Theorem exact_matching_pass
    (h : heap) (datagrams later : list ref) (d : ref) (earlier : list ref)
    (Horder : rev datagrams = later ++ d :: earlier)
    (Hack : -1 <= ack (h d)) :
  let st := pass1 h later in
  let st' := step1 st d in
  let way := sentByClient (fst st d) in
  pass1 h (rev datagrams) = fold_left step1 earlier st' /\
  (forall acker,
      bget (snd st) (negb way) = Some acker ->
      seqNb (fst st d) < seqNb (fst st acker) ->
      RTT (fst st' d) = Some (time (fst st acker) - time (fst st d)) /\
      bget (snd st') (negb way) = None) /\
  ((forall acker,
       bget (snd st) (negb way) = Some acker ->
       ~ seqNb (fst st d) < seqNb (fst st acker)) ->
   RTT (fst st' d) = RTT (fst st d) /\
   bget (snd st') (negb way) = bget (snd st) (negb way)) /\
  (ack (fst st d) <> -1 -> bget (snd st') way = Some d) /\
  (ack (fst st d) = -1 -> bget (snd st') way = bget (snd st) way) /\
  (forall r, r <> d -> fst st' r = fst st r).
Proof.
  intros st st' way. split.
  - rewrite Horder. unfold pass1. rewrite fold_left_app. reflexivity.
  - subst st' way. assert (Hack' : -1 <= ack (fst st d)).
    { subst st. rewrite pass1_ack. exact Hack. }
    destruct st as [h0 la]. apply (step1_spec h0 la d Hack').
Qed.

Lemma exact_matching_pass_witness :
  rev Samples.capture_order = [7; 6]%nat ++ 5%nat :: [4; 3; 2; 1; 0]%nat /\
  -1 <= ack (Samples.capture 5%nat) /\
  RTT (fst (step1 (pass1 Samples.capture [7; 6]%nat) 5%nat) 5%nat) = Some 27.
Proof.
  split; [reflexivity|]. split; [simpl; lia|].
  destruct (exact_matching_pass Samples.capture Samples.capture_order
              [7; 6]%nat 5%nat [4; 3; 2; 1; 0]%nat eq_refl
              ltac:(simpl; lia)) as (_ & H & _).
  apply (H 6%nat); [reflexivity | simpl; lia].
Defined.

(** *** The interpolation pass: the three ways of filling a run *)

Lemma fill_copy_cons h e es d :
  fill_copy h (e :: es) d = fill_copy (assign_RTT h e (RTT (h d))) es d.
Proof. reflexivity. Qed.

Lemma fill_last_cons h e es v :
  fill_last h (e :: es) v = fill_last (assign_RTT h e (Some v)) es v.
Proof. reflexivity. Qed.

Lemma fill_copy_notin es : forall h d r,
  ~ In r es -> fill_copy h es d r = h r.
Proof.
  induction es as [|e es IH]; intros h d r Hr; [reflexivity|].
  rewrite fill_copy_cons, IH by (intros Hc; apply Hr; right; exact Hc).
  apply assign_RTT_other. intros ->. apply Hr. left. reflexivity.
Qed.

Lemma fill_linear_notin es : forall h last diff i r,
  ~ In r es -> fill_linear h es last diff i r = h r.
Proof.
  induction es as [|e es IH]; intros h last diff i r Hr; [reflexivity|].
  simpl. rewrite IH by (intros Hc; apply Hr; right; exact Hc).
  apply assign_RTT_other. intros ->. apply Hr. left. reflexivity.
Qed.

Lemma fill_last_notin es : forall h v r,
  ~ In r es -> fill_last h es v r = h r.
Proof.
  induction es as [|e es IH]; intros h v r Hr; [reflexivity|].
  rewrite fill_last_cons, IH by (intros Hc; apply Hr; right; exact Hc).
  apply assign_RTT_other. intros ->. apply Hr. left. reflexivity.
Qed.

Lemma assign_own_RTT h e d :
  RTT (assign_RTT h e (RTT (h d)) d) = RTT (h d).
Proof.
  destruct (Nat.eq_dec d e) as [->|Hne].
  - apply assign_RTT_same.
  - rewrite assign_RTT_other by exact Hne. reflexivity.
Qed.

Lemma fill_copy_self es : forall h d, RTT (fill_copy h es d d) = RTT (h d).
Proof.
  induction es as [|e es IH]; intros h d; [reflexivity|].
  rewrite fill_copy_cons, IH. apply assign_own_RTT.
Qed.

Lemma fill_copy_In es : forall h d e,
  In e es -> RTT (fill_copy h es d e) = RTT (h d).
Proof.
  induction es as [|e0 es IH]; intros h d e He; [contradiction|].
  rewrite fill_copy_cons.
  destruct (in_dec Nat.eq_dec e es) as [Hin|Hnotin].
  - rewrite IH by exact Hin. apply assign_own_RTT.
  - destruct He as [->|Hin]; [|contradiction].
    rewrite fill_copy_notin by exact Hnotin. apply assign_RTT_same.
Qed.

Lemma fill_last_In es : forall h v e,
  In e es -> RTT (fill_last h es v e) = Some v.
Proof.
  induction es as [|e0 es IH]; intros h v e He; [contradiction|].
  rewrite fill_last_cons.
  destruct (in_dec Nat.eq_dec e es) as [Hin|Hnotin].
  - apply IH, Hin.
  - destruct He as [->|Hin]; [|contradiction].
    rewrite fill_last_notin by exact Hnotin. apply assign_RTT_same.
Qed.

Lemma fill_linear_nth es : forall h last diff j i e,
  NoDup es -> nth_error es i = Some e ->
  RTT (fill_linear h es last diff j e) = Some (last + (j + Z.of_nat i) * diff).
Proof.
  induction es as [|e0 es IH]; intros h last diff j i e Hnd Hi.
  - destruct i; discriminate.
  - inversion Hnd as [|? ? Hnotin Hnd']; subst. destruct i as [|i]; simpl in Hi.
    + injection Hi as ->. simpl fill_linear.
      rewrite fill_linear_notin by exact Hnotin. rewrite assign_RTT_same.
      f_equal. simpl. rewrite Z.add_0_r. reflexivity.
    + simpl fill_linear. rewrite (IH _ last diff (j + 1) i e Hnd' Hi).
      f_equal. rewrite Nat2Z.inj_succ. f_equal. f_equal. lia.
Qed.

(** *** The interpolation pass: what it leaves alone *)

Lemma step2_out st x r :
  r <> x ->
  ~ In r (bget (empty_RTTs st) true) -> ~ In r (bget (empty_RTTs st) false) ->
  store (step2 st x) r = store st r /\
  ~ In r (bget (empty_RTTs (step2 st x)) true) /\
  ~ In r (bget (empty_RTTs (step2 st x)) false).
Proof.
  intros Hx Ht Hf. unfold step2.
  assert (Hw : forall w, ~ In r (bget (empty_RTTs st) w))
    by (intros [|]; assumption).
  destruct (RTT (store st x)) as [v|].
  - destruct (bget (empty_RTTs st) (sentByClient (store st x)))
      as [|e es] eqn:He.
    + cbn [store empty_RTTs]. auto.
    + assert (Hes : ~ In r (e :: es)) by (rewrite <- He; apply Hw).
      destruct (bget (last_RTT st) (sentByClient (store st x)));
        cbn [store empty_RTTs];
        (split; [first [apply fill_linear_notin | apply fill_copy_notin];
                 exact Hes|]);
        destruct (sentByClient (store st x)); simpl; auto.
  - cbn [store empty_RTTs]. split; [reflexivity|].
    destruct (sentByClient (store st x)); simpl; split; auto;
      rewrite in_app_iff; simpl; intros [Hc|[Hc|[]]]; auto.
Qed.

Lemma pass2_out l : forall st r,
  ~ In r l ->
  ~ In r (bget (empty_RTTs st) true) -> ~ In r (bget (empty_RTTs st) false) ->
  store (fold_left step2 l st) r = store st r /\
  ~ In r (bget (empty_RTTs (fold_left step2 l st)) true) /\
  ~ In r (bget (empty_RTTs (fold_left step2 l st)) false).
Proof.
  induction l as [|x l IH]; intros st r Hl Ht Hf; simpl; [auto|].
  assert (Hx : r <> x) by (intros ->; apply Hl; left; reflexivity).
  destruct (step2_out st x r Hx Ht Hf) as (Hs & Ht' & Hf').
  destruct (IH (step2 st x) r) as (Hs2 & Ht2 & Hf2); auto.
  - intros Hc. apply Hl. right. exact Hc.
  - rewrite Hs2, Hs. auto.
Qed.

Lemma finish_out st r :
  ~ In r (bget (empty_RTTs st) true) -> ~ In r (bget (empty_RTTs st) false) ->
  finish st r = store st r.
Proof.
  intros Ht Hf. unfold finish. cbn [fold_left]. unfold step3.
  destruct (bget (last_RTT st) true), (bget (last_RTT st) false);
    repeat (rewrite fill_last_notin by assumption); reflexivity.
Qed.

(** *** The interpolation pass: one direction at a time *)

Lemma sorted_by_way_init h :
  sorted_by_way h (mkState2 h (mkBdict None None) (mkBdict [] [])).
Proof. split; [reflexivity|]. intros [|] r Hr; destruct Hr. Qed.

Lemma step2_sorted h0 st x :
  sorted_by_way h0 st -> sorted_by_way h0 (step2 st x).
Proof.
  intros [Hdir Hemp]. split.
  - intros r. rewrite <- Hdir.
    apply erase_sentByClient, (step2_frame st x r).
  - intros way r. unfold step2. pose proof (Hdir x) as Hx.
    destruct (RTT (store st x)) as [v|].
    + destruct (bget (empty_RTTs st) (sentByClient (store st x)))
        as [|e es] eqn:He.
      * cbn [empty_RTTs]. apply Hemp.
      * cbn [empty_RTTs].
        destruct (Bool.bool_dec way (sentByClient (store st x))) as [->|Hne].
        -- rewrite bget_bset_same. intros [].
        -- rewrite bget_bset_other by exact Hne. apply Hemp.
    + cbn [empty_RTTs].
      destruct (Bool.bool_dec way (sentByClient (store st x))) as [->|Hne].
      * rewrite bget_bset_same, in_app_iff. intros [Hr|[<-|[]]].
        -- apply Hemp, Hr.
        -- symmetry. exact Hx.
      * rewrite bget_bset_other by exact Hne. apply Hemp.
Qed.

Lemma pass2_sorted h0 l : forall st,
  sorted_by_way h0 st -> sorted_by_way h0 (fold_left step2 l st).
Proof.
  induction l as [|x l IH]; intros st Hst; simpl; [exact Hst|].
  apply IH, step2_sorted, Hst.
Qed.

(** A datagram of the other direction leaves direction [way] alone. *)
Lemma step2_other h0 st x way :
  sorted_by_way h0 st -> sentByClient (h0 x) <> way ->
  bget (last_RTT (step2 st x)) way = bget (last_RTT st) way /\
  bget (empty_RTTs (step2 st x)) way = bget (empty_RTTs st) way /\
  forall r, sentByClient (h0 r) = way -> store (step2 st x) r = store st r.
Proof.
  intros [Hdir Hemp] Hx. unfold step2. rewrite (Hdir x).
  assert (Hne : way <> sentByClient (h0 x)) by congruence.
  destruct (RTT (store st x)) as [v|].
  - destruct (bget (empty_RTTs st) (sentByClient (h0 x))) as [|e es] eqn:He.
    + cbn [store last_RTT empty_RTTs].
      rewrite bget_bset_other by exact Hne. auto.
    + assert (Hout : forall r, sentByClient (h0 r) = way -> ~ In r (e :: es)).
      { intros r Hr Hin. rewrite <- He in Hin. apply Hemp in Hin. congruence. }
      destruct (bget (last_RTT st) (sentByClient (h0 x)));
        cbn [store last_RTT empty_RTTs];
        rewrite !bget_bset_other by exact Hne;
        (split; [reflexivity|split; [reflexivity|]]); intros r Hr.
      * apply fill_linear_notin, Hout, Hr.
      * apply fill_copy_notin, Hout, Hr.
  - cbn [store last_RTT empty_RTTs].
    rewrite bget_bset_other by exact Hne. auto.
Qed.

(** A datagram without RTT joins the run of its direction. *)
Lemma step2_unset h0 st x :
  sorted_by_way h0 st -> RTT (store st x) = None ->
  last_RTT (step2 st x) = last_RTT st /\
  bget (empty_RTTs (step2 st x)) (sentByClient (h0 x))
  = bget (empty_RTTs st) (sentByClient (h0 x)) ++ [x] /\
  forall r, store (step2 st x) r = store st r.
Proof.
  intros [Hdir Hemp] Hx. unfold step2. rewrite Hx, (Hdir x).
  cbn [store last_RTT empty_RTTs]. rewrite bget_bset_same. auto.
Qed.

(** A datagram with an RTT closes the run of its direction. *)
Lemma step2_set h0 st x v :
  sorted_by_way h0 st -> RTT (store st x) = Some v ->
  let way := sentByClient (h0 x) in
  let run := bget (empty_RTTs st) way in
  ~ In x run ->
  bget (last_RTT (step2 st x)) way = Some v /\
  bget (empty_RTTs (step2 st x)) way = [] /\
  (forall r, ~ In r run -> store (step2 st x) r = store st r) /\
  (bget (last_RTT st) way = None ->
   forall e, In e run -> RTT (store (step2 st x) e) = Some v) /\
  (forall r0, bget (last_RTT st) way = Some r0 -> NoDup run ->
   forall i e, nth_error run i = Some e ->
   RTT (store (step2 st x) e)
   = Some (r0 + (1 + Z.of_nat i) * ((v - r0) / (1 + Z.of_nat (length run))))).
Proof.
  intros [Hdir Hemp] Hx way run Hnotin. subst run. unfold step2.
  rewrite Hx, (Hdir x). fold way.
  destruct (bget (empty_RTTs st) way) as [|e0 es] eqn:He.
  - cbn [store last_RTT empty_RTTs]. rewrite bget_bset_same.
    repeat split; auto.
    + intros _ e [].
    + intros r0 _ _ [|i] e Hi; discriminate.
  - destruct (bget (last_RTT st) way) as [last|] eqn:Hl;
      cbn [store last_RTT empty_RTTs]; rewrite !bget_bset_same.
    + rewrite fill_linear_notin by exact Hnotin.
      repeat split; auto.
      * intros r Hr. apply fill_linear_notin, Hr.
      * intros Hc; discriminate.
      * intros r0 Hr0 Hnd i e Hi. injection Hr0 as <-.
        apply fill_linear_nth; assumption.
    + rewrite fill_copy_self.
      repeat split; auto.
      * intros r Hr. apply fill_copy_notin, Hr.
      * intros _ e Hin. rewrite fill_copy_In by exact Hin. exact Hx.
      * intros r0 Hc; discriminate.
Qed.

(** Over a stretch of the list in which no datagram of direction [way] has
    an RTT, the run of that direction grows by those datagrams and nothing
    else of that direction changes. *)
Lemma pass2_unset_run h0 way l : forall st,
  sorted_by_way h0 st ->
  (forall r, In r l -> sentByClient (h0 r) = way -> RTT (store st r) = None) ->
  bget (last_RTT (fold_left step2 l st)) way = bget (last_RTT st) way /\
  bget (empty_RTTs (fold_left step2 l st)) way
  = bget (empty_RTTs st) way ++ way_of h0 l way /\
  forall r, sentByClient (h0 r) = way ->
            store (fold_left step2 l st) r = store st r.
Proof.
  induction l as [|x l IH]; intros st Hst Hun; simpl.
  - rewrite app_nil_r. auto.
  - pose proof (step2_sorted h0 st x Hst) as Hst'.
    destruct (Bool.bool_dec (sentByClient (h0 x)) way) as [Hx|Hx].
    + assert (Hnone : RTT (store st x) = None)
        by (apply Hun; [left; reflexivity | exact Hx]).
      destruct (step2_unset h0 st x Hst Hnone) as (Hl & He & Hs).
      rewrite Hx in He.
      destruct (IH (step2 st x) Hst') as (Hl2 & He2 & Hs2).
      { intros r Hr Hw. rewrite Hs. apply Hun; [right; exact Hr | exact Hw]. }
      rewrite Hl2, He2, Hl, He, Hx, Bool.eqb_reflx, <- app_assoc.
      repeat split. intros r Hr. rewrite Hs2, Hs by exact Hr. reflexivity.
    + destruct (step2_other h0 st x way Hst Hx) as (Hl & He & Hs).
      destruct (IH (step2 st x) Hst') as (Hl2 & He2 & Hs2).
      { intros r Hr Hw. rewrite Hs by exact Hw.
        apply Hun; [right; exact Hr | exact Hw]. }
      rewrite Hl2, He2, Hl, He.
      destruct (Bool.eqb (sentByClient (h0 x)) way) eqn:Heq;
        [apply Bool.eqb_prop in Heq; contradiction|].
      repeat split. intros r Hr. rewrite Hs2, Hs by exact Hr. reflexivity.
Qed.

(** *** The interpolation pass: the closing loop *)

Lemma finish_way_unset h0 st way r :
  sorted_by_way h0 st -> bget (last_RTT st) way = None ->
  sentByClient (h0 r) = way -> finish st r = store st r.
Proof.
  intros [Hdir Hemp] Hl Hr. unfold finish. cbn [fold_left]. unfold step3.
  assert (Hout : ~ In r (bget (empty_RTTs st) (negb way))).
  { intros Hin. apply Hemp in Hin. rewrite Hr in Hin. destruct way; discriminate. }
  destruct way; simpl negb in Hout; rewrite Hl.
  - destruct (bget (last_RTT st) false); [|reflexivity].
    apply fill_last_notin, Hout.
  - destruct (bget (last_RTT st) true); [|reflexivity].
    apply fill_last_notin, Hout.
Qed.

Lemma finish_way_set h0 st way v r :
  sorted_by_way h0 st -> bget (last_RTT st) way = Some v ->
  In r (bget (empty_RTTs st) way) -> RTT (finish st r) = Some v.
Proof.
  intros [Hdir Hemp] Hl Hin. unfold finish. cbn [fold_left]. unfold step3.
  assert (Hout : ~ In r (bget (empty_RTTs st) (negb way))).
  { intros Hc. apply Hemp in Hc. apply Hemp in Hin. rewrite Hin in Hc.
    destruct way; discriminate. }
  destruct way; simpl negb in Hout; rewrite Hl.
  - destruct (bget (last_RTT st) false).
    + rewrite fill_last_notin by exact Hout. apply fill_last_In, Hin.
    + apply fill_last_In, Hin.
  - apply fill_last_In, Hin.
Qed.

(** Once the run of its direction is closed, a datagram that does not come
    again keeps what it holds. *)
Lemma settled h0 st way l r :
  sorted_by_way h0 st -> bget (empty_RTTs st) way = [] ->
  sentByClient (h0 r) = way -> ~ In r l ->
  finish (fold_left step2 l st) r = store st r.
Proof.
  intros Hst He Hr Hl.
  assert (Hw : forall w, ~ In r (bget (empty_RTTs st) w)).
  { intros w Hin. destruct (Bool.bool_dec w way) as [->|Hne].
    - rewrite He in Hin. destruct Hin.
    - apply Hst in Hin. congruence. }
  destruct (pass2_out l st r Hl (Hw true) (Hw false)) as (Hs & Ht & Hf).
  rewrite finish_out by assumption. exact Hs.
Qed.

(** A datagram not met yet is as it was when the loop started. *)
Lemma pass2_fresh h l r :
  ~ In r l ->
  let st := fold_left step2 l (mkState2 h (mkBdict None None) (mkBdict [] [])) in
  store st r = h r /\ forall w, ~ In r (bget (empty_RTTs st) w).
Proof.
  intros Hl st.
  destruct (pass2_out l (mkState2 h (mkBdict None None) (mkBdict [] [])) r Hl)
    as (Hs & Ht & Hf); try (intros []).
  split; [exact Hs|]. intros [|]; assumption.
Qed.

(** *** Lists *)

Lemma filter_split {A : Type} (f : A -> bool) (l : list A) :
  forall xs y ys, filter f l = xs ++ y :: ys ->
  exists l1 l2, l = l1 ++ y :: l2 /\ filter f l1 = xs /\ filter f l2 = ys /\
                f y = true.
Proof.
  induction l as [|a l IH]; intros xs y ys H; simpl in H.
  - destruct xs; discriminate.
  - destruct (f a) eqn:Ha.
    + destruct xs as [|x0 xs]; simpl in H; injection H as -> H.
      * exists [], l. simpl. auto.
      * destruct (IH _ _ _ H) as (l1 & l2 & -> & H1 & H2 & Hy).
        exists (x0 :: l1), l2. simpl. rewrite Ha, H1. auto.
    + destruct (IH _ _ _ H) as (l1 & l2 & -> & H1 & H2 & Hy).
      exists (a :: l1), l2. simpl. rewrite Ha. auto.
Qed.

Lemma NoDup_app_disjoint {A : Type} (l1 l2 : list A) :
  NoDup (l1 ++ l2) -> forall a, In a l1 -> ~ In a l2.
Proof.
  induction l1 as [|x l1 IH]; intros Hnd a Hin; [destruct Hin|].
  simpl in Hnd. inversion Hnd as [|? ? Hx Hnd']; subst.
  destruct Hin as [->|Hin].
  - intros Hc. apply Hx, in_or_app. right. exact Hc.
  - apply IH; assumption.
Qed.

(** *** The interpolation pass: the four kinds of run *)

Lemma way_of_In h l way r :
  In r (way_of h l way) <-> In r l /\ sentByClient (h r) = way.
Proof.
  unfold way_of. rewrite filter_In, Bool.eqb_true_iff. reflexivity.
Qed.

Lemma pass2_init h l : pass2 h l = fold_left step2 l (init2 h).
Proof. reflexivity. Qed.

Lemma init2_last h way : bget (last_RTT (init2 h)) way = None.
Proof. destruct way; reflexivity. Qed.

Lemma init2_empty h way : bget (empty_RTTs (init2 h)) way = [].
Proof. destruct way; reflexivity. Qed.

(** The state just after a datagram [x] that holds an RTT, met for the
    first time after the datagrams [l0]. *)
Lemma after_matched h l0 x v :
  ~ In x l0 -> RTT (h x) = Some v ->
  let way := sentByClient (h x) in
  let st := step2 (fold_left step2 l0 (init2 h)) x in
  sorted_by_way h st /\
  bget (last_RTT st) way = Some v /\
  bget (empty_RTTs st) way = [] /\
  forall r, ~ In r l0 -> r <> x -> store st r = h r.
Proof.
  intros Hx Hv way st. subst st.
  set (st0 := fold_left step2 l0 (init2 h)).
  assert (Hst0 : sorted_by_way h st0)
    by apply pass2_sorted, sorted_by_way_init.
  destruct (pass2_fresh h l0 x Hx) as (Hsx & Hex). fold (init2 h) st0 in Hsx, Hex.
  assert (Hv0 : RTT (store st0 x) = Some v) by (rewrite Hsx; exact Hv).
  destruct (step2_set h st0 x v Hst0 Hv0 (Hex _)) as (Hl & He & _).
  split; [apply step2_sorted, Hst0|]. split; [exact Hl|]. split; [exact He|].
  intros r Hr Hne.
  destruct (pass2_fresh h l0 r Hr) as (Hsr & Her). fold (init2 h) st0 in Hsr, Her.
  destruct (step2_out st0 x r Hne (Her true) (Her false)) as (Hs & _).
  rewrite Hs. exact Hsr.
Qed.

Lemma interpolate_none h l way :
  unset h (way_of h l way) ->
  forall d, In d (way_of h l way) -> RTT (finish (pass2 h l) d) = None.
Proof.
  intros Hun d Hd. rewrite pass2_init.
  destruct (pass2_unset_run h way l (init2 h) (sorted_by_way_init h))
    as (Hl & He & Hs).
  { intros r Hr Hw. apply Hun, way_of_In. auto. }
  pose proof Hd as Hd'. apply way_of_In in Hd' as [_ Hw].
  rewrite (finish_way_unset h _ way d).
  - rewrite Hs by exact Hw. apply Hun, Hd.
  - apply pass2_sorted, sorted_by_way_init.
  - rewrite Hl. apply init2_last.
  - exact Hw.
Qed.

Lemma interpolate_trailing h l way before last run r0 :
  NoDup l -> way_of h l way = before ++ last :: run ->
  RTT (h last) = Some r0 -> unset h run ->
  forall d, In d run -> RTT (finish (pass2 h l) d) = Some r0.
Proof.
  intros Hnd Hsplit Hr0 Hun d Hd.
  destruct (filter_split _ _ _ _ _ Hsplit) as (l0 & l1 & -> & _ & Hrun & Hw).
  apply Bool.eqb_prop in Hw.
  rewrite pass2_init, fold_left_app. cbn [fold_left].
  assert (Hlast : ~ In last l0).
  { intros Hc. apply (NoDup_remove_2 _ _ _ Hnd), in_or_app. left. exact Hc. }
  destruct (after_matched h l0 last r0 Hlast Hr0) as (Hst & Hl & He & Hs).
  rewrite Hw in Hl, He.
  set (st1 := step2 (fold_left step2 l0 (init2 h)) last) in *.
  destruct (pass2_unset_run h way l1 st1 Hst) as (Hl2 & He2 & Hs2).
  { intros r Hr Hrw. rewrite Hs.
    - apply Hun. rewrite <- Hrun. apply filter_In. split; [exact Hr|].
      apply Bool.eqb_true_iff, Hrw.
    - intros Hc. apply (NoDup_app_disjoint _ _ Hnd r Hc). right. exact Hr.
    - intros ->. apply (NoDup_remove_2 _ _ _ Hnd), in_or_app. right. exact Hr. }
  apply (finish_way_set h _ way).
  - apply pass2_sorted, Hst.
  - rewrite Hl2. exact Hl.
  - rewrite He2, He. simpl. unfold way_of. rewrite Hrun. exact Hd.
Qed.

Lemma interpolate_leading h l way run first after r1 :
  NoDup l -> way_of h l way = run ++ first :: after ->
  RTT (h first) = Some r1 -> unset h run ->
  forall d, In d run -> RTT (finish (pass2 h l) d) = Some r1.
Proof.
  intros Hnd Hsplit Hr1 Hun d Hd.
  destruct (filter_split _ _ _ _ _ Hsplit) as (l0 & l2 & -> & Hrun & _ & Hw).
  apply Bool.eqb_prop in Hw.
  rewrite pass2_init, fold_left_app. cbn [fold_left].
  destruct (pass2_unset_run h way l0 (init2 h) (sorted_by_way_init h))
    as (Hl & He & Hs).
  { intros r Hr Hrw. apply Hun. rewrite <- Hrun. apply filter_In.
    split; [exact Hr|]. apply Bool.eqb_true_iff, Hrw. }
  rewrite init2_last in Hl. rewrite init2_empty in He. simpl in He.
  fold (way_of h l0 way) in Hrun. rewrite Hrun in He.
  set (st0 := fold_left step2 l0 (init2 h)) in *.
  assert (Hst0 : sorted_by_way h st0)
    by apply pass2_sorted, sorted_by_way_init.
  assert (Hd0 : In d l0 /\ sentByClient (h d) = way).
  { apply way_of_In. rewrite Hrun. exact Hd. }
  assert (Hfirst : ~ In first l0).
  { intros Hc. apply (NoDup_remove_2 _ _ _ Hnd), in_or_app. left. exact Hc. }
  assert (Hv : RTT (store st0 first) = Some r1)
    by (rewrite Hs by exact Hw; exact Hr1).
  destruct (step2_set h st0 first r1 Hst0 Hv) as (_ & He1 & _ & Hcopy & _).
  { rewrite Hw, He. intros Hc. apply Hfirst.
    rewrite <- Hrun in Hc. apply way_of_In in Hc. apply Hc. }
  rewrite Hw in He1, Hcopy. rewrite He in Hcopy.
  rewrite (settled h _ way l2 d (step2_sorted h st0 first Hst0) He1).
  - apply Hcopy; [exact Hl | exact Hd].
  - apply Hd0.
  - intros Hc. apply (NoDup_app_disjoint _ _ Hnd d); [apply Hd0|].
    right. exact Hc.
Qed.

Lemma interpolate_between h l way before first run second after r0 r1 :
  NoDup l -> way_of h l way = before ++ first :: run ++ second :: after ->
  RTT (h first) = Some r0 -> RTT (h second) = Some r1 -> unset h run ->
  forall i d, nth_error run i = Some d ->
  RTT (finish (pass2 h l) d)
  = Some (r0 + (1 + Z.of_nat i) * ((r1 - r0) / (1 + Z.of_nat (length run)))).
Proof.
  intros Hnd Hsplit Hr0 Hr1 Hun i d Hd.
  destruct (filter_split _ _ _ _ _ Hsplit) as (l0 & l' & -> & _ & Hrest & Hw).
  destruct (filter_split _ _ _ _ _ Hrest) as (l1 & l2 & -> & Hrun & _ & Hw2).
  apply Bool.eqb_prop in Hw, Hw2. fold (way_of h l1 way) in Hrun.
  rewrite pass2_init, fold_left_app. cbn [fold_left].
  rewrite fold_left_app. cbn [fold_left].
  assert (Hfirst : ~ In first l0).
  { intros Hc. apply (NoDup_remove_2 _ _ _ Hnd), in_or_app. left. exact Hc. }
  pose proof (NoDup_app_remove_l _ _ Hnd) as Hnd1.
  apply NoDup_cons_iff in Hnd1 as [Hfirst' Hnd'].
  assert (Hsecond : ~ In second l1).
  { intros Hc. apply (NoDup_remove_2 _ _ _ Hnd'), in_or_app. left. exact Hc. }
  destruct (after_matched h l0 first r0 Hfirst Hr0) as (Hst & Hl & He & Hs).
  rewrite Hw in Hl, He.
  set (st1 := step2 (fold_left step2 l0 (init2 h)) first) in *.
  assert (Hfresh : forall r, In r (l1 ++ second :: l2) -> store st1 r = h r).
  { intros r Hr. apply Hs.
    - intros Hc. apply (NoDup_app_disjoint _ _ Hnd r Hc). right. exact Hr.
    - intros ->. contradiction. }
  destruct (pass2_unset_run h way l1 st1 Hst) as (Hl2 & He2 & Hs2).
  { intros r Hr Hrw. rewrite Hfresh by (apply in_or_app; left; exact Hr).
    apply Hun. rewrite <- Hrun. apply way_of_In. auto. }
  rewrite He, Hrun in He2. simpl in He2.
  set (st2 := fold_left step2 l1 st1) in *.
  assert (Hst2 : sorted_by_way h st2) by apply pass2_sorted, Hst.
  assert (Hv : RTT (store st2 second) = Some r1).
  { rewrite Hs2 by exact Hw2.
    rewrite Hfresh by (apply in_or_app; right; left; reflexivity). exact Hr1. }
  assert (Hrun1 : forall r, In r run -> In r l1 /\ sentByClient (h r) = way).
  { intros r Hr. apply way_of_In. rewrite Hrun. exact Hr. }
  destruct (step2_set h st2 second r1 Hst2 Hv) as (_ & He3 & _ & _ & Hlin).
  { rewrite Hw2, He2. intros Hc. apply Hsecond, (Hrun1 _ Hc). }
  rewrite Hw2 in He3, Hlin. rewrite He2 in Hlin.
  assert (Hdin : In d run) by (eapply nth_error_In; exact Hd).
  rewrite (settled h _ way l2 d (step2_sorted h st2 second Hst2) He3).
  - apply (Hlin r0); [rewrite Hl2; exact Hl | | exact Hd].
    rewrite <- Hrun. apply NoDup_filter. exact (NoDup_app_remove_r _ _ Hnd').
  - apply (Hrun1 _ Hdin).
  - intros Hc. apply (NoDup_app_disjoint _ _ Hnd' d); [apply (Hrun1 _ Hdin)|].
    right. exact Hc.
Qed.

Lemma compute_RTT_store h0 l :
  fst (compute_RTT h0 l) = finish (pass2 (after_step1 h0 l) l).
Proof.
  unfold compute_RTT, after_step1, finish.
  destruct (pass1 h0 (rev l)) as [h1 la]. rewrite rev_involutive. reflexivity.
Qed.

(** C5.  Let the datagrams of the list be distinct objects, let [h] be the
    store when Step 2 of [compute_RTT] starts (so that the RTTs set in [h]
    are the matched ones) and [h'] the store when [compute_RTT] returns, and
    consider the datagrams of one direction, in order.
    - A run of [k] datagrams without RTT strictly between two datagrams with
      matched RTTs [r0] (earlier) and [r1] (later) receives, at the
      1-indexed position [i] of the run, [r0 + i * ((r1 - r0) / (k + 1))],
      the division being that of a [timedelta] by an [int] (whole
      microseconds, rounded down).
    - A leading run before the first matched RTT receives that RTT.
    - A trailing run after the last matched RTT receives that RTT.
    - In a direction without any matched RTT every RTT remains unset. *)
Theorem interpolation_pass
    (h0 : heap) (datagrams : list ref) (way : bool)
    (Hdistinct : NoDup datagrams) :
  let h := after_step1 h0 datagrams in
  let h' := fst (compute_RTT h0 datagrams) in
  let mine := way_of h datagrams way in
  (forall before first run second after r0 r1,
      mine = before ++ first :: run ++ second :: after ->
      RTT (h first) = Some r0 -> RTT (h second) = Some r1 -> unset h run ->
      forall (i : nat) d, (1 <= i)%nat -> nth_error run (i - 1) = Some d ->
      RTT (h' d)
      = Some (r0 + Z.of_nat i * ((r1 - r0) / (Z.of_nat (length run) + 1)))) /\
  (forall run first after r1,
      mine = run ++ first :: after ->
      RTT (h first) = Some r1 -> unset h run ->
      forall d, In d run -> RTT (h' d) = Some r1) /\
  (forall before last run r0,
      mine = before ++ last :: run ->
      RTT (h last) = Some r0 -> unset h run ->
      forall d, In d run -> RTT (h' d) = Some r0) /\
  (unset h mine -> forall d, In d mine -> RTT (h' d) = None).
Proof.
  intros h h' mine. subst h' mine. rewrite compute_RTT_store. fold h.
  repeat split.
  - intros before first run second after r0 r1 Hsplit Hr0 Hr1 Hun i d Hi Hd.
    rewrite (interpolate_between h datagrams way before first run second
               after r0 r1 Hdistinct Hsplit Hr0 Hr1 Hun (i - 1) d Hd).
    f_equal. f_equal. f_equal; [lia|]. f_equal. lia.
  - intros run first after r1 Hsplit Hr1 Hun d Hd.
    exact (interpolate_leading h datagrams way run first after r1
             Hdistinct Hsplit Hr1 Hun d Hd).
  - intros before last run r0 Hsplit Hr0 Hun d Hd.
    exact (interpolate_trailing h datagrams way before last run r0
             Hdistinct Hsplit Hr0 Hun d Hd).
  - intros Hun d Hd.
    exact (interpolate_none h datagrams way Hun d Hd).
Qed.

Lemma interpolation_pass_witness :
  NoDup Samples.capture_order /\
  RTT (fst (compute_RTT Samples.capture Samples.capture_order) 3%nat) = Some 15 /\
  RTT (fst (compute_RTT Samples.capture Samples.capture_order) 0%nat) = Some 10 /\
  RTT (fst (compute_RTT Samples.capture Samples.capture_order) 7%nat) = Some 27 /\
  RTT (fst (compute_RTT Samples.capture Samples.capture_order) 6%nat) = None.
Proof.
  assert (Hnd : NoDup Samples.capture_order) by apply seq_NoDup.
  split; [exact Hnd|].
  destruct (interpolation_pass Samples.capture Samples.capture_order true Hnd)
    as (Hbetween & Hleading & Htrailing & _).
  destruct (interpolation_pass Samples.capture Samples.capture_order false Hnd)
    as (_ & _ & _ & Hnone).
  split; [|split; [|split]].
  - apply (Hbetween [0%nat] 1%nat [3; 4]%nat 5%nat [7%nat] 10 27
             eq_refl eq_refl eq_refl) with (i := 1%nat).
    + intros r [<-|[<-|[]]]; reflexivity.
    + apply le_n.
    + reflexivity.
  - apply (Hleading [0%nat] 1%nat [3; 4; 5; 7]%nat 10 eq_refl eq_refl).
    + intros r [<-|[]]; reflexivity.
    + left. reflexivity.
  - apply (Htrailing [0; 1; 3; 4]%nat 5%nat [7%nat] 27 eq_refl eq_refl).
    + intros r [<-|[]]; reflexivity.
    + left. reflexivity.
  - apply Hnone.
    + intros r [<-|[<-|[]]]; reflexivity.
    + right. left. reflexivity.
Defined.

(** C5 (counterexample).  The datagrams of a run do not receive the
    value of the linear interpolation when [k + 1] does not divide
    [r1 - r0]: the code divides the difference first, a [timedelta] by an
    [int], which rounds down to whole microseconds, and then multiplies by
    [i].  Between the matched RTTs 26 and 10 the two datagrams of the run
    receive 20 and 14, when the interpolation is 20 + 2/3 and 15 + 1/3. *)
Lemma interpolation_rounds_down :
  let h := after_step1 Samples.uneven Samples.uneven_order in
  let h' := fst (compute_RTT Samples.uneven Samples.uneven_order) in
  way_of h Samples.uneven_order true = [0; 2; 3; 4]%nat /\
  RTT (h 0%nat) = Some 26 /\ RTT (h 2%nat) = None /\
  RTT (h 3%nat) = None /\ RTT (h 4%nat) = Some 10 /\
  RTT (h' 2%nat) = Some 20 /\ RTT (h' 3%nat) = Some 14 /\
  (linear_interpolation 26 10 2 1 == inject_Z 20 + (2 # 3))%Q /\
  (linear_interpolation 26 10 2 2 == inject_Z 14 + (4 # 3))%Q.
Proof.
  cbv zeta. repeat split.
Qed.

(** *** What [compute_RTT] leaves alone *)

Lemma step1_out st d r : r <> d -> fst (step1 st d) r = fst st r.
Proof.
  intros Hr. destruct st as [h la]. unfold step1. cbn [fst].
  destruct (bget la (negb (sentByClient (h d)))) as [acker|].
  - destruct (seqNb (h d) <? seqNb (h acker)).
    + destruct (ack (assign_RTT h d _ d) >? -1); cbn [fst];
        apply assign_RTT_other; exact Hr.
    + destruct (ack (h d) >? -1); reflexivity.
  - destruct (ack (h d) >? -1); reflexivity.
Qed.

Lemma pass1_out l : forall st r, ~ In r l -> fst (fold_left step1 l st) r = fst st r.
Proof.
  induction l as [|d l IH]; intros st r Hr; simpl; [reflexivity|].
  rewrite IH by (intros H; apply Hr; right; exact H).
  apply step1_out. intros ->. apply Hr. left. reflexivity.
Qed.

Lemma after_step1_out h l r : ~ In r l -> after_step1 h l r = h r.
Proof.
  intros Hr. unfold after_step1, pass1. rewrite pass1_out; [reflexivity|].
  rewrite <- in_rev. exact Hr.
Qed.

(** X1.  [compute_RTT] changes nothing of a datagram that is not in
    [self.datagrams]: such an object is after the call what it was before,
    RTT included. *)
Theorem compute_RTT_leaves_others (h : heap) (datagrams : list ref) (r : ref)
    (Hout : ~ In r datagrams) :
  fst (compute_RTT h datagrams) r = h r.
Proof.
  rewrite compute_RTT_store, pass2_init.
  destruct (pass2_fresh (after_step1 h datagrams) datagrams r Hout) as [Hs He].
  fold (init2 (after_step1 h datagrams)) in Hs, He.
  rewrite finish_out by apply He. rewrite Hs. apply after_step1_out, Hout.
Qed.

Lemma compute_RTT_leaves_others_witness :
  fst (compute_RTT Samples.capture Samples.capture_order) 8%nat
  = Samples.capture 8%nat.
Proof.
  apply compute_RTT_leaves_others. simpl. lia.
Defined.

Lemma matched_kept h l d v :
  NoDup l -> RTT (h d) = Some v -> finish (pass2 h l) d = h d.
Proof.
  intros Hnd Hv. destruct (in_dec Nat.eq_dec d l) as [Hin|Hout].
  - apply in_split in Hin as (l0 & l1 & ->).
    apply NoDup_remove_2 in Hnd.
    assert (H0 : ~ In d l0) by (intros H; apply Hnd, in_or_app; left; exact H).
    assert (H1 : ~ In d l1) by (intros H; apply Hnd, in_or_app; right; exact H).
    rewrite pass2_init, fold_left_app. cbn [fold_left].
    destruct (after_matched h l0 d v H0 Hv) as (Hsorted & _ & Hempty & _).
    etransitivity;
      [exact (settled h _ (sentByClient (h d)) l1 d Hsorted Hempty eq_refl H1)|].
    destruct (pass2_fresh h l0 d H0) as [Hs He].
    fold (init2 h) in Hs, He.
    assert (Hs0 : sorted_by_way h (fold_left step2 l0 (init2 h)))
      by (apply pass2_sorted, sorted_by_way_init).
    assert (Hv0 : RTT (store (fold_left step2 l0 (init2 h)) d) = Some v)
      by (rewrite Hs; exact Hv).
    destruct (step2_set h _ d v Hs0 Hv0 (He _)) as (_ & _ & Hkeep & _).
    rewrite Hkeep by apply He. exact Hs.
  - rewrite pass2_init. destruct (pass2_fresh h l d Hout) as [Hs He].
    fold (init2 h) in Hs, He. rewrite finish_out by apply He. exact Hs.
Qed.

Lemma last_set h l :
  unset h l \/
  exists a x v b, l = a ++ x :: b /\ RTT (h x) = Some v /\ unset h b.
Proof.
  induction l as [|y l [IH|(a & x & v & b & -> & Hx & Hb)]].
  - left. intros r [].
  - destruct (RTT (h y)) as [v|] eqn:Hy.
    + right. exists [], y, v, l. auto.
    + left. intros r [<-|Hr]; [exact Hy | apply IH, Hr].
  - right. exists (y :: a), x, v, b. auto.
Qed.

Lemma first_set h l :
  unset h l \/
  exists a x v b, l = a ++ x :: b /\ RTT (h x) = Some v /\ unset h a.
Proof.
  induction l as [|y l IH].
  - left. intros r [].
  - destruct (RTT (h y)) as [v|] eqn:Hy.
    + right. exists [], y, v, l. split; [reflexivity|]. split; [exact Hy|].
      intros r [].
    + destruct IH as [IH|(a & x & v & b & -> & Hx & Ha)].
      * left. intros r [<-|Hr]; [exact Hy | apply IH, Hr].
      * right. exists (y :: a), x, v, b. split; [reflexivity|].
        split; [exact Hx|]. intros r [<-|Hr]; [exact Hy | apply Ha, Hr].
Qed.

Lemma unset_run h b d c :
  unset h b -> RTT (h d) = None -> unset h c -> unset h (b ++ d :: c).
Proof.
  intros Hb Hd Hc r Hr. apply in_app_or in Hr as [Hr|[<-|Hr]]; auto.
Qed.

Lemma direction_filled h l way m d :
  NoDup l -> In m (way_of h l way) -> RTT (h m) <> None ->
  In d (way_of h l way) -> RTT (finish (pass2 h l) d) <> None.
Proof.
  intros Hnd Hm Hset Hd.
  destruct (RTT (h d)) as [v|] eqn:Hv.
  { rewrite (matched_kept h l d v Hnd Hv), Hv. discriminate. }
  destruct (in_split _ _ Hd) as (pre & post & Hmine).
  destruct (last_set h pre) as [Hpre|(a & x & r0 & b & -> & Hx & Hb)];
    destruct (first_set h post) as [Hpost|(c & y & r1 & e & -> & Hy & Hc)].
  - exfalso. apply Hset. rewrite Hmine in Hm.
    exact (unset_run h pre d post Hpre Hv Hpost m Hm).
  - rewrite (interpolate_leading h l way (pre ++ d :: c) y e r1 Hnd);
      [discriminate | | exact Hy | apply unset_run; assumption
      | apply in_or_app; right; left; reflexivity].
    rewrite Hmine, <- app_assoc. reflexivity.
  - rewrite (interpolate_trailing h l way a x (b ++ d :: post) r0 Hnd);
      [discriminate | | exact Hx | apply unset_run; assumption
      | apply in_or_app; right; left; reflexivity].
    rewrite Hmine, <- app_assoc. reflexivity.
  - rewrite (interpolate_between h l way a x (b ++ d :: c) y e r0 r1 Hnd
               ltac:(rewrite Hmine, <- !app_assoc; reflexivity)
               Hx Hy (unset_run h b d c Hb Hv Hc) (length b) d);
      [discriminate|].
    rewrite nth_error_app2, Nat.sub_diag by apply Nat.le_refl. reflexivity.
Qed.

Lemma after_step1_way h l r :
  sentByClient (after_step1 h l r) = sentByClient (h r).
Proof. apply erase_sentByClient, pass1_frame. Qed.

(** X2.  When the datagrams of the list are distinct objects, an RTT that
    Step 1 of [compute_RTT] has measured is not changed by Step 2: the
    datagram ends with the RTT it had when Step 2 started. *)
Theorem compute_RTT_keeps_matched
    (h0 : heap) (datagrams : list ref) (d : ref) (v : Z)
    (Hdistinct : NoDup datagrams)
    (Hmatched : RTT (after_step1 h0 datagrams d) = Some v) :
  RTT (fst (compute_RTT h0 datagrams) d) = Some v.
Proof.
  rewrite compute_RTT_store, (matched_kept _ _ d v Hdistinct Hmatched).
  exact Hmatched.
Qed.

Lemma compute_RTT_keeps_matched_witness :
  NoDup Samples.capture_order /\
  RTT (fst (compute_RTT Samples.capture Samples.capture_order) 5%nat) = Some 27.
Proof.
  assert (Hnd : NoDup Samples.capture_order) by apply seq_NoDup.
  split; [exact Hnd|].
  apply (compute_RTT_keeps_matched Samples.capture Samples.capture_order
           5%nat 27 Hnd).
  reflexivity.
Defined.

(** X3.  When the datagrams of the list are distinct objects and one
    datagram [m] of the list has an RTT when Step 2 of [compute_RTT] starts,
    every datagram of the list sent in the direction of [m] has an RTT when
    [compute_RTT] returns. *)
Theorem compute_RTT_fills_direction
    (h0 : heap) (datagrams : list ref) (m d : ref)
    (Hdistinct : NoDup datagrams)
    (Hm : In m datagrams)
    (Hmatched : RTT (after_step1 h0 datagrams m) <> None)
    (Hd : In d datagrams)
    (Hway : sentByClient (h0 d) = sentByClient (h0 m)) :
  RTT (fst (compute_RTT h0 datagrams) d) <> None.
Proof.
  rewrite compute_RTT_store.
  apply (direction_filled _ datagrams (sentByClient (h0 m)) m d Hdistinct);
    [|exact Hmatched|]; apply way_of_In; split; try assumption;
    rewrite after_step1_way; [reflexivity | exact Hway].
Qed.

Lemma compute_RTT_fills_direction_witness :
  RTT (fst (compute_RTT Samples.capture Samples.capture_order) 7%nat) <> None.
Proof.
  apply (compute_RTT_fills_direction Samples.capture Samples.capture_order
           5%nat 7%nat).
  - apply seq_NoDup.
  - simpl. tauto.
  - simpl. discriminate.
  - simpl. tauto.
  - reflexivity.
Defined.

Lemma interpolated_between (r0 r1 k i : Z) :
  0 <= i < k ->
  let v := r0 + (1 + i) * ((r1 - r0) / (1 + k)) in
  (r0 <= r1 -> r0 <= v <= r1) /\ (r1 <= r0 -> r1 - k < v <= r0).
Proof.
  intros Hi v. subst v.
  assert (Hn : 0 < 1 + k) by lia.
  pose proof (Z.mul_div_le (r1 - r0) (1 + k) Hn) as Hlo.
  pose proof (Z.mul_succ_div_gt (r1 - r0) (1 + k) Hn) as Hhi.
  set (q := (r1 - r0) / (1 + k)) in *.
  split; intros Hord.
  - assert (0 <= q) by (apply Z.div_pos; lia). nia.
  - assert (q <= 0) by nia. nia.
Qed.

(** X4.  The RTTs that [compute_RTT] interpolates for a run of datagrams
    between two matched RTTs [r0] and [r1] stay between the two when
    [r0 <= r1]; when [r1 <= r0] they are at most [r0] and, because the step
    of the interpolation is rounded down, above [r1] minus the length of the
    run (in microseconds). *)
Theorem interpolation_is_bounded
    (h0 : heap) (datagrams : list ref) (way : bool)
    (before : list ref) (first : ref) (run : list ref) (second : ref)
    (after : list ref) (r0 r1 : Z)
    (Hdistinct : NoDup datagrams)
    (Hrun : way_of (after_step1 h0 datagrams) datagrams way
            = before ++ first :: run ++ second :: after)
    (Hfirst : RTT (after_step1 h0 datagrams first) = Some r0)
    (Hsecond : RTT (after_step1 h0 datagrams second) = Some r1)
    (Hunset : unset (after_step1 h0 datagrams) run) :
  forall d, In d run ->
  exists v,
    RTT (fst (compute_RTT h0 datagrams) d) = Some v /\
    (r0 <= r1 -> r0 <= v <= r1) /\
    (r1 <= r0 -> r1 - Z.of_nat (length run) < v <= r0).
Proof.
  intros d Hd. apply In_nth_error in Hd as (i & Hi).
  rewrite compute_RTT_store.
  rewrite (interpolate_between _ datagrams way before first run second after
             r0 r1 Hdistinct Hrun Hfirst Hsecond Hunset i d Hi).
  eexists. split; [reflexivity|].
  apply interpolated_between.
  assert (i < length run)%nat by (apply nth_error_Some; congruence). lia.
Qed.

Lemma interpolation_is_bounded_witness :
  exists v,
    RTT (fst (compute_RTT Samples.capture Samples.capture_order) 4%nat) = Some v /\
    10 <= v <= 27.
Proof.
  assert (Hnd : NoDup Samples.capture_order)
    by apply seq_NoDup.
  assert (Hunset : unset (after_step1 Samples.capture Samples.capture_order)
                         [3; 4]%nat).
  { intros r [<-|[<-|[]]]; reflexivity. }
  destruct (interpolation_is_bounded Samples.capture Samples.capture_order true
              [0%nat] 1%nat [3; 4]%nat 5%nat [7%nat] 10 27
              Hnd eq_refl eq_refl eq_refl Hunset 4%nat)
    as (v & Hv & Hup & _).
  { right. left. reflexivity. }
  exists v. split; [exact Hv|]. apply Hup. lia.
Defined.

(** *** The sign of the measured RTTs *)

Lemma erase_time d d' :
  with_RTT d' None = with_RTT d None -> time d' = time d.
Proof. intros H. apply erase_unchanged in H. apply H. Qed.

Lemma step1_measures (h : heap) (st : heap * bdict (option ref)) (d : ref) :
  same_frame h (fst st) ->
  let st' := step1 st d in
  (forall way acker, bget (snd st') way = Some acker ->
                     acker = d \/ bget (snd st) way = Some acker) /\
  (forall r v, RTT (fst st' r) = Some v ->
               RTT (fst st r) = Some v \/
               exists way acker, bget (snd st) way = Some acker /\
                                 r = d /\ v = time (h acker) - time (h d)).
Proof.
  destruct st as [hs la]. cbn [fst snd]. intros Hframe. unfold step1.
  set (way := sentByClient (hs d)).
  destruct (bget la (negb way)) as [acker|] eqn:Hacker.
  - destruct (seqNb (hs d) <? seqNb (hs acker)).
    + rewrite assign_RTT_ack, assign_RTT_sentByClient. fold way.
      split.
      * intros w a. destruct (ack (hs d) >? -1); cbn [snd].
        -- destruct (Bool.bool_dec w way) as [->|Hw].
           ++ rewrite bget_bset_same. intros H. injection H as <-. left.
              reflexivity.
           ++ rewrite (bget_bset_other _ _ _ _ Hw).
              rewrite (bool_neq_negb _ _ Hw), bget_bset_same. discriminate.
        -- destruct (Bool.bool_dec w (negb way)) as [->|Hw].
           ++ rewrite bget_bset_same. discriminate.
           ++ rewrite (bget_bset_other _ _ _ _ Hw). auto.
      * intros r v.
        assert (Hgoal :
          RTT (assign_RTT hs d (Some (time (hs acker) - time (hs d))) r)
          = Some v ->
          RTT (hs r) = Some v \/
          exists way0 acker0, bget la way0 = Some acker0 /\
                              r = d /\ v = time (h acker0) - time (h d)).
        { destruct (Nat.eq_dec r d) as [->|Hr].
          - rewrite assign_RTT_same. intros H. injection H as <-. right.
            exists (negb way), acker. split; [exact Hacker|].
            split; [reflexivity|].
            rewrite (erase_time _ _ (Hframe acker)),
                    (erase_time _ _ (Hframe d)). reflexivity.
          - rewrite (assign_RTT_other _ _ _ _ Hr). auto. }
        destruct (ack (hs d) >? -1); cbn [fst]; exact Hgoal.
    + split.
      * intros w a. destruct (ack (hs d) >? -1); cbn [snd]; [|auto].
        destruct (Bool.bool_dec w way) as [->|Hw].
        -- rewrite bget_bset_same. intros H. injection H as <-. auto.
        -- rewrite (bget_bset_other _ _ _ _ Hw). auto.
      * intros r v. destruct (ack (hs d) >? -1); cbn [fst]; auto.
  - split.
    + intros w a. destruct (ack (hs d) >? -1); cbn [snd]; [|auto].
      destruct (Bool.bool_dec w way) as [->|Hw].
      * rewrite bget_bset_same. intros H. injection H as <-. auto.
      * rewrite (bget_bset_other _ _ _ _ Hw). auto.
    + intros r v. destruct (ack (hs d) >? -1); cbn [fst]; auto.
Qed.

Lemma pass1_measures h l :
  chronological h l ->
  let st := fold_left step1 (rev l) (h, mkBdict None None) in
  (forall way acker, bget (snd st) way = Some acker -> In acker l) /\
  (forall r v, RTT (fst st r) = Some v -> RTT (h r) = Some v \/ 0 <= v).
Proof.
  induction l as [|d l IH]; intros Hch.
  - simpl. split; [intros [|] acker; discriminate | auto].
  - inversion Hch as [|? ? Hd Hl]; subst.
    destruct (IH Hl) as [IHa IHr]. clear IH.
    cbn zeta. simpl rev. rewrite fold_left_app. cbn [fold_left].
    set (st := fold_left step1 (rev l) (h, mkBdict None None)) in *.
    assert (Hframe : same_frame h (fst st)) by apply pass1_frame.
    destruct (step1_measures h st d Hframe) as [Ha Hr]. split.
    + intros way acker H. destruct (Ha way acker H) as [->|H'];
        [left; reflexivity | right; exact (IHa way acker H')].
    + intros r v H. destruct (Hr r v H) as [H'|(way & acker & Hw & -> & ->)].
      * exact (IHr r v H').
      * right. pose proof (IHa way acker Hw) as Hin.
        rewrite Forall_forall in Hd. specialize (Hd acker Hin). simpl in Hd.
        lia.
Qed.

(** X5.  When [self.datagrams] is in the order of the timestamps, an RTT
    that Step 1 of [compute_RTT] gives to a datagram that had none is not
    negative. *)
Theorem measured_RTT_nonnegative
    (h : heap) (datagrams : list ref) (d : ref) (v : Z)
    (Horder : chronological h datagrams)
    (Hfresh : RTT (h d) = None)
    (Hmeasured : RTT (after_step1 h datagrams d) = Some v) :
  0 <= v.
Proof.
  destruct (pass1_measures h datagrams Horder) as [_ H].
  destruct (H d v Hmeasured) as [H'|H']; [congruence | exact H'].
Qed.

Lemma measured_RTT_nonnegative_witness :
  chronological Samples.capture Samples.capture_order /\ 0 <= 27.
Proof.
  assert (Hch : chronological Samples.capture Samples.capture_order).
  { unfold chronological, Samples.capture_order. simpl seq.
    repeat (constructor; [repeat (constructor; [simpl; lia|]); constructor|]).
    constructor. }
  split; [exact Hch|].
  apply (measured_RTT_nonnegative Samples.capture Samples.capture_order
           5%nat 27 Hch); reflexivity.
Defined.

(** *** A second run of [compute_RTT] *)

Lemma finish_frame st : same_frame (store st) (finish st).
Proof.
  unfold finish. cbn [fold_left].
  eapply same_frame_trans; apply step3_frame.
Qed.

Lemma same_frame_sym h h' : same_frame h h' -> same_frame h' h.
Proof. intros H r. symmetry. apply H. Qed.

Lemma frame_RTT_eq d d' :
  with_RTT d' None = with_RTT d None -> RTT d' = RTT d -> d' = d.
Proof.
  destruct d, d'. unfold with_RTT. simpl. intros H ->.
  injection H as -> -> -> -> -> ->. reflexivity.
Qed.

Lemma all_or_nothing h l way :
  NoDup l ->
  (forall d, In d (way_of h l way) -> RTT (finish (pass2 h l) d) <> None) \/
  (forall d, In d (way_of h l way) -> RTT (finish (pass2 h l) d) = None).
Proof.
  intros Hnd.
  destruct (last_set h (way_of h l way)) as [Hun|(a & x & v & b & Hl & Hx & _)].
  - right. apply interpolate_none, Hun.
  - left. intros d Hd. apply (direction_filled h l way x d Hnd); try assumption.
    + rewrite Hl. apply in_or_app. right. left. reflexivity.
    + congruence.
Qed.

(** Step 1 run on two stores that hold the same objects up to their RTTs. *)
Lemma step1_twice (h h' : heap) (la : bdict (option ref)) (d : ref) :
  same_frame h h' ->
  snd (step1 (h', la) d) = snd (step1 (h, la) d) /\
  forall r,
    (RTT (fst (step1 (h, la) d) r) = RTT (h r) /\
     RTT (fst (step1 (h', la) d) r) = RTT (h' r)) \/
    (exists v, RTT (fst (step1 (h, la) d) r) = Some v /\
               RTT (fst (step1 (h', la) d) r) = Some v).
Proof.
  intros Hframe.
  assert (Hs : forall r, sentByClient (h' r) = sentByClient (h r))
    by (intros r; apply (erase_unchanged _ _ (Hframe r))).
  assert (Hq : forall r, seqNb (h' r) = seqNb (h r))
    by (intros r; apply (erase_unchanged _ _ (Hframe r))).
  assert (Ht : forall r, time (h' r) = time (h r))
    by (intros r; apply (erase_unchanged _ _ (Hframe r))).
  assert (Ha : forall r, ack (h' r) = ack (h r))
    by (intros r; apply (erase_unchanged _ _ (Hframe r))).
  unfold step1. rewrite !Hs.
  destruct (bget la (negb (sentByClient (h d)))) as [acker|].
  - rewrite !Hq. destruct (seqNb (h d) <? seqNb (h acker)).
    + rewrite !assign_RTT_ack, !assign_RTT_sentByClient, !Ha, !Hs, !Ht.
      split.
      * destruct (ack (h d) >? -1); reflexivity.
      * intros r.
        assert (Hgoal :
          (RTT (assign_RTT h d (Some (time (h acker) - time (h d))) r)
           = RTT (h r) /\
           RTT (assign_RTT h' d (Some (time (h acker) - time (h d))) r)
           = RTT (h' r)) \/
          (exists v,
              RTT (assign_RTT h d (Some (time (h acker) - time (h d))) r)
              = Some v /\
              RTT (assign_RTT h' d (Some (time (h acker) - time (h d))) r)
              = Some v)).
        { destruct (Nat.eq_dec r d) as [->|Hr].
          - right. rewrite !assign_RTT_same. eexists. split; reflexivity.
          - left. rewrite !(assign_RTT_other _ _ _ _ Hr). auto. }
        destruct (ack (h d) >? -1); cbn [fst]; exact Hgoal.
    + rewrite !Ha, !Hs. split; [destruct (ack (h d) >? -1); reflexivity|].
      intros r. left. destruct (ack (h d) >? -1); cbn [fst]; auto.
  - rewrite !Ha, !Hs. split; [destruct (ack (h d) >? -1); reflexivity|].
    intros r. left. destruct (ack (h d) >? -1); cbn [fst]; auto.
Qed.

Lemma pass1_twice (h h' : heap) l : forall st st',
  snd st' = snd st -> same_frame (fst st) (fst st') ->
  (forall r,
      (RTT (fst st r) = RTT (h r) /\ RTT (fst st' r) = RTT (h' r)) \/
      (exists v, RTT (fst st r) = Some v /\ RTT (fst st' r) = Some v)) ->
  forall r,
    (RTT (fst (fold_left step1 l st) r) = RTT (h r) /\
     RTT (fst (fold_left step1 l st') r) = RTT (h' r)) \/
    (exists v, RTT (fst (fold_left step1 l st) r) = Some v /\
               RTT (fst (fold_left step1 l st') r) = Some v).
Proof.
  induction l as [|d l IH]; intros st st' Hla Hframe Hinv; [exact Hinv|].
  cbn [fold_left]. destruct st as [hs la], st' as [hs' la'].
  cbn [fst snd] in *. subst la'.
  destruct (step1_twice hs hs' la d Hframe) as [Hsnd Hrel].
  apply IH.
  - exact Hsnd.
  - eapply same_frame_trans; [apply same_frame_sym, step1_frame|].
    eapply same_frame_trans; [exact Hframe|]. apply (step1_frame (hs', la) d).
  - intros r. destruct (Hrel r) as [[H1 H2]|H]; [|right; exact H].
    destruct (Hinv r) as [[H3 H4]|(v & H3 & H4)].
    + left. split; congruence.
    + right. exists v. split; congruence.
Qed.

Lemma compute_RTT_frame h l : same_frame h (fst (compute_RTT h l)).
Proof.
  rewrite compute_RTT_store.
  eapply same_frame_trans; [apply (pass1_frame h (rev l))|].
  eapply same_frame_trans; [apply pass2_frame | apply finish_frame].
Qed.

Lemma compute_RTT_list h l : snd (compute_RTT h l) = l.
Proof.
  unfold compute_RTT. destruct (pass1 h (rev l)) as [h1 la]. simpl.
  apply rev_involutive.
Qed.

Lemma settled_store h l :
  NoDup l ->
  (forall way,
      (forall d, In d (way_of h l way) -> RTT (h d) <> None) \/
      (forall d, In d (way_of h l way) -> RTT (h d) = None)) ->
  forall r, finish (pass2 h l) r = h r.
Proof.
  intros Hnd Hways r.
  destruct (RTT (h r)) as [v|] eqn:Hv.
  { apply (matched_kept h l r v Hnd Hv). }
  apply frame_RTT_eq.
  - exact (same_frame_trans _ _ _ (pass2_frame h l) (finish_frame _) r).
  - rewrite Hv. destruct (in_dec Nat.eq_dec r l) as [Hin|Hout].
    + assert (Hr : In r (way_of h l (sentByClient (h r))))
        by (apply way_of_In; auto).
      destruct (Hways (sentByClient (h r))) as [Hall|Hnone].
      * exfalso. exact (Hall r Hr Hv).
      * apply (interpolate_none h l (sentByClient (h r)) Hnone r Hr).
    + rewrite pass2_init. destruct (pass2_fresh h l r Hout) as [Hs He].
      fold (init2 h) in Hs, He. rewrite finish_out by apply He.
      rewrite Hs. exact Hv.
Qed.

(** X6.  [compute_RTT] is idempotent on a list of distinct datagrams: a
    second call leaves every datagram, RTT included, as the first call left
    it. *)
Theorem compute_RTT_idempotent
    (h : heap) (datagrams : list ref) (Hdistinct : NoDup datagrams) :
  let h' := fst (compute_RTT h datagrams) in
  forall r, fst (compute_RTT h' datagrams) r = h' r.
Proof.
  intros h1.
  assert (Hframe1 : same_frame h h1) by apply compute_RTT_frame.
  (* Step 1 of the second run measures what the first run measured. *)
  assert (Hsame : forall r, after_step1 h1 datagrams r = h1 r).
  { intros r. apply frame_RTT_eq.
    - apply (pass1_frame h1 (rev datagrams)).
    - destruct (pass1_twice h h1 (rev datagrams)
                  (h, mkBdict None None) (h1, mkBdict None None)
                  eq_refl Hframe1
                  (fun r => or_introl (conj eq_refl eq_refl)) r)
        as [[_ H]|(v & H0 & H1)].
      + exact H.
      + unfold after_step1, pass1. rewrite H1. symmetry.
        unfold h1. rewrite compute_RTT_store.
        rewrite (matched_kept (after_step1 h datagrams) datagrams r v
                   Hdistinct H0).
        exact H0. }
  intros r. rewrite compute_RTT_store, <- Hsame.
  apply settled_store; [exact Hdistinct|].
  intros way.
  assert (Hway : way_of (after_step1 h1 datagrams) datagrams way
                 = way_of (after_step1 h datagrams) datagrams way).
  { unfold way_of. apply filter_ext. intros x.
    rewrite !after_step1_way.
    rewrite (erase_sentByClient _ _ (Hframe1 x)). reflexivity. }
  rewrite Hway.
  destruct (all_or_nothing (after_step1 h datagrams) datagrams way Hdistinct)
    as [H|H]; [left|right]; intros d Hd; rewrite Hsame;
    unfold h1; rewrite compute_RTT_store; apply H, Hd.
Qed.

Lemma compute_RTT_idempotent_witness :
  NoDup Samples.capture_order /\
  fst (compute_RTT (fst (compute_RTT Samples.capture Samples.capture_order))
                   Samples.capture_order) 3%nat
  = fst (compute_RTT Samples.capture Samples.capture_order) 3%nat.
Proof.
  assert (Hnd : NoDup Samples.capture_order) by apply seq_NoDup.
  split; [exact Hnd|].
  apply (compute_RTT_idempotent Samples.capture Samples.capture_order Hnd).
Defined.

(** *** The totals of [Connection.__init__] *)

Lemma zsum_cons x l : zsum (x :: l) = x + zsum l.
Proof. unfold zsum. rewrite !fold_left_add_0. reflexivity. Qed.

Lemma zsum_split {A : Type} (f : A -> Z) (way : A -> bool) (l : list A) :
  zsum (map f (filter way l)) + zsum (map f (filter (fun p => negb (way p)) l))
  = zsum (map f l).
Proof.
  induction l as [|p l IH]; [reflexivity|]. cbn [filter map].
  destruct (way p); cbn [negb map]; rewrite !zsum_cons; lia.
Qed.

Lemma zsum_ones {A : Type} (l : list A) :
  zsum (map (fun _ => 1) l) = Z.of_nat (length l).
Proof.
  induction l as [|p l IH]; [reflexivity|]. cbn [map length].
  rewrite zsum_cons, IH. lia.
Qed.

Lemma zsum_frame (f : Datagram -> Z) (sel : bool -> bool) (h h' : heap)
      (l : list ref) :
  same_frame h h' ->
  (forall d d', with_RTT d' None = with_RTT d None -> f d' = f d) ->
  zsum (map f (filter (fun p => sel (sentByClient p)) (map h' l)))
  = zsum (map f (filter (fun p => sel (sentByClient p)) (map h l))).
Proof.
  intros Hframe Hf. induction l as [|r l IH]; [reflexivity|]. cbn [map filter].
  rewrite (erase_sentByClient _ _ (Hframe r)).
  destruct (sel (sentByClient (h r))); [|exact IH].
  cbn [map]. rewrite !zsum_cons, IH, (Hf _ _ (Hframe r)). reflexivity.
Qed.

(** X7.  The totals that [Connection.__init__] computes split the
    datagrams between the two directions: the two numbers of datagrams add
    up to [len(self.datagrams)] and the two lengths to the sum of the
    [totalLen]s.  The four totals are still those of [self.datagrams] after
    [compute_RTT], which changes neither the list nor a direction nor a
    length. *)
Theorem totals_partition_and_survive (h : heap) (datagrams : list ref) :
  let before := objects h datagrams in
  let after := objects (fst (compute_RTT h datagrams))
                       (snd (compute_RTT h datagrams)) in
  clientSentNbDatagrams before + serverSentNbDatagrams before
  = Z.of_nat (length datagrams) /\
  clientSentLen before + serverSentLen before = zsum (map totalLen before) /\
  clientSentNbDatagrams after = clientSentNbDatagrams before /\
  serverSentNbDatagrams after = serverSentNbDatagrams before /\
  clientSentLen after = clientSentLen before /\
  serverSentLen after = serverSentLen before.
Proof.
  intros before after. subst before after. rewrite compute_RTT_list.
  pose proof (compute_RTT_frame h datagrams) as Hframe.
  unfold clientSentNbDatagrams, serverSentNbDatagrams, clientSentLen,
    serverSentLen, objects.
  split; [|split; [|split; [|split; [|split]]]].
  - rewrite (zsum_split (fun _ => 1) sentByClient), zsum_ones, length_map.
    reflexivity.
  - apply (zsum_split totalLen sentByClient).
  - apply (zsum_frame (fun _ => 1) (fun b => b) h _ datagrams Hframe).
    reflexivity.
  - apply (zsum_frame (fun _ => 1) negb h _ datagrams Hframe). reflexivity.
  - apply (zsum_frame totalLen (fun b => b) h _ datagrams Hframe).
    intros d d' H. apply (erase_unchanged _ _ H).
  - apply (zsum_frame totalLen negb h _ datagrams Hframe).
    intros d d' H. apply (erase_unchanged _ _ H).
Qed.

(** *** The acker behind a measured RTT *)

Lemma step1_match (h : heap) (st : heap * bdict (option ref)) (d : ref) :
  same_frame h (fst st) ->
  (forall way acker, bget (snd st) way = Some acker ->
                     sentByClient (h acker) = way /\ -1 < ack (h acker)) ->
  let st' := step1 st d in
  (forall way acker, bget (snd st') way = Some acker ->
     (acker = d \/ bget (snd st) way = Some acker) /\
     sentByClient (h acker) = way /\ -1 < ack (h acker)) /\
  (forall r v, RTT (fst st' r) = Some v ->
               RTT (fst st r) = Some v \/
               exists way acker, bget (snd st) way = Some acker /\
                                 r = d /\ measures h acker d /\
                                 v = time (h acker) - time (h d)).
Proof.
  destruct st as [hs la]. cbn [fst snd]. intros Hframe Hla. unfold step1.
  assert (Hs : forall r, sentByClient (hs r) = sentByClient (h r))
    by (intros r; apply (erase_unchanged _ _ (Hframe r))).
  assert (Hq : forall r, seqNb (hs r) = seqNb (h r))
    by (intros r; apply (erase_unchanged _ _ (Hframe r))).
  assert (Ht : forall r, time (hs r) = time (h r))
    by (intros r; apply (erase_unchanged _ _ (Hframe r))).
  assert (Ha : forall r, ack (hs r) = ack (h r))
    by (intros r; apply (erase_unchanged _ _ (Hframe r))).
  rewrite !Hs. set (way := sentByClient (h d)).
  assert (Hset : forall la0 : bdict (option ref),
    (forall w a, bget la0 w = Some a ->
       (a = d \/ bget la w = Some a) /\
       sentByClient (h a) = w /\ -1 < ack (h a)) ->
    forall w a,
      bget (if ack (h d) >? -1 then bset la0 way (Some d) else la0) w = Some a ->
      (a = d \/ bget la w = Some a) /\ sentByClient (h a) = w /\ -1 < ack (h a)).
  { intros la0 H0 w a. destruct (Z.gtb_spec (ack (h d)) (-1)) as [Hack|Hack];
      [|apply H0].
    destruct (Bool.bool_dec w way) as [->|Hw].
    - rewrite bget_bset_same. intros H. injection H as <-.
      split; [left; reflexivity|]. split; [reflexivity | exact Hack].
    - rewrite (bget_bset_other _ _ _ _ Hw). apply H0. }
  assert (Hkeep : forall w a, bget la w = Some a ->
            (a = d \/ bget la w = Some a) /\
            sentByClient (h a) = w /\ -1 < ack (h a)).
  { intros w a H. split; [right; exact H | apply Hla, H]. }
  destruct (bget la (negb way)) as [acker|] eqn:Hacker.
  - rewrite !Hq. destruct (Z.ltb_spec (seqNb (h d)) (seqNb (h acker))) as [Hlt|Hge].
    + rewrite assign_RTT_ack, assign_RTT_sentByClient, !Ha, !Hs, !Ht.
      fold way. split.
      * intros w a H.
        assert (H' : bget (if ack (h d) >? -1
                           then bset (bset la (negb way) None) way (Some d)
                           else bset la (negb way) None) w = Some a).
        { destruct (ack (h d) >? -1); exact H. }
        apply (Hset (bset la (negb way) None)); [|exact H'].
        intros w0 a0. destruct (Bool.bool_dec w0 (negb way)) as [->|Hw0].
        -- rewrite bget_bset_same. discriminate.
        -- rewrite (bget_bset_other _ _ _ _ Hw0). apply Hkeep.
      * intros r v H.
        assert (H' : RTT (assign_RTT hs d (Some (time (h acker) - time (h d))) r)
                     = Some v)
          by (destruct (ack (h d) >? -1); exact H).
        destruct (Nat.eq_dec r d) as [->|Hr].
        -- rewrite assign_RTT_same in H'. injection H' as <-. right.
           exists (negb way), acker. split; [exact Hacker|].
           split; [reflexivity|]. split; [|reflexivity].
           destruct (Hla _ _ Hacker) as [H1 H2].
           split; [exact H1|]. split; [exact H2 | exact Hlt].
        -- rewrite (assign_RTT_other _ _ _ _ Hr) in H'. left. exact H'.
    + rewrite !Ha, !Hs. fold way. split.
      * intros w a H. apply (Hset la Hkeep).
        destruct (ack (h d) >? -1); exact H.
      * intros r v H. left. destruct (ack (h d) >? -1); exact H.
  - rewrite !Ha, !Hs. fold way. split.
    + intros w a H. apply (Hset la Hkeep).
      destruct (ack (h d) >? -1); exact H.
    + intros r v H. left. destruct (ack (h d) >? -1); exact H.
Qed.

Lemma pass1_match h l :
  let st := fold_left step1 (rev l) (h, mkBdict None None) in
  (forall way acker, bget (snd st) way = Some acker ->
     In acker l /\ sentByClient (h acker) = way /\ -1 < ack (h acker)) /\
  (forall r v, RTT (fst st r) = Some v ->
     RTT (h r) = Some v \/
     exists before after acker,
       l = before ++ r :: after /\ In acker after /\ measures h acker r /\
       v = time (h acker) - time (h r)).
Proof.
  induction l as [|d l [IHa IHr]].
  - simpl. split; [intros [|] acker; discriminate | auto].
  - cbn zeta. simpl rev. rewrite fold_left_app. cbn [fold_left].
    set (st := fold_left step1 (rev l) (h, mkBdict None None)) in *.
    assert (Hframe : same_frame h (fst st)) by apply pass1_frame.
    destruct (step1_match h st d Hframe) as [Ha Hr].
    { intros way acker H. apply IHa, H. }
    split.
    + intros way acker H. destruct (Ha way acker H) as ([->|H'] & H1 & H2).
      * split; [left; reflexivity | auto].
      * split; [right; apply (IHa way acker H') | auto].
    + intros r v H.
      destruct (Hr r v H) as [H'|(way & acker & Hw & -> & Hm & ->)].
      * destruct (IHr r v H')
          as [Hold|(before & after & acker & -> & Hin & Hm & ->)];
          [left; exact Hold|].
        right. exists (d :: before), after, acker. auto.
      * right. exists [], l, acker. split; [reflexivity|].
        split; [apply (IHa way acker Hw) | auto].
Qed.

(** X27.  An RTT that Step 1 of [compute_RTT] gives to a datagram that had
    none is the time of a datagram that comes later in [self.datagrams]
    minus its own time; that later datagram was sent in the other
    direction, carries an acknowledgment ([ack > -1]) and has a greater
    sequence number. *)
Theorem measured_RTT_has_acker
    (h : heap) (datagrams : list ref) (d : ref) (v : Z)
    (Hfresh : RTT (h d) = None)
    (Hmeasured : RTT (after_step1 h datagrams d) = Some v) :
  exists before after acker,
    datagrams = before ++ d :: after /\ In acker after /\
    sentByClient (h acker) = negb (sentByClient (h d)) /\
    -1 < ack (h acker) /\ seqNb (h d) < seqNb (h acker) /\
    v = time (h acker) - time (h d).
Proof.
  destruct (pass1_match h datagrams) as [_ H].
  destruct (H d v Hmeasured)
    as [H'|(before & after & acker & Hl & Hin & (H1 & H2 & H3) & Hv)];
    [congruence|].
  exists before, after, acker. auto 10.
Qed.

Lemma measured_RTT_has_acker_witness :
  exists before after acker,
    Samples.capture_order = before ++ 5%nat :: after /\ In acker after /\
    27 = time (Samples.capture acker) - time (Samples.capture 5%nat).
Proof.
  destruct (measured_RTT_has_acker Samples.capture Samples.capture_order
              5%nat 27 eq_refl eq_refl)
    as (before & after & acker & Hl & Hin & _ & _ & _ & Hv).
  exists before, after, acker. auto.
Defined.

(** *** One measure for each acknowledgment *)

Lemma with_an_RTT_ext h h' l :
  (forall r, In r l -> RTT (h' r) = RTT (h r)) ->
  with_an_RTT h' l = with_an_RTT h l.
Proof.
  intros H. unfold with_an_RTT. induction l as [|x l IH]; [reflexivity|].
  cbn [filter]. rewrite (H x (or_introl eq_refl)), IH; [reflexivity|].
  intros r Hr. apply H. right. exact Hr.
Qed.

Lemma pending_set la way d : (pending (bset la way (Some d)) <= S (pending la))%nat.
Proof.
  destruct la as [[t|] [f|]], way; unfold pending; simpl; lia.
Qed.

Lemma pending_unset la way a :
  bget la way = Some a -> S (pending (bset la way None)) = pending la.
Proof.
  destruct la as [[t|] [f|]], way; unfold pending; simpl;
    intros H; try discriminate; reflexivity.
Qed.

Lemma step1_counts (h : heap) (st : heap * bdict (option ref)) (d : ref) :
  same_frame h (fst st) -> RTT (fst st d) = None ->
  let st' := step1 st d in
  (length (with_an_RTT (fst st') [d]) + pending (snd st')
   <= pending (snd st) + length (acking h [d]))%nat.
Proof.
  destruct st as [hs la]. cbn [fst snd]. intros Hframe Hnone.
  unfold step1, with_an_RTT, acking. cbn [filter].
  assert (Ha : ack (hs d) = ack (h d))
    by apply (erase_unchanged _ _ (Hframe d)).
  destruct (bget la (negb (sentByClient (hs d)))) as [acker|] eqn:Hacker.
  - destruct (seqNb (hs d) <? seqNb (hs acker)).
    + rewrite assign_RTT_ack, assign_RTT_sentByClient, Ha.
      pose proof (pending_unset la _ acker Hacker) as Hp.
      destruct (ack (h d) >? -1); cbn [fst snd]; rewrite assign_RTT_same.
      * pose proof (pending_set (bset la (negb (sentByClient (hs d))) None)
                                (sentByClient (hs d)) d).
        cbn [length]. lia.
      * cbn [length]. lia.
    + rewrite Ha. destruct (ack (h d) >? -1); cbn [fst snd]; rewrite Hnone.
      * pose proof (pending_set la (sentByClient (hs d)) d).
        cbn [length]. lia.
      * cbn [length]. lia.
  - rewrite Ha. destruct (ack (h d) >? -1); cbn [fst snd]; rewrite Hnone.
    + pose proof (pending_set la (sentByClient (hs d)) d). cbn [length]. lia.
    + cbn [length]. lia.
Qed.

Lemma filter_cons_length {A : Type} (f : A -> bool) (x : A) (l : list A) :
  length (filter f (x :: l)) = (length (filter f [x]) + length (filter f l))%nat.
Proof. cbn [filter]. destruct (f x); reflexivity. Qed.

Lemma pass1_counts h l :
  NoDup l -> unset h l ->
  let st := fold_left step1 (rev l) (h, mkBdict None None) in
  (length (with_an_RTT (fst st) l) + pending (snd st)
   <= length (acking h l))%nat.
Proof.
  induction l as [|d l IH]; intros Hnd Hfresh; [simpl; unfold pending; simpl; lia|].
  apply NoDup_cons_iff in Hnd as [Hd Hnd].
  assert (Hfresh' : unset h l) by (intros r Hr; apply Hfresh; right; exact Hr).
  specialize (IH Hnd Hfresh'). cbn zeta in *.
  simpl rev. rewrite fold_left_app. cbn [fold_left].
  set (st := fold_left step1 (rev l) (h, mkBdict None None)) in *.
  assert (Hframe : same_frame h (fst st)) by apply pass1_frame.
  assert (Hnone : RTT (fst st d) = None).
  { unfold st. rewrite pass1_out by (rewrite <- in_rev; exact Hd).
    apply Hfresh. left. reflexivity. }
  pose proof (step1_counts h st d Hframe Hnone) as Hstep. cbn zeta in Hstep.
  assert (Hrest : with_an_RTT (fst (step1 st d)) l = with_an_RTT (fst st) l).
  { apply with_an_RTT_ext. intros r Hr. rewrite step1_out; [reflexivity|].
    intros ->. contradiction. }
  unfold with_an_RTT at 1. rewrite filter_cons_length.
  fold (with_an_RTT (fst (step1 st d)) [d]).
  fold (with_an_RTT (fst (step1 st d)) l). rewrite Hrest.
  unfold acking at 1. rewrite filter_cons_length.
  fold (acking h [d]). fold (acking h l). lia.
Qed.

(** X28.  On a list of distinct datagrams without RTT, Step 1 of
    [compute_RTT] measures at most as many RTTs as there are datagrams that
    carry an acknowledgment ([ack > -1]): an acknowledgment measures one
    datagram at most. *)
Theorem one_measure_per_ack
    (h : heap) (datagrams : list ref)
    (Hdistinct : NoDup datagrams) (Hfresh : unset h datagrams) :
  (length (with_an_RTT (after_step1 h datagrams) datagrams)
   <= length (acking h datagrams))%nat.
Proof.
  pose proof (pass1_counts h datagrams Hdistinct Hfresh) as H.
  cbn zeta in H. unfold after_step1, pass1. lia.
Qed.

Lemma one_measure_per_ack_witness :
  (length (with_an_RTT (after_step1 Samples.capture Samples.capture_order)
                       Samples.capture_order) <= 2)%nat.
Proof.
  apply (one_measure_per_ack Samples.capture Samples.capture_order).
  - apply seq_NoDup.
  - intros r Hr. simpl in Hr.
    repeat (destruct Hr as [<-|Hr]; [reflexivity|]). destruct Hr.
Defined.

End RTTEstimator.

(** ** The connection-type classifier *)

Module Classifier.

Import ConnectionType.

(** *** Sums and rationals *)

Lemma zsum_payload (by_client : bool) (ds : list Datagram) :
  zsum (map payload_len
            (filter (fun p => Bool.eqb (sent_by_client p) by_client) ds))
  = payload_bytes by_client ds.
Proof.
  unfold zsum. rewrite fold_left_add. simpl.
  induction ds as [|p ds IH]; simpl; [reflexivity|].
  destruct (Bool.eqb (sent_by_client p) by_client); simpl; rewrite IH;
    reflexivity.
Qed.

Lemma client_sent_bytes ds : client_sent ds = inject_Z (payload_bytes true ds).
Proof.
  unfold client_sent. rewrite <- zsum_payload. do 3 f_equal.
  apply filter_ext. intros p. destruct (sent_by_client p); reflexivity.
Qed.

Lemma server_sent_bytes ds : server_sent ds = inject_Z (payload_bytes false ds).
Proof.
  unfold server_sent. rewrite <- zsum_payload. reflexivity.
Qed.

Lemma payload_bytes_nonneg by_client ds :
  well_formed ds -> 0 <= payload_bytes by_client ds.
Proof.
  induction 1 as [|p ds Hp _ IH]; simpl; [lia|].
  destruct (Bool.eqb (sent_by_client p) by_client); lia.
Qed.

Lemma Qeq_bool_inject_Z (n : Z) : Qeq_bool (inject_Z n) 0 = (n =? 0).
Proof.
  unfold Qeq_bool, inject_Z. simpl. rewrite Z.mul_1_r. reflexivity.
Qed.

Lemma fle_iff (a b : Q) : fle a b = true <-> (a <= b)%Q.
Proof. apply Qle_bool_iff. Qed.

Lemma flt_iff (a b : Q) : flt a b = true <-> (a < b)%Q.
Proof.
  unfold flt. rewrite Bool.negb_true_iff. split.
  - intros H. apply Qnot_le_lt. intros Hle.
    apply Qle_bool_iff in Hle. congruence.
  - intros H. destruct (Qle_bool b a) eqn:E; [|reflexivity].
    apply Qle_bool_iff in E. exfalso. exact (Qlt_not_le _ _ H E).
Qed.

Lemma fle_false_iff (a b : Q) : fle a b = false <-> (b < a)%Q.
Proof.
  rewrite <- flt_iff. unfold flt, fle. rewrite Bool.negb_true_iff. reflexivity.
Qed.

Lemma flt_false_iff (a b : Q) : flt a b = false <-> (b <= a)%Q.
Proof.
  rewrite <- fle_iff. unfold flt, fle. rewrite Bool.negb_false_iff. reflexivity.
Qed.

(** *** The asymmetry ratio *)

(** C7.  On a connection whose payload lengths are not negative,
    [compute_asymetry] does not raise; the ratio it computes is
    [server / (server + client)], where [server] and [client] are the
    payload bytes sent by the server and by the client, and it is 0
    whenever the total number of payload bytes is zero. *)
Theorem compute_asymetry_guarded
    (datagrams : list Datagram) (Hwf : well_formed datagrams) :
  let server := payload_bytes false datagrams in
  let client := payload_bytes true datagrams in
  exists ratio,
    compute_asymetry datagrams = Ok ratio /\
    (server + client = 0 -> (ratio == 0)%Q) /\
    (server + client <> 0 ->
     (ratio == inject_Z server / inject_Z (server + client))%Q).
Proof.
  intros server client.
  pose proof (payload_bytes_nonneg false datagrams Hwf) as Hs.
  pose proof (payload_bytes_nonneg true datagrams Hwf) as Hc.
  fold server in Hs. fold client in Hc.
  unfold compute_asymetry.
  rewrite server_sent_bytes, client_sent_bytes. fold server client.
  rewrite Qeq_bool_inject_Z.
  destruct (Z.eqb_spec server 0) as [Hz|Hnz].
  - exists 0%Q. split; [reflexivity|]. split; [reflexivity|].
    intros _. rewrite Hz. unfold Qdiv. rewrite Qmult_0_l. reflexivity.
  - unfold fdiv. rewrite <- inject_Z_plus, Qeq_bool_inject_Z.
    destruct (Z.eqb_spec (server + client) 0) as [Hz|_]; [lia|].
    eexists. split; [reflexivity|]. split; [lia|]. intros _. reflexivity.
Qed.

Lemma compute_asymetry_guarded_witness :
  well_formed Samples.session /\
  exists ratio,
    compute_asymetry Samples.session = Ok ratio /\ (ratio == 6 # 10)%Q.
Proof.
  assert (Hwf : well_formed Samples.session)
    by (repeat constructor; simpl; lia).
  split; [exact Hwf|].
  destruct (compute_asymetry_guarded Samples.session Hwf)
    as (ratio & Hr & _ & Hnz).
  exists ratio. split; [exact Hr|]. rewrite Hnz; [reflexivity|].
  simpl. lia.
Defined.

(** *** The decision *)

Lemma analyse_unfold datagrams ratio :
  compute_asymetry datagrams = Ok ratio ->
  analyse datagrams
  = if flt (1 # 2) ratio then
      if fle scp_up_min_asymetry ratio
      then Ok "scp (down)"%string else reply_analysis datagrams
    else
      if fle ratio scp_down_max_asymetry
      then Ok "scp (up)"%string else reply_analysis datagrams.
Proof. intros H. unfold analyse. rewrite H. reflexivity. Qed.

Lemma decide_labels time_to_reply ways : forall label,
  decide time_to_reply ways = Ok label ->
  label = "shell"%string \/ label = "reverse shell"%string
  \/ label = "tunnel"%string.
Proof.
  induction ways as [|way ways IH]; intros label H; simpl in H.
  - injection H as <-. auto.
  - destruct (bget time_to_reply way) as [|t l]; [apply IH, H|].
    destruct (fdiv _ _) as [ratio|e]; simpl in H; [|discriminate].
    destruct (fle _ ratio); [|apply IH, H].
    injection H as <-. destruct way; simpl; auto.
Qed.

Lemma reply_analysis_labels datagrams label :
  reply_analysis datagrams = Ok label ->
  label = "shell"%string \/ label = "reverse shell"%string
  \/ label = "tunnel"%string.
Proof.
  unfold reply_analysis.
  destruct (compute_time_to_reply datagrams) as [ttr|e]; cbn [rbind];
    [apply decide_labels | discriminate].
Qed.

Lemma reply_analysis_not_scp datagrams :
  reply_analysis datagrams <> Ok "scp (down)"%string /\
  reply_analysis datagrams <> Ok "scp (up)"%string.
Proof.
  split; intros H; apply reply_analysis_labels in H;
    destruct H as [H|[H|H]]; discriminate.
Qed.

Ltac order_clash :=
  match goal with
  | H1 : (?a < ?b)%Q, H2 : (?b <= ?a)%Q |- _ =>
      exfalso; exact (Qlt_not_le _ _ H1 H2)
  end.

(** C8.  With [ratio] the asymmetry ratio of the connection, [analyse]
    answers ['scp (down)'] exactly when [ratio > 0.5] and [ratio >= 0.95],
    and ['scp (up)'] exactly when [ratio <= 0.5] and [ratio <= 0.05]; for a
    ratio strictly between 0.05 and 0.95 it answers what the reply-latency
    analysis answers. *)
Theorem scp_step
    (datagrams : list Datagram) (ratio : Q)
    (Hratio : compute_asymetry datagrams = Ok ratio) :
  (analyse datagrams = Ok "scp (down)"%string
   <-> (1 # 2 < ratio)%Q /\ (95 # 100 <= ratio)%Q) /\
  (analyse datagrams = Ok "scp (up)"%string
   <-> (ratio <= 1 # 2)%Q /\ (ratio <= 5 # 100)%Q) /\
  ((5 # 100 < ratio)%Q /\ (ratio < 95 # 100)%Q ->
   analyse datagrams = reply_analysis datagrams).
Proof.
  rewrite (analyse_unfold datagrams ratio Hratio).
  unfold scp_up_min_asymetry, scp_down_max_asymetry.
  destruct (reply_analysis_not_scp datagrams) as [Hdown Hup].
  destruct (flt (1 # 2) ratio) eqn:E1.
  - apply flt_iff in E1. destruct (fle (95 # 100) ratio) eqn:E2.
    + apply fle_iff in E2. repeat split; auto; try discriminate;
        try (intros [H1 H2]; order_clash).
    + apply fle_false_iff in E2. repeat split; auto; try contradiction;
        try (intros [H1 H2]; order_clash).
  - apply flt_false_iff in E1. destruct (fle ratio (5 # 100)) eqn:E2.
    + apply fle_iff in E2. repeat split; auto; try discriminate;
        try (intros [H1 H2]; order_clash).
    + apply fle_false_iff in E2. repeat split; auto; try contradiction;
        try (intros [H1 H2]; order_clash).
Qed.

Lemma scp_step_witness :
  exists ratio,
    compute_asymetry Samples.session = Ok ratio /\
    analyse Samples.session = reply_analysis Samples.session.
Proof.
  eexists. split; [reflexivity|].
  apply (scp_step Samples.session _ eq_refl).
  split; reflexivity.
Defined.

(** *** The reply-latency analysis *)

Lemma asymetry_total datagrams :
  well_formed datagrams -> exists ratio, compute_asymetry datagrams = Ok ratio.
Proof.
  intros Hwf.
  pose proof (payload_bytes_nonneg false datagrams Hwf) as Hs.
  pose proof (payload_bytes_nonneg true datagrams Hwf) as Hc.
  unfold compute_asymetry.
  rewrite server_sent_bytes, client_sent_bytes, Qeq_bool_inject_Z.
  destruct (Z.eqb_spec (payload_bytes false datagrams) 0) as [Hz|Hnz];
    [eexists; reflexivity|].
  unfold fdiv. rewrite <- inject_Z_plus, Qeq_bool_inject_Z.
  destruct (Z.eqb_spec (payload_bytes false datagrams
                        + payload_bytes true datagrams) 0) as [Hz|_]; [lia|].
  eexists. reflexivity.
Qed.

Lemma time_to_reply_step_total st datagram :
  triggers_annotated (snd st) ->
  (payload_len datagram <> 0 -> rtt datagram <> None) ->
  exists st', time_to_reply_step st datagram = Ok st'
              /\ triggers_annotated (snd st').
Proof.
  destruct st as [ttr last]. simpl. intros Hinv Hd. unfold time_to_reply_step.
  destruct (Z.eqb_spec (payload_len datagram) 0) as [Hz|Hnz].
  - eexists. split; [reflexivity|]. exact Hinv.
  - assert (Hnew :
      triggers_annotated
        (bset (bset last (negb (sent_by_client datagram)) None)
              (negb (negb (sent_by_client datagram))) (Some datagram))).
    { intros way ld.
      destruct (sent_by_client datagram), way; simpl; intros H;
        try discriminate; try (injection H as <-; exact (Hd Hnz));
        first [apply (Hinv true), H | apply (Hinv false), H]. }
    destruct (bget last (negb (sent_by_client datagram))) as [ld|] eqn:Hld.
    + pose proof (Hinv _ _ Hld) as Hr. unfold rtt_total_seconds.
      destruct (rtt ld) as [r|]; [|contradiction]. cbn [rbind].
      destruct (PrimFloat.eqb (total_seconds r) 0) eqn:Hq.
      * cbn [rbind]. eexists. split; [reflexivity|]. exact Hnew.
      * unfold float_div. rewrite Hq. cbn [rbind].
        eexists. split; [reflexivity|]. exact Hnew.
    + cbn [rbind]. eexists. split; [reflexivity|]. exact Hnew.
Qed.

Lemma time_to_reply_total datagrams : forall st,
  RTT_annotated datagrams -> triggers_annotated (snd st) ->
  exists st', rfold time_to_reply_step datagrams st = Ok st'.
Proof.
  induction datagrams as [|d ds IH]; intros st Hrtt Hinv; simpl.
  - eexists. reflexivity.
  - inversion Hrtt as [|? ? Hd Hds]; subst.
    destruct (time_to_reply_step_total st d Hinv Hd) as (st1 & -> & Hinv1).
    cbn [rbind]. apply IH; assumption.
Qed.

Lemma compute_time_to_reply_total datagrams :
  RTT_annotated datagrams ->
  exists time_to_reply, compute_time_to_reply datagrams = Ok time_to_reply.
Proof.
  intros Hrtt. unfold compute_time_to_reply.
  destruct (time_to_reply_total datagrams (mkBdict [] [], mkBdict None None)
              Hrtt) as (st & ->).
  - intros [|] ld H; discriminate.
  - eexists. reflexivity.
Qed.

Lemma replies_to_consider_length samples bound :
  replies_to_consider samples bound
  = Z.of_nat (length (filter (fun t => PrimFloat.leb t bound) samples)).
Proof.
  unfold replies_to_consider, zsum. rewrite fold_left_add. simpl.
  induction (filter (fun t => PrimFloat.leb t bound) samples) as [|t l IH];
    [reflexivity|].
  cbn [map fold_right length]. rewrite IH, Nat2Z.inj_succ. lia.
Qed.

(** One turn of the loop [for way in (True, False)]. *)
Lemma decide_cons time_to_reply way ways :
  decide time_to_reply (way :: ways)
  = if qualifies (bget time_to_reply way) (bget max_time_to_reply way)
                 (bget min_replies way)
    then Ok (bget name way)
    else decide time_to_reply ways.
Proof.
  cbn [decide]. unfold qualifies.
  destruct (bget time_to_reply way) as [|t l] eqn:Hs; [reflexivity|].
  unfold fdiv, flen. rewrite Qeq_bool_inject_Z.
  destruct (Z.eqb_spec (Z.of_nat (length (t :: l))) 0) as [Hz|_];
    [simpl in Hz; lia|].
  cbn [rbind]. unfold fraction_within, fle.
  rewrite replies_to_consider_length. reflexivity.
Qed.

Lemma time_to_reply_step_skip st d :
  has_payload d = false -> time_to_reply_step st d = Ok st.
Proof.
  unfold has_payload, time_to_reply_step. destruct st as [ttr last].
  destruct (payload_len d =? 0); [reflexivity | discriminate].
Qed.

Lemma time_to_reply_step_first T F d :
  has_payload d = true ->
  time_to_reply_step (mkBdict T F, mkBdict None None) d
  = Ok (mkBdict T F, latest d).
Proof.
  unfold has_payload, time_to_reply_step, latest.
  destruct (payload_len d =? 0); [discriminate|]. intros _.
  destruct (sent_by_client d); reflexivity.
Qed.

Lemma time_to_reply_step_next T F last d :
  has_payload d = true -> rtt last <> None ->
  time_to_reply_step (mkBdict T F, latest last) d
  = Ok (mkBdict (T ++ replies true last [d]) (F ++ replies false last [d]),
        latest d).
Proof.
  unfold has_payload, time_to_reply_step, latest, replies, sample,
    rtt_total_seconds.
  destruct (payload_len d =? 0); [discriminate|]. intros _ Hrtt.
  destruct (sent_by_client last), (sent_by_client d); simpl;
    rewrite ?app_nil_r; try reflexivity;
    (destruct (rtt last) as [r|]; [|contradiction]); simpl;
    unfold float_div; destruct (PrimFloat.eqb (total_seconds r) 0); simpl;
    rewrite ?app_nil_r; reflexivity.
Qed.

Lemma replies_cons by_client last p ps :
  replies by_client last (p :: ps)
  = replies by_client last [p] ++ replies by_client p ps.
Proof. simpl. rewrite app_nil_r. reflexivity. Qed.

Lemma time_to_reply_loop ds : forall T F last,
  RTT_annotated ds -> rtt last <> None ->
  exists final,
    rfold time_to_reply_step ds (mkBdict T F, latest last)
    = Ok (mkBdict (T ++ replies true last (filter has_payload ds))
                  (F ++ replies false last (filter has_payload ds)),
          final).
Proof.
  induction ds as [|d ds IH]; intros T F last Hrtt Hlast.
  - simpl. rewrite !app_nil_r. eexists. reflexivity.
  - inversion Hrtt as [|? ? Hd Hds]; subst. cbn [rfold filter].
    destruct (has_payload d) eqn:Hp.
    + rewrite (time_to_reply_step_next T F last d Hp Hlast). cbn [rbind].
      assert (Hd' : rtt d <> None).
      { apply Hd. unfold has_payload in Hp.
        destruct (Z.eqb_spec (payload_len d) 0); [discriminate | assumption]. }
      rewrite (replies_cons true last d (filter has_payload ds)),
        (replies_cons false last d (filter has_payload ds)), !app_assoc.
      apply IH; assumption.
    + rewrite (time_to_reply_step_skip _ d Hp). cbn [rbind].
      apply IH; assumption.
Qed.

Lemma time_to_reply_start ds : forall T F,
  RTT_annotated ds ->
  exists final,
    rfold time_to_reply_step ds (mkBdict T F, mkBdict None None)
    = Ok (mkBdict (T ++ replies_of true ds) (F ++ replies_of false ds), final).
Proof.
  induction ds as [|d ds IH]; intros T F Hrtt.
  - simpl. unfold replies_of. simpl. rewrite !app_nil_r. eexists. reflexivity.
  - inversion Hrtt as [|? ? Hd Hds]; subst. cbn [rfold].
    unfold replies_of. cbn [filter]. destruct (has_payload d) eqn:Hp.
    + rewrite (time_to_reply_step_first T F d Hp). cbn [rbind].
      apply time_to_reply_loop; [exact Hds|].
      apply Hd. unfold has_payload in Hp.
      destruct (Z.eqb_spec (payload_len d) 0); [discriminate | assumption].
    + rewrite (time_to_reply_step_skip _ d Hp). cbn [rbind].
      apply (IH T F Hds).
Qed.

(** C9.  On a connection whose payload lengths are not negative and whose
    payload-bearing datagrams have an RTT, [analyse] returns one of the five
    labels.  When the SCP step does not decide, the label is ['shell'] if
    there are time-to-reply samples of the server and the fraction of them
    at most 0.7 is at least 0.6; else ['reverse shell'] under the same test
    on the samples of the client; else ['tunnel'].  A sample is the
    binary64 quotient of the seconds that a reply took by the seconds of
    the RTT of the datagram it answers, and 0.7 is the binary64 number that
    the literal denotes. *)
Theorem reply_latency_step
    (datagrams : list Datagram)
    (Hwf : well_formed datagrams) (Hrtt : RTT_annotated datagrams) :
  (exists label, analyse datagrams = Ok label /\ In label labels) /\
  (forall ratio,
      compute_asymetry datagrams = Ok ratio ->
      (5 # 100 < ratio)%Q -> (ratio < 95 # 100)%Q ->
      analyse datagrams
      = Ok (if qualifies (replies_of true datagrams) (double (7 # 10))
                         (6 # 10)
            then "shell"%string
            else if qualifies (replies_of false datagrams) (double (7 # 10))
                              (6 # 10)
                 then "reverse shell"%string
                 else "tunnel"%string)).
Proof.
  assert (Hreply :
    reply_analysis datagrams
    = Ok (if qualifies (replies_of true datagrams) (double (7 # 10)) (6 # 10)
          then "shell"%string
          else if qualifies (replies_of false datagrams) (double (7 # 10))
                            (6 # 10)
               then "reverse shell"%string
               else "tunnel"%string)).
  { unfold reply_analysis, compute_time_to_reply.
    destruct (time_to_reply_start datagrams [] [] Hrtt) as (final & ->).
    cbn [rbind fst app]. rewrite !decide_cons.
    cbn [decide bget max_time_to_reply min_replies name at_True at_False].
    unfold shell_max_time_to_reply, rshell_max_time_to_reply,
      shell_min_replies, rshell_min_replies.
    destruct (qualifies (replies_of true datagrams) _ _); [reflexivity|].
    destruct (qualifies (replies_of false datagrams) _ _); reflexivity. }
  split.
  - destruct (asymetry_total datagrams Hwf) as (ratio & Hratio).
    rewrite (analyse_unfold datagrams ratio Hratio), Hreply.
    unfold labels.
    destruct (flt (1 # 2) ratio);
      [destruct (fle scp_up_min_asymetry ratio)
      |destruct (fle ratio scp_down_max_asymetry)];
      try (eexists; split; [reflexivity|]; simpl; tauto);
      destruct (qualifies (replies_of true datagrams) _ _);
      try (eexists; split; [reflexivity|]; simpl; tauto);
      destruct (qualifies (replies_of false datagrams) _ _);
      eexists; (split; [reflexivity|]); simpl; tauto.
  - intros ratio Hratio Hlow Hhigh.
    rewrite (analyse_unfold datagrams ratio Hratio), <- Hreply.
    unfold scp_up_min_asymetry, scp_down_max_asymetry.
    destruct (flt (1 # 2) ratio).
    + destruct (fle (95 # 100) ratio) eqn:E; [|reflexivity].
      apply fle_iff in E. order_clash.
    + destruct (fle ratio (5 # 100)) eqn:E; [|reflexivity].
      apply fle_iff in E. order_clash.
Qed.

Lemma reply_latency_step_witness :
  well_formed Samples.borderline /\ RTT_annotated Samples.borderline /\
  replies_of true Samples.borderline = [next_up (double (7 # 10))] /\
  replies_of false Samples.borderline = [] /\
  analyse Samples.borderline = Ok "tunnel"%string.
Proof.
  assert (Hwf : well_formed Samples.borderline)
    by (repeat constructor; simpl; lia).
  assert (Hrtt : RTT_annotated Samples.borderline)
    by (repeat constructor; simpl; discriminate).
  split; [exact Hwf|]. split; [exact Hrtt|].
  split; [vm_compute; reflexivity|]. split; [reflexivity|].
  destruct (reply_latency_step Samples.borderline Hwf Hrtt) as (_ & H).
  rewrite (H _ eq_refl eq_refl eq_refl). vm_compute. reflexivity.
Defined.

(** C9 (counterexample).  The classifier does not always end with one
    of the five labels: when the datagram that a reply answers has no RTT,
    [compute_time_to_reply] reads [None.total_seconds()] and [analyse]
    raises [AttributeError]. *)
Lemma analyse_may_raise :
  ConnectionType.well_formed Samples.unanswered /\
  analyse Samples.unanswered = Raise AttributeError.
Proof.
  split; [repeat constructor; simpl; lia | reflexivity].
Qed.

(** *** The SCP step in payload bytes *)

Lemma ratio_le (a b x : Z) (y : positive) :
  0 < b ->
  ((inject_Z a / inject_Z b <= x # y)%Q <-> a * Z.pos y <= x * b).
Proof.
  intros Hb. destruct b as [|p|p]; try lia.
  unfold Qle, Qdiv, Qmult, Qinv, inject_Z. cbn [Qnum Qden]. nia.
Qed.

Lemma ratio_ge (a b x : Z) (y : positive) :
  0 < b ->
  ((x # y <= inject_Z a / inject_Z b)%Q <-> x * b <= a * Z.pos y).
Proof.
  intros Hb. destruct b as [|p|p]; try lia.
  unfold Qle, Qdiv, Qmult, Qinv, inject_Z. cbn [Qnum Qden]. nia.
Qed.

Lemma ratio_gt (a b x : Z) (y : positive) :
  0 < b ->
  ((x # y < inject_Z a / inject_Z b)%Q <-> x * b < a * Z.pos y).
Proof.
  intros Hb. destruct b as [|p|p]; try lia.
  unfold Qlt, Qdiv, Qmult, Qinv, inject_Z. cbn [Qnum Qden]. nia.
Qed.

Lemma compute_asymetry_bytes datagrams :
  well_formed datagrams ->
  let server := payload_bytes false datagrams in
  let client := payload_bytes true datagrams in
  0 <= server /\ 0 <= client /\
  compute_asymetry datagrams
  = Ok (if server =? 0 then 0%Q
        else (inject_Z server / inject_Z (server + client))%Q).
Proof.
  intros Hwf server client.
  pose proof (payload_bytes_nonneg false datagrams Hwf) as Hs.
  pose proof (payload_bytes_nonneg true datagrams Hwf) as Hc.
  fold server in Hs. fold client in Hc.
  split; [exact Hs|]. split; [exact Hc|].
  unfold compute_asymetry.
  rewrite server_sent_bytes, client_sent_bytes. fold server client.
  rewrite Qeq_bool_inject_Z.
  destruct (Z.eqb_spec server 0) as [Hz|Hnz]; [reflexivity|].
  unfold fdiv. rewrite <- inject_Z_plus, Qeq_bool_inject_Z.
  destruct (Z.eqb_spec (server + client) 0) as [Hz|_]; [lia | reflexivity].
Qed.

Lemma one_sided_is_scp datagrams :
  well_formed datagrams ->
  (payload_bytes false datagrams = 0 ->
   analyse datagrams = Ok "scp (up)"%string) /\
  (payload_bytes true datagrams = 0 -> 0 < payload_bytes false datagrams ->
   analyse datagrams = Ok "scp (down)"%string).
Proof.
  intros Hwf.
  destruct (compute_asymetry_bytes datagrams Hwf) as (Hs & Hc & Hratio).
  rewrite (analyse_unfold datagrams _ Hratio). split.
  - intros ->. reflexivity.
  - intros -> Hpos. rewrite Z.add_0_r.
    destruct (Z.eqb_spec (payload_bytes false datagrams) 0) as [Hz|_]; [lia|].
    pose proof (ratio_gt (payload_bytes false datagrams)
                         (payload_bytes false datagrams) 1 2 Hpos) as Hhalf.
    pose proof (ratio_ge (payload_bytes false datagrams)
                         (payload_bytes false datagrams) 95 100 Hpos) as Hhigh.
    assert (E1 : flt (1 # 2) (inject_Z (payload_bytes false datagrams)
                              / inject_Z (payload_bytes false datagrams)) = true)
      by (apply flt_iff, Hhalf; lia).
    assert (E2 : fle scp_up_min_asymetry
                     (inject_Z (payload_bytes false datagrams)
                      / inject_Z (payload_bytes false datagrams)) = true)
      by (apply fle_iff, Hhigh; lia).
    rewrite E1, E2. reflexivity.
Qed.

(** X9.  In payload bytes, on a connection whose payload lengths are not
    negative: [analyse] answers ['scp (down)'] exactly when the server sent
    some payload and at least 19 times what the client sent, and
    ['scp (up)'] exactly when the client sent at least 19 times what the
    server sent (which includes a connection without payload); in between
    it answers what the reply-latency analysis answers. *)
Theorem scp_by_bytes
    (datagrams : list Datagram) (Hwf : well_formed datagrams) :
  let server := payload_bytes false datagrams in
  let client := payload_bytes true datagrams in
  (analyse datagrams = Ok "scp (down)"%string
   <-> 0 < server /\ 19 * client <= server) /\
  (analyse datagrams = Ok "scp (up)"%string <-> 19 * server <= client) /\
  (0 < server -> server < 19 * client -> client < 19 * server ->
   analyse datagrams = reply_analysis datagrams).
Proof.
  intros server client.
  destruct (compute_asymetry_bytes datagrams Hwf) as (Hs & Hc & Hratio).
  fold server client in Hs, Hc, Hratio.
  rewrite (analyse_unfold datagrams _ Hratio).
  unfold scp_up_min_asymetry, scp_down_max_asymetry.
  destruct (reply_analysis_not_scp datagrams) as [Hdown Hup].
  destruct (Z.eqb_spec server 0) as [Hz|Hnz].
  - change (flt (1 # 2) 0) with false. change (fle 0 (5 # 100)) with true.
    cbv iota. split; [|split].
    + split; [discriminate | lia].
    + split; [lia | reflexivity].
    + lia.
  - assert (Hpos : 0 < server + client) by lia.
    pose proof (ratio_gt server (server + client) 1 2 Hpos) as Hhalf.
    pose proof (ratio_ge server (server + client) 95 100 Hpos) as Hhigh.
    pose proof (ratio_le server (server + client) 5 100 Hpos) as Hlow.
    destruct (flt (1 # 2) _) eqn:E1.
    + apply flt_iff, Hhalf in E1.
      destruct (fle (95 # 100) _) eqn:E2.
      * apply fle_iff, Hhigh in E2. split; [|split].
        -- split; [lia | reflexivity].
        -- split; [discriminate | lia].
        -- lia.
      * assert (~ 95 * (server + client) <= server * 100).
        { intros H. apply Hhigh, fle_iff in H. congruence. }
        split; [|split].
        -- split; [intros H'; contradiction | lia].
        -- split; [intros H'; contradiction | lia].
        -- reflexivity.
    + assert (~ 1 * (server + client) < server * 2).
      { intros H. apply Hhalf, flt_iff in H. congruence. }
      destruct (fle _ (5 # 100)) eqn:E2.
      * apply fle_iff, Hlow in E2. split; [|split].
        -- split; [discriminate | lia].
        -- split; [lia | reflexivity].
        -- lia.
      * assert (~ server * 100 <= 5 * (server + client)).
        { intros H'. apply Hlow, fle_iff in H'. congruence. }
        split; [|split].
        -- split; [intros H'; contradiction | lia].
        -- split; [intros H'; contradiction | lia].
        -- reflexivity.
Qed.

Lemma scp_by_bytes_witness :
  well_formed Samples.session /\
  analyse Samples.session = reply_analysis Samples.session.
Proof.
  assert (Hwf : well_formed Samples.session)
    by (repeat constructor; simpl; lia).
  split; [exact Hwf|].
  apply (scp_by_bytes Samples.session Hwf); simpl; lia.
Defined.

(** *** The samples of [compute_time_to_reply] *)

(** X10.  On a connection whose payload-bearing datagrams have an RTT,
    [compute_time_to_reply] returns, for each direction, one sample for
    every payload-bearing datagram of that direction whose RTT is not zero
    and which is directly followed, among the payload-bearing datagrams, by
    one of the other direction: the seconds between the two divided by the
    seconds of the RTT of the first, in binary64 arithmetic (so, for a
    reply sent 70 ms after a datagram whose RTT is 100 ms, the first
    binary64 number above 0.7).  Datagrams without payload are ignored. *)
Theorem time_to_reply_samples
    (datagrams : list Datagram) (Hrtt : RTT_annotated datagrams) :
  compute_time_to_reply datagrams
  = Ok (mkBdict (replies_of true datagrams) (replies_of false datagrams)).
Proof.
  unfold compute_time_to_reply.
  destruct (time_to_reply_start datagrams [] [] Hrtt) as (final & ->).
  reflexivity.
Qed.

Lemma time_to_reply_samples_witness :
  RTT_annotated Samples.borderline /\
  compute_time_to_reply Samples.borderline
  = Ok (mkBdict [next_up (double (7 # 10))] []).
Proof.
  assert (Hrtt : RTT_annotated Samples.borderline)
    by (repeat constructor; simpl; discriminate).
  split; [exact Hrtt|].
  rewrite (time_to_reply_samples Samples.borderline Hrtt).
  vm_compute. reflexivity.
Defined.

(** *** The exceptions of [analyse] *)

Lemma time_to_reply_step_exn st d e :
  time_to_reply_step st d = Raise e -> e = AttributeError.
Proof.
  destruct st as [ttr last]. unfold time_to_reply_step.
  destruct (payload_len d =? 0); [discriminate|].
  destruct (bget last (negb (sent_by_client d))) as [l|]; [|discriminate].
  unfold rtt_total_seconds. destruct (rtt l) as [r|]; cbn [rbind].
  - unfold float_div.
    destruct (PrimFloat.eqb (total_seconds r) 0); discriminate.
  - intros H. injection H as <-. reflexivity.
Qed.

Lemma time_to_reply_loop_exn ds : forall st e,
  rfold time_to_reply_step ds st = Raise e -> e = AttributeError.
Proof.
  induction ds as [|d ds IH]; intros st e; simpl; [discriminate|].
  destruct (time_to_reply_step st d) as [st'|e'] eqn:Hstep; cbn [rbind].
  - apply IH.
  - intros H. injection H as <-. apply (time_to_reply_step_exn _ _ _ Hstep).
Qed.

Lemma decide_total time_to_reply ways :
  exists label, decide time_to_reply ways = Ok label.
Proof.
  induction ways as [|way ways IH].
  - eexists. reflexivity.
  - rewrite decide_cons. destruct (qualifies _ _ _); [eexists; reflexivity|].
    exact IH.
Qed.

Lemma reply_analysis_exn ds e :
  reply_analysis ds = Raise e -> e = AttributeError.
Proof.
  unfold reply_analysis, compute_time_to_reply.
  destruct (rfold time_to_reply_step ds _) as [st|e'] eqn:Hloop; cbn [rbind].
  - destruct (decide_total (fst st) [true; false]) as (label & ->).
    discriminate.
  - intros H. injection H as <-. apply (time_to_reply_loop_exn _ _ _ Hloop).
Qed.

Lemma annotated_or_not ds :
  RTT_annotated ds \/
  Exists (fun p => payload_len p <> 0 /\ rtt p = None) ds.
Proof.
  induction ds as [|d ds [IH|IH]].
  - left. constructor.
  - destruct (Z.eq_dec (payload_len d) 0) as [Hz|Hnz].
    + left. constructor; [intros H; contradiction | exact IH].
    + destruct (rtt d) as [r|] eqn:Hr.
      * left. constructor; [intros _; congruence | exact IH].
      * right. constructor. auto.
  - right. apply Exists_cons_tl, IH.
Qed.

(** X11.  On a connection whose payload lengths are not negative, the only
    exception that [analyse] can raise is [AttributeError], and it raises it
    only if some payload-bearing datagram has no RTT: there is no division
    by zero. *)
Theorem analyse_raises_only_AttributeError
    (datagrams : list Datagram) (e : exn)
    (Hwf : well_formed datagrams)
    (Hraise : analyse datagrams = Raise e) :
  e = AttributeError /\
  Exists (fun p => payload_len p <> 0 /\ rtt p = None) datagrams.
Proof.
  destruct (asymetry_total datagrams Hwf) as (ratio & Hratio).
  rewrite (analyse_unfold datagrams ratio Hratio) in Hraise.
  assert (Hreply : reply_analysis datagrams = Raise e).
  { destruct (flt (1 # 2) ratio);
      [destruct (fle scp_up_min_asymetry ratio)
      |destruct (fle ratio scp_down_max_asymetry)];
      first [discriminate | exact Hraise]. }
  split; [apply (reply_analysis_exn _ _ Hreply)|].
  destruct (annotated_or_not datagrams) as [Hrtt|Hex]; [|exact Hex].
  exfalso. unfold reply_analysis in Hreply.
  destruct (compute_time_to_reply_total datagrams Hrtt) as (ttr & Httr).
  rewrite Httr in Hreply. cbn [rbind] in Hreply.
  destruct (decide_total ttr [true; false]) as (label & Hl). congruence.
Qed.

Lemma analyse_raises_only_AttributeError_witness :
  well_formed Samples.unanswered /\
  analyse Samples.unanswered = Raise AttributeError /\
  Exists (fun p => payload_len p <> 0 /\ rtt p = None) Samples.unanswered.
Proof.
  assert (Hwf : well_formed Samples.unanswered)
    by (repeat constructor; simpl; lia).
  split; [exact Hwf|]. split; [reflexivity|].
  apply (analyse_raises_only_AttributeError _ AttributeError Hwf eq_refl).
Defined.

(** *** The unit tests on SCP connections *)

Lemma payload_bytes_app by_client l1 l2 :
  payload_bytes by_client (l1 ++ l2)
  = payload_bytes by_client l1 + payload_bytes by_client l2.
Proof.
  induction l1 as [|p l1 IH]; simpl; [reflexivity|].
  destruct (Bool.eqb (sent_by_client p) by_client); lia.
Qed.

Lemma fake_scp_step_bytes way st r :
  TestConnectionType.drawn_in_range r -> well_formed (fst st) ->
  let st' := TestConnectionType.fake_scp_step way st r in
  well_formed (fst st') /\
  payload_bytes (negb way) (fst st') = payload_bytes (negb way) (fst st) /\
  payload_bytes way (fst st) < payload_bytes way (fst st').
Proof.
  destruct st as [ds t]. intros (_ & Hp & _) Hwf.
  cbn [fst TestConnectionType.fake_scp_step].
  split; [|split].
  - apply Forall_app. split; [apply Forall_app; split; [exact Hwf|]|];
      constructor; simpl; try lia; constructor.
  - rewrite !payload_bytes_app. destruct way; simpl; lia.
  - rewrite !payload_bytes_app. destruct way; simpl; lia.
Qed.

Lemma fake_scp_loop_bytes way random : forall st,
  Forall TestConnectionType.drawn_in_range random -> well_formed (fst st) ->
  let st' := fold_left (TestConnectionType.fake_scp_step way) random st in
  well_formed (fst st') /\
  payload_bytes (negb way) (fst st') = payload_bytes (negb way) (fst st) /\
  (random <> [] -> payload_bytes way (fst st) < payload_bytes way (fst st')).
Proof.
  induction random as [|r random IH]; intros st Hr Hwf.
  - simpl. split; [exact Hwf|]. split; [reflexivity | congruence].
  - inversion Hr as [|? ? Hr1 Hr2]; subst. cbn [fold_left].
    destruct (fake_scp_step_bytes way st r Hr1 Hwf)
      as (Hwf1 & Hsame1 & Hmore1).
    destruct (IH (TestConnectionType.fake_scp_step way st r) Hr2 Hwf1)
      as (Hwf2 & Hsame2 & Hmore2).
    split; [exact Hwf2|]. split; [congruence|]. intros _.
    destruct random as [|r' random'].
    + exact Hmore1.
    + assert (r' :: random' <> []) by discriminate.
      specialize (Hmore2 H). cbv zeta in Hmore1. lia.
Qed.

(** X12.  Whatever numbers [random] returns within the bounds asked for,
    the connection that [fake_scp(True)] builds in 1000 turns is classified
    ['scp (up)'] and the one that [fake_scp(False)] builds ['scp (down)']:
    [test_scp_up_connection] and [test_scp_down_connection] pass for every
    seed. *)
Theorem fake_scp_is_scp
    (now : Z) (random : list TestConnectionType.draws)
    (Hturns : length random = 1000%nat)
    (Hrange : Forall TestConnectionType.drawn_in_range random) :
  analyse (TestConnectionType.fake_scp true now random)
  = Ok "scp (up)"%string /\
  analyse (TestConnectionType.fake_scp false now random)
  = Ok "scp (down)"%string.
Proof.
  assert (Hne : random <> []) by (intros ->; discriminate).
  split.
  - destruct (fake_scp_loop_bytes true random ([], now) Hrange)
      as (Hwf & Hserver & Hclient); [constructor|].
    fold (TestConnectionType.fake_scp true now random)
      in Hwf, Hserver, Hclient.
    simpl in Hserver, Hclient. specialize (Hclient Hne).
    apply (one_sided_is_scp _ Hwf), Hserver.
  - destruct (fake_scp_loop_bytes false random ([], now) Hrange)
      as (Hwf & Hclient & Hserver); [constructor|].
    fold (TestConnectionType.fake_scp false now random)
      in Hwf, Hserver, Hclient.
    simpl in Hserver, Hclient. specialize (Hserver Hne).
    apply (one_sided_is_scp _ Hwf); [exact Hclient | lia].
Qed.

Lemma fake_scp_is_scp_witness :
  length Samples.lowest_draws = 1000%nat /\
  analyse (TestConnectionType.fake_scp true 0 Samples.lowest_draws)
  = Ok "scp (up)"%string.
Proof.
  assert (Hturns : length Samples.lowest_draws = 1000%nat)
    by apply repeat_length.
  split; [exact Hturns|].
  apply (fake_scp_is_scp 0 Samples.lowest_draws Hturns).
  - apply Forall_forall. intros r Hr. apply repeat_spec in Hr. subst r.
    unfold TestConnectionType.drawn_in_range. simpl. lia.
Defined.

(** *** The datagrams without payload *)

Lemma payload_bytes_cons by_client p ds :
  payload_bytes by_client (p :: ds)
  = (if Bool.eqb (sent_by_client p) by_client then payload_len p else 0)
    + payload_bytes by_client ds.
Proof.
  unfold payload_bytes. cbn [fold_right].
  destruct (Bool.eqb (sent_by_client p) by_client); lia.
Qed.

Lemma payload_bytes_filter by_client ds :
  payload_bytes by_client (filter has_payload ds) = payload_bytes by_client ds.
Proof.
  induction ds as [|p ds IH]; [reflexivity|]. cbn [filter].
  unfold has_payload at 1.
  destruct (Z.eqb_spec (payload_len p) 0) as [Hz|Hnz]; cbn [negb];
    rewrite !payload_bytes_cons, IH; [|reflexivity].
  destruct (Bool.eqb (sent_by_client p) by_client); lia.
Qed.

Lemma time_to_reply_loop_filter ds : forall st,
  rfold time_to_reply_step (filter has_payload ds) st
  = rfold time_to_reply_step ds st.
Proof.
  induction ds as [|d ds IH]; intros st; [reflexivity|]. cbn [filter rfold].
  destruct (has_payload d) eqn:Hp.
  - cbn [rfold]. destruct (time_to_reply_step st d); cbn [rbind];
      [apply IH | reflexivity].
  - rewrite (time_to_reply_step_skip st d Hp). cbn [rbind]. apply IH.
Qed.

(** X25.  The datagrams without payload have no influence on the
    classification: [analyse] returns (or raises) on the payload-bearing
    datagrams alone what it returns on the whole connection. *)
Theorem analyse_ignores_empty_datagrams (datagrams : list Datagram) :
  analyse (filter has_payload datagrams) = analyse datagrams.
Proof.
  unfold analyse, compute_asymetry, reply_analysis, compute_time_to_reply.
  rewrite !server_sent_bytes, !client_sent_bytes, !payload_bytes_filter.
  rewrite time_to_reply_loop_filter. reflexivity.
Qed.

End Classifier.

(** ** The stepping-stone detector *)

Module Detector.

Import Connection SteppingStone.

(** *** Results and logs *)

Lemma mbind_ok {A B : Type} (t : list message) (a : A) (f : A -> M B) :
  mbind (t, Ok a) f = (t ++ fst (f a), snd (f a)).
Proof. unfold mbind. destruct (f a). reflexivity. Qed.

Lemma rmap_length {A B : Type} (f : A -> result B) (l : list A) :
  forall l', rmap f l = Ok l' -> length l' = length l.
Proof.
  induction l as [|x l IH]; intros l' H; simpl in H.
  - injection H as <-. reflexivity.
  - destruct (f x) as [y|e]; [|discriminate]. cbn [rbind] in H.
    destruct (rmap f l) as [ys|e]; [|discriminate]. cbn [rbind] in H.
    injection H as <-. simpl. rewrite (IH ys eq_refl). reflexivity.
Qed.

Lemma RTTs_total (ds : list Datagram) :
  Forall (fun d => RTT d <> None) ds ->
  exists RTTs, rmap RTT_total_seconds ds = Ok RTTs.
Proof.
  induction 1 as [|d ds Hd _ (RTTs & IH)]; simpl.
  - eexists. reflexivity.
  - unfold RTT_total_seconds at 1. destruct (RTT d); [|contradiction].
    cbn [rbind]. rewrite IH. cbn [rbind]. eexists. reflexivity.
Qed.

Lemma index_in_range {A : Type} (l : list A) (i : nat) :
  (i < length l)%nat -> exists x, index l i = Ok x.
Proof.
  intros Hi. unfold index. destruct (nth_error l i) eqn:E.
  - eexists. reflexivity.
  - apply nth_error_None in E. lia.
Qed.

(** *** The inter-arrival times *)

Lemma IAT_step_total st d n :
  IAT_state st n ->
  exists st', IAT_step st d = Ok st' /\
              IAT_state st' (if client_payload d then S n else n).
Proof.
  destruct st as [[IATs first] last]. unfold IAT_state, IAT_step, client_payload.
  intros Hst.
  destruct (Z.eqb_spec (payloadLen d) 0) as [Hz|Hnz].
  - rewrite Bool.andb_false_r. eexists. split; [reflexivity|]. exact Hst.
  - rewrite Bool.andb_true_r.
    destruct first, (sentByClient d); simpl.
    + eexists. split; [reflexivity|]. destruct Hst as [-> ->]. simpl.
      split; [discriminate | reflexivity].
    + eexists. split; [reflexivity|]. exact Hst.
    + destruct Hst as [Hlast Hlen]. destruct last as [l0|]; [|contradiction].
      simpl. eexists. split; [reflexivity|]. simpl.
      split; [discriminate|]. rewrite length_app. simpl. lia.
    + eexists. split; [reflexivity|]. exact Hst.
Qed.

Lemma IAT_loop_total ds : forall st n,
  IAT_state st n ->
  exists st', rfold IAT_step ds st = Ok st' /\
              IAT_state st' (n + length (filter client_payload ds)).
Proof.
  induction ds as [|d ds IH]; intros st n Hst; simpl.
  - eexists. split; [reflexivity|]. rewrite Nat.add_0_r. exact Hst.
  - destruct (IAT_step_total st d n Hst) as (st1 & -> & Hst1). cbn [rbind].
    destruct (IH st1 _ Hst1) as (st2 & -> & Hst2).
    eexists. split; [reflexivity|].
    destruct (client_payload d); simpl length;
      [rewrite Nat.add_succ_r|]; exact Hst2.
Qed.

Lemma build_IATs_length ds :
  exists IATs, build_IATs ds = Ok IATs /\
               length IATs = (length (filter client_payload ds) - 1)%nat.
Proof.
  unfold build_IATs.
  destruct (IAT_loop_total ds ([], true, None) 0) as (st & -> & Hst).
  { simpl. auto. }
  cbn [rbind]. eexists. split; [reflexivity|].
  destruct st as [[IATs first] last]. simpl in *.
  destruct first.
  - destruct Hst as [-> ->]. reflexivity.
  - destruct Hst as [_ <-]. lia.
Qed.

(** *** The comparison of RTTs and IATs *)

Lemma compare_step_total RTTs IATs compt i :
  (i < length RTTs)%nat -> (i < length IATs)%nat ->
  exists compt', compare_step RTTs IATs compt i = Ok compt'.
Proof.
  intros Hr Ha. unfold compare_step.
  destruct (index_in_range RTTs i Hr) as (r & ->). cbn [rbind].
  destruct (PrimFloat.eqb r 0) eqn:Hz; simpl negb; cbv iota.
  - eexists. reflexivity.
  - destruct (index_in_range IATs i Ha) as (a & ->). cbn [rbind].
    unfold float_div. rewrite Hz. cbn [rbind].
    destruct (PrimFloat.leb _ CLOSE_ENOUGH); eexists; reflexivity.
Qed.

Lemma compare_loop_total RTTs IATs indices : forall compt,
  (forall i, In i indices -> (i < length RTTs)%nat /\ (i < length IATs)%nat) ->
  exists compt', rfold (compare_step RTTs IATs) indices compt = Ok compt'.
Proof.
  induction indices as [|i indices IH]; intros compt Hin; simpl.
  - eexists. reflexivity.
  - destruct (Hin i (or_introl eq_refl)) as [Hr Ha].
    destruct (compare_step_total RTTs IATs compt i Hr Ha) as (c & ->).
    cbn [rbind]. apply IH. intros j Hj. apply Hin. right. exact Hj.
Qed.

Lemma flen_nonzero {A : Type} (l : list A) :
  l <> [] -> Qeq_bool (flen l) 0 = false.
Proof.
  intros Hl. unfold flen, Qeq_bool, inject_Z. simpl. rewrite Z.mul_1_r.
  destruct l; [contradiction|]. reflexivity.
Qed.

Lemma similarity_total RTTs IATs :
  length IATs = length RTTs -> RTTs <> [] ->
  exists percent b,
    similarity RTTs IATs = ([Similarity_between_IATs_RTTs percent], Ok b).
Proof.
  intros Hlen Hne. unfold similarity.
  destruct (compare_loop_total RTTs IATs (seq 0 (length RTTs)) 0%Q)
    as (compt & Hc).
  { intros i Hi. apply in_seq in Hi. lia. }
  rewrite Hc. unfold lift, fdiv. rewrite (flen_nonzero RTTs Hne).
  unfold mbind, log, mret. simpl.
  destruct (fle _ IAT_RTT_DIFFERENT); eexists; eexists; reflexivity.
Qed.

Lemma compare_RTT_IAT_inconclusive self RTTs :
  rmap RTT_total_seconds (self_datagrams self) = Ok RTTs ->
  (length (tl RTTs) < 20)%nat ->
  compare_RTT_IAT self
  = ([Computation_of_RTT_IAT_similarity; Not_enough_useful_datagrams],
     Ok None).
Proof.
  intros HR Hlen. unfold compare_RTT_IAT. rewrite HR.
  apply Nat.ltb_lt in Hlen.
  unfold mbind, log, lift, mret. simpl. rewrite Hlen. reflexivity.
Qed.

Lemma compare_RTT_IAT_conclusive self RTTs IATs percent b :
  rmap RTT_total_seconds (self_datagrams self) = Ok RTTs ->
  (20 <= length (tl RTTs))%nat ->
  build_IATs (datagrams (self_connection self)) = Ok IATs ->
  similarity (tl RTTs) IATs = ([Similarity_between_IATs_RTTs percent], Ok b) ->
  compare_RTT_IAT self
  = ([Computation_of_RTT_IAT_similarity;
      Similarity_between_IATs_RTTs percent], Ok (Some b)).
Proof.
  intros HR Hlen HI HS. unfold compare_RTT_IAT. rewrite HR, HI.
  assert (Hge : (length (tl RTTs) <? 20)%nat = false)
    by (apply Nat.ltb_ge; exact Hlen).
  unfold mbind at 1 2, log, lift. cbv iota beta. rewrite Hge.
  unfold mbind at 1. rewrite HS. reflexivity.
Qed.

Lemma rmap_raises (ds : list Datagram) (e : exn) :
  rmap RTT_total_seconds ds = Raise e ->
  e = AttributeError /\ Exists (fun d => RTT d = None) ds.
Proof.
  induction ds as [|d ds IH]; simpl; [discriminate|].
  unfold RTT_total_seconds at 1. destruct (RTT d) as [v|] eqn:Hd; cbn [rbind].
  - destruct (rmap RTT_total_seconds ds) as [l|e'] eqn:Hl; cbn [rbind];
      [discriminate|].
    intros H. injection H as <-. destruct (IH eq_refl) as [-> Hex].
    split; [reflexivity|]. right. exact Hex.
  - intros H. injection H as <-. split; [reflexivity|]. left. exact Hd.
Qed.


(** C10.  Let [n] be the number of client datagrams with payload of a
    connection.  The loop that builds [IATs] does not raise and the list
    it builds has [n - 1] elements.  When the list of the RTTs can be
    built, it has [n - 1] elements once its first element is dropped, as
    many as [IATs]; every index of the comparison loop is in range for
    both lists; when fewer than 20 RTTs remain [compare_RTT_IAT] returns
    its "no verdict" without reaching a division, and otherwise both
    divisions by [len(RTTs)] succeed and it returns [True] or [False].
    The list of the RTTs cannot be built only when one of these datagrams
    has no RTT: [compare_RTT_IAT] then raises [AttributeError] before it
    reads an index or divides. *)
Theorem compare_RTT_IAT_in_range (c : connection) :
  let n := client_payload_count c in
  (exists IATs,
      build_IATs (datagrams c) = Ok IATs /\ length IATs = (n - 1)%nat) /\
  (forall RTTs IATs,
      rmap RTT_total_seconds (self_datagrams (init c)) = Ok RTTs ->
      build_IATs (datagrams c) = Ok IATs ->
      length (tl RTTs) = (n - 1)%nat /\
      length IATs = length (tl RTTs) /\
      (forall i, (i < length (tl RTTs))%nat ->
                 exists r a, index (tl RTTs) i = Ok r /\ index IATs i = Ok a) /\
      ((length (tl RTTs) < 20)%nat ->
       compare_RTT_IAT (init c)
       = ([Computation_of_RTT_IAT_similarity; Not_enough_useful_datagrams],
          Ok None)) /\
      ((20 <= length (tl RTTs))%nat ->
       exists percent b,
         similarity (tl RTTs) IATs
         = ([Similarity_between_IATs_RTTs percent], Ok b) /\
         compare_RTT_IAT (init c)
         = ([Computation_of_RTT_IAT_similarity;
             Similarity_between_IATs_RTTs percent], Ok (Some b)))) /\
  (forall e,
      rmap RTT_total_seconds (self_datagrams (init c)) = Raise e ->
      e = AttributeError /\
      Exists (fun d => RTT d = None) (self_datagrams (init c)) /\
      compare_RTT_IAT (init c)
      = ([Computation_of_RTT_IAT_similarity], Raise AttributeError)).
Proof.
  intros n.
  destruct (build_IATs_length (datagrams c)) as (IATs & HI & HIlen).
  fold (client_payload_count c) in HIlen. fold n in HIlen.
  split; [exists IATs; split; assumption|]. split.
  - intros RTTs IATs' HR HI'. rewrite HI in HI'. injection HI' as <-.
    assert (HRlen : length (tl RTTs) = (n - 1)%nat).
    { pose proof (rmap_length _ _ _ HR) as H. simpl in H.
      fold (client_payload_count c) in H. fold n in H.
      destruct RTTs; simpl in *; lia. }
    split; [exact HRlen|]. split; [lia|]. split; [|split].
    + intros i Hi.
      destruct (index_in_range (tl RTTs) i Hi) as (r & Hr).
      destruct (index_in_range IATs i) as (a & Ha); [lia|].
      exists r, a. auto.
    + apply compare_RTT_IAT_inconclusive. exact HR.
    + intros Hlen.
      destruct (similarity_total (tl RTTs) IATs) as (percent & b & HS).
      * lia.
      * intros Hnil. rewrite Hnil in Hlen. simpl in Hlen. lia.
      * exists percent, b. split; [exact HS|].
        apply (compare_RTT_IAT_conclusive (init c) RTTs IATs percent b);
          assumption.
  - intros e He. destruct (rmap_raises _ _ He) as [-> Hex].
    split; [reflexivity|]. split; [exact Hex|].
    unfold compare_RTT_IAT. rewrite He. reflexivity.
Qed.

Lemma compare_RTT_IAT_in_range_witness :
  client_payload_count Samples.steady = 22%nat /\
  exists percent b,
    compare_RTT_IAT (init Samples.steady)
    = ([Computation_of_RTT_IAT_similarity;
        Similarity_between_IATs_RTTs percent], Ok (Some b)).
Proof.
  split; [reflexivity|].
  destruct (compare_RTT_IAT_in_range Samples.steady) as (_ & H & _).
  destruct (H _ _ eq_refl eq_refl) as (HRlen & _ & _ & _ & Hbig).
  destruct Hbig as (percent & b & _ & Hrun).
  - rewrite HRlen. apply Nat.leb_le. reflexivity.
  - exists percent, b. exact Hrun.
Defined.

(** *** Dictionaries *)

Lemma dget_key {V : Type} (d : dict V) (k : Z) :
  In k (keys d) -> exists v, dget d k = Ok v /\ In (k, v) d.
Proof.
  induction d as [|[k' v'] d IH]; simpl; [intros []|]. intros Hin.
  destruct (Z.eqb_spec k' k) as [->|Hne].
  - exists v'. auto.
  - destruct Hin as [Hc|Hin]; [contradiction|].
    destruct (IH Hin) as (v & Hv & Hd). exists v. auto.
Qed.

Lemma dget_dset_same {V : Type} (d : dict V) (k : Z) (v : V) :
  dget (dset d k v) k = Ok v.
Proof.
  induction d as [|[k' v'] d IH]; simpl.
  - rewrite Z.eqb_refl. reflexivity.
  - destruct (Z.eqb_spec k' k) as [->|Hne]; simpl.
    + rewrite Z.eqb_refl. reflexivity.
    + destruct (Z.eqb_spec k' k); [contradiction | exact IH].
Qed.

Lemma keys_dset {V : Type} (d : dict V) (k : Z) (v : V) :
  In k (keys (dset d k v)) /\ forall k', In k' (keys d) -> In k' (keys (dset d k v)).
Proof.
  induction d as [|[k0 v0] d [IHk IH]]; simpl.
  - split; [left; reflexivity | intros k' []].
  - destruct (Z.eqb_spec k0 k) as [->|Hne]; simpl.
    + split; [left; reflexivity | auto].
    + split; [right; exact IHk|]. intros k' [Hk|Hk]; [left; exact Hk|].
      right. apply IH, Hk.
Qed.

Lemma In_dset {V : Type} (d : dict V) (k : Z) (v : V) (k' : Z) (v' : V) :
  In (k', v') (dset d k v) -> (k', v') = (k, v) \/ In (k', v') d.
Proof.
  induction d as [|[k0 v0] d IH]; simpl.
  - intros [H|[]]. left. symmetry. exact H.
  - destruct (Z.eqb_spec k0 k) as [->|Hne]; simpl.
    + intros [H|H]; [left; symmetry; exact H | right; right; exact H].
    + intros [H|H]; [right; left; exact H|].
      destruct (IH H) as [H'|H']; [left; exact H' | right; right; exact H'].
Qed.

Lemma ddel_key {V : Type} (d : dict V) (k : Z) :
  In k (keys d) -> exists d', ddel d k = Ok d'.
Proof.
  induction d as [|[k' v'] d IH]; simpl; [intros []|]. intros Hin.
  destruct (Z.eqb_spec k' k) as [->|Hne].
  - eexists. reflexivity.
  - destruct Hin as [Hc|Hin]; [contradiction|].
    destruct (IH Hin) as (d' & ->). cbn [rbind]. eexists. reflexivity.
Qed.

(** *** The clustering of payload lengths *)

Lemma closest_loop_key payload ks : forall closest c,
  fold_left (closest_step payload) ks closest = Some c ->
  (closest = Some c \/ (In c ks /\ Z.abs (c - payload) <= IN_GROUP)).
Proof.
  induction ks as [|k ks IH]; intros closest c H; simpl in H.
  - left. exact H.
  - destruct (IH _ _ H) as [Hc|[Hin Hd]].
    + unfold closest_step in Hc.
      destruct (Z.leb_spec (Z.abs (k - payload)) IN_GROUP) as [Hle|Hgt];
        simpl in Hc.
      * destruct (match closest with
                  | Some c0 => Z.abs (k - payload) <? c0
                  | None => true
                  end).
        -- injection Hc as <-. right. split; [left; reflexivity | exact Hle].
        -- left. exact Hc.
      * left. exact Hc.
    + right. split; [right; exact Hin | exact Hd].
Qed.

Lemma closest_group_key payload groups c :
  closest_group payload groups = Some c ->
  In c (keys groups) /\ Z.abs (c - payload) <= IN_GROUP.
Proof.
  intros H. destruct (closest_loop_key _ _ _ _ H) as [Hc|Hc];
    [discriminate | exact Hc].
Qed.

Lemma zsum_bounds (key : Z) (members : list Z) :
  Forall (fun m => Z.abs (key - m) <= IN_GROUP) members ->
  Z.of_nat (length members) * (key - IN_GROUP) <= zsum members
  <= Z.of_nat (length members) * (key + IN_GROUP).
Proof.
  unfold zsum. rewrite fold_left_add_0.
  induction 1 as [|m members Hm _ IH]; simpl fold_right; simpl length.
  - simpl. lia.
  - rewrite Nat2Z.inj_succ. unfold IN_GROUP in *. lia.
Qed.

Lemma average_near_key groups key members :
  dget groups key = Ok members -> members <> [] ->
  Forall (fun m => Z.abs (key - m) <= IN_GROUP) members ->
  exists prov_average,
    average key groups = Ok prov_average /\
    Z.abs (key - prov_average) <= IN_GROUP.
Proof.
  intros Hget Hne Hnear. unfold average, idiv. rewrite Hget. cbn [rbind].
  assert (Hlen : 0 < Z.of_nat (length members))
    by (destruct members; [contradiction | simpl; lia]).
  destruct (Z.eqb_spec (Z.of_nat (length members)) 0) as [Hz|_]; [lia|].
  eexists. split; [reflexivity|].
  destruct (zsum_bounds key members Hnear) as [Hlo Hhi].
  pose proof (Z.div_le_lower_bound _ _ _ Hlen Hlo).
  pose proof (Z.div_le_upper_bound _ _ _ Hlen Hhi).
  unfold IN_GROUP in *. lia.
Qed.

Lemma superposition_found prov_average ks key :
  In key ks -> Z.abs (key - prov_average) <= IN_GROUP ->
  no_superposition prov_average ks = false.
Proof.
  induction ks as [|k ks IH]; simpl; [intros []|]. intros Hin Hnear.
  destruct (Z.leb_spec (Z.abs (k - prov_average)) IN_GROUP) as [_|Hgt];
    [reflexivity|].
  destruct Hin as [->|Hin]; [lia | apply IH; assumption].
Qed.

(** A group is never put under a new key: its own key is always within
    [IN_GROUP] of its new average, and [update_average_possible] counts
    that as a superposition. *)
Lemma cluster_step_keeps_keys groups payload :
  keyed_by_first groups ->
  exists groups',
    cluster_step groups payload = Ok groups' /\ keyed_by_first groups' /\
    match closest_group payload groups with
    | None => groups' = dset groups payload [payload]
    | Some closest =>
        exists members, dget groups closest = Ok members /\
                        groups' = dset groups closest (members ++ [payload])
    end.
Proof.
  intros Hinv. unfold cluster_step.
  destruct (closest_group payload groups) as [closest|] eqn:Hc.
  - destruct (closest_group_key _ _ _ Hc) as [Hkey Hnear].
    destruct (dget_key groups closest Hkey) as (members & Hget & Hin).
    destruct (Hinv _ _ Hin) as [Hhd Hall].
    rewrite Hget. cbn [rbind].
    assert (Hall' : Forall (fun m => Z.abs (closest - m) <= IN_GROUP)
                           (members ++ [payload])).
    { apply Forall_app. split; [exact Hall|]. constructor; [|constructor].
      rewrite <- Z.abs_opp. replace (- (closest - payload))
        with (payload - closest) by lia.
      rewrite <- Z.abs_opp. replace (- (payload - closest))
        with (closest - payload) by lia. exact Hnear. }
    destruct (average_near_key (dset groups closest (members ++ [payload]))
                closest (members ++ [payload]))
      as (avg & Havg & Hclose).
    { apply dget_dset_same. }
    { destruct members; discriminate. }
    { exact Hall'. }
    unfold update_average_possible. rewrite Havg. cbn [rbind].
    rewrite (superposition_found avg _ closest
               (proj1 (keys_dset groups closest _)) Hclose).
    eexists. split; [reflexivity|]. split.
    + intros key ms Hms. apply In_dset in Hms as [Heq|Hold].
      * injection Heq as -> ->. split; [|exact Hall'].
        destruct members; [discriminate | exact Hhd].
      * apply Hinv, Hold.
    + exists members. auto.
  - eexists. split; [reflexivity|]. split; [|reflexivity].
    intros key ms Hms. apply In_dset in Hms as [Heq|Hold].
    + injection Heq as -> ->. split; [reflexivity|].
      constructor; [|constructor]. rewrite Z.sub_diag. unfold IN_GROUP. simpl. lia.
    + apply Hinv, Hold.
Qed.

Lemma cluster_loop_keeps_keys payloads : forall groups,
  keyed_by_first groups ->
  exists groups',
    rfold cluster_step payloads groups = Ok groups' /\ keyed_by_first groups'.
Proof.
  induction payloads as [|p payloads IH]; intros groups Hinv; simpl.
  - eexists. split; [reflexivity | exact Hinv].
  - destruct (cluster_step_keeps_keys groups p Hinv) as (g1 & -> & Hinv1 & _).
    cbn [rbind]. apply IH, Hinv1.
Qed.

(** Whatever the payload lengths, the clustering ends with every group
    still under the first payload length put in it. *)
Lemma never_rekeyed payloads :
  exists groups,
    rfold cluster_step payloads [] = Ok groups /\ keyed_by_first groups.
Proof. apply cluster_loop_keeps_keys. intros key ms []. Qed.

Lemma is_PS_modally_distributed_total self :
  self_datagrams self <> [] ->
  exists percent b,
    is_PS_modally_distributed self
    = ([Checking_if_n_modulus_distribution; n_modulus_at percent], Ok b).
Proof.
  intros Hne. unfold is_PS_modally_distributed.
  destruct (never_rekeyed (map payloadLen (self_datagrams self)))
    as (groups & -> & _).
  unfold lift, fdiv. rewrite flen_nonzero
    by (destruct (self_datagrams self); [contradiction | discriminate]).
  unfold mbind, log, mret. simpl.
  destruct (flt _ _); eexists; eexists; reflexivity.
Qed.

(** C3.  The payload lengths 10 and 13 make one group, whose average
    becomes 11.  No other group exists, and yet the group is not put under
    its new average: [update_average_possible] answers [False], because the
    group's own key, 10, is within 3 of 11. *)
Theorem rekey_missed :
  rfold cluster_step [10; 13] [] = Ok [(10, [10; 13])] /\
  average 10 [(10, [10; 13])] = Ok 11 /\
  update_average_possible 10 [(10, [10; 13])] = Ok false.
Proof. repeat split. Qed.

(** *** The groups that the clustering builds *)

Lemma keys_dset_new {V : Type} (d : dict V) (k : Z) (v : V) :
  ~ In k (keys d) -> dset d k v = d ++ [(k, v)].
Proof.
  induction d as [|[k0 v0] d IH]; simpl; [reflexivity|]. intros Hk.
  destruct (Z.eqb_spec k0 k) as [->|Hne].
  - exfalso. apply Hk. left. reflexivity.
  - rewrite IH by (intros H; apply Hk; right; exact H). reflexivity.
Qed.

Lemma keys_dset_old {V : Type} (d : dict V) (k : Z) (v : V) :
  In k (keys d) -> keys (dset d k v) = keys d.
Proof.
  induction d as [|[k0 v0] d IH]; simpl; [intros []|]. intros Hk.
  destruct (Z.eqb_spec k0 k) as [->|Hne]; [reflexivity|].
  simpl. rewrite IH; [reflexivity|]. destruct Hk as [Hk|Hk]; [contradiction|exact Hk].
Qed.

Lemma members_dset_old (groups : dict (list Z)) k ms p :
  dget groups k = Ok ms ->
  Permutation (members (dset groups k (ms ++ [p]))) (p :: members groups).
Proof.
  unfold members.
  induction groups as [|[k0 v0] g IH]; simpl; [discriminate|].
  destruct (Z.eqb_spec k0 k) as [->|Hne].
  - intros H. injection H as ->. simpl. rewrite <- app_assoc. simpl.
    symmetry. apply Permutation_middle.
  - intros H. simpl. specialize (IH H).
    etransitivity; [apply Permutation_app_head, IH|].
    symmetry. apply Permutation_middle.
Qed.

Lemma members_dset_new (groups : dict (list Z)) p :
  ~ In p (keys groups) ->
  Permutation (members (dset groups p [p])) (p :: members groups).
Proof.
  intros Hk. rewrite (keys_dset_new _ _ _ Hk). unfold members.
  rewrite map_app, concat_app. simpl.
  rewrite Permutation_app_comm. reflexivity.
Qed.

Lemma closest_loop_none payload ks : forall closest,
  fold_left (closest_step payload) ks closest = None ->
  closest = None /\ Forall (fun k => IN_GROUP < Z.abs (k - payload)) ks.
Proof.
  induction ks as [|k ks IH]; intros closest H; simpl in H.
  - auto.
  - destruct (IH _ H) as [Hc Hks]. unfold closest_step in Hc.
    destruct (Z.leb_spec (Z.abs (k - payload)) IN_GROUP) as [Hle|Hgt];
      simpl in Hc.
    + destruct closest as [c|].
      * destruct (Z.abs (k - payload) <? c); discriminate.
      * discriminate.
    + split; [exact Hc|]. constructor; assumption.
Qed.

Lemma closest_group_none payload groups :
  closest_group payload groups = None ->
  Forall (fun k => IN_GROUP < Z.abs (k - payload)) (keys groups).
Proof. intros H. apply (closest_loop_none _ _ _ H). Qed.

Lemma apart_snoc ks p :
  apart ks -> Forall (fun k => IN_GROUP < Z.abs (k - p)) ks -> apart (ks ++ [p]).
Proof.
  unfold apart. induction 1 as [|k ks Hk Hks IH]; intros Hp; simpl.
  - constructor; constructor.
  - inversion Hp as [|? ? Hkp Hp']; subst. constructor.
    + apply Forall_app. split; [exact Hk|]. constructor; [exact Hkp|constructor].
    + apply IH, Hp'.
Qed.

Lemma cluster_step_partitions groups payload :
  keyed_by_first groups -> NoDup (keys groups) /\ apart (keys groups) ->
  exists groups',
    cluster_step groups payload = Ok groups' /\ keyed_by_first groups' /\
    (NoDup (keys groups') /\ apart (keys groups')) /\
    Permutation (members groups') (payload :: members groups).
Proof.
  intros Hinv [Hnd Hap].
  destruct (cluster_step_keeps_keys groups payload Hinv)
    as (groups' & Hstep & Hinv' & Hshape).
  exists groups'. split; [exact Hstep|]. split; [exact Hinv'|].
  destruct (closest_group payload groups) as [closest|] eqn:Hc.
  - destruct Hshape as (ms & Hget & ->).
    destruct (closest_group_key _ _ _ Hc) as [Hkey _].
    rewrite (keys_dset_old _ _ _ Hkey). split; [split; assumption|].
    apply members_dset_old, Hget.
  - subst groups'.
    assert (Hnew : ~ In payload (keys groups)).
    { intros Hin. apply closest_group_none in Hc.
      rewrite Forall_forall in Hc. specialize (Hc _ Hin).
      rewrite Z.sub_diag in Hc. unfold IN_GROUP in Hc. simpl in Hc. lia. }
    assert (Hkeys : keys (dset groups payload [payload])
                    = keys groups ++ [payload]).
    { rewrite (keys_dset_new _ _ _ Hnew). unfold keys. rewrite map_app.
      reflexivity. }
    rewrite Hkeys. split; [split|].
    + apply (Permutation_NoDup (l := payload :: keys groups)).
      * apply Permutation_cons_append.
      * constructor; assumption.
    + apply apart_snoc; [exact Hap | apply closest_group_none, Hc].
    + apply members_dset_new, Hnew.
Qed.

Lemma cluster_loop_partitions payloads : forall groups,
  keyed_by_first groups -> NoDup (keys groups) /\ apart (keys groups) ->
  exists groups',
    rfold cluster_step payloads groups = Ok groups' /\
    keyed_by_first groups' /\ (NoDup (keys groups') /\ apart (keys groups')) /\
    Permutation (members groups') (members groups ++ payloads).
Proof.
  induction payloads as [|p payloads IH]; intros groups Hinv Hnd; simpl.
  - exists groups. rewrite app_nil_r. auto.
  - destruct (cluster_step_partitions groups p Hinv Hnd)
      as (g1 & -> & Hinv1 & Hnd1 & Hperm1).
    cbn [rbind]. destruct (IH g1 Hinv1 Hnd1) as (g2 & Hg2 & Hinv2 & Hnd2 & Hperm2).
    exists g2. split; [exact Hg2|]. split; [exact Hinv2|].
    split; [exact Hnd2|].
    etransitivity; [exact Hperm2|].
    etransitivity; [apply Permutation_app_tail, Hperm1|].
    simpl. apply Permutation_middle.
Qed.

(** X19.  Whatever the payload lengths, the clustering loop of
    [is_PS_modally_distributed] does not raise, and when it ends: the keys
    are distinct and more than [IN_GROUP] apart; every group is still kept
    under the first payload length that was put in it, and all its members
    are within [IN_GROUP] of that key; the groups together hold exactly the
    payload lengths of the datagrams. *)
Theorem clustering_partitions (payloads : list Z) :
  exists groups,
    rfold cluster_step payloads [] = Ok groups /\
    NoDup (keys groups) /\ apart (keys groups) /\
    keyed_by_first groups /\
    Permutation (members groups) payloads.
Proof.
  destruct (cluster_loop_partitions payloads [])
    as (groups & Hrun & Hinv & [Hnd Hap] & Hperm).
  - intros key ms [].
  - split; constructor.
  - exists groups. auto.
Qed.

Lemma dget_In_keys {V : Type} (d : dict V) (k : Z) (v : V) :
  dget d k = Ok v -> In k (keys d).
Proof.
  induction d as [|[k0 v0] d IH]; simpl; [discriminate|].
  destruct (Z.eqb_spec k0 k) as [->|Hne]; [left; reflexivity|].
  intros H. right. apply IH, H.
Qed.

(** X29.  On a group that is not empty and whose members are all within
    [IN_GROUP] of its key, as are the groups that the clustering builds,
    [update_average_possible] returns [False]: the average of the group is
    within [IN_GROUP] of the group's own key, which the loop over [groups]
    does not skip. *)
Theorem update_average_possible_refuses
    (groups : dict (list Z)) (closest : Z) (members : list Z)
    (Hgroup : dget groups closest = Ok members)
    (Hmembers : members <> [])
    (Hnear : Forall (fun m => Z.abs (closest - m) <= IN_GROUP) members) :
  exists prov_average,
    average closest groups = Ok prov_average /\
    Z.abs (closest - prov_average) <= IN_GROUP /\
    update_average_possible closest groups = Ok false.
Proof.
  destruct (average_near_key groups closest members Hgroup Hmembers Hnear)
    as (prov_average & Havg & Hclose).
  exists prov_average. split; [exact Havg|]. split; [exact Hclose|].
  unfold update_average_possible. rewrite Havg. cbn [rbind].
  rewrite (superposition_found prov_average (keys groups) closest);
    [reflexivity | | exact Hclose].
  apply (dget_In_keys _ _ _ Hgroup).
Qed.

Lemma update_average_possible_refuses_witness :
  update_average_possible 10 Samples.one_group = Ok false.
Proof.
  destruct (update_average_possible_refuses Samples.one_group 10 [10; 13])
    as (prov_average & _ & _ & H).
  - reflexivity.
  - discriminate.
  - repeat constructor; unfold IN_GROUP; simpl; lia.
  - exact H.
Defined.

(** *** The group that [closest_group] picks *)

(** X17.  [closest_group] returns [None] exactly when no key of [groups]
    is within [IN_GROUP] of the payload length; a key that it returns is a
    key of [groups] within [IN_GROUP] of the payload length. *)
Theorem closest_group_in_range (payload : Z) (groups : dict (list Z)) :
  match closest_group payload groups with
  | Some closest =>
      In closest (keys groups) /\ Z.abs (closest - payload) <= IN_GROUP
  | None => Forall (fun k => IN_GROUP < Z.abs (k - payload)) (keys groups)
  end.
Proof.
  destruct (closest_group payload groups) as [c|] eqn:H.
  - apply closest_group_key, H.
  - apply closest_group_none, H.
Qed.

Lemma closest_loop_last payload ks : forall closest,
  Forall (fun k => IN_GROUP < k) ks ->
  match closest with Some c => IN_GROUP < c | None => True end ->
  fold_left (closest_step payload) ks closest
  = match rev (filter (in_range payload) ks) with
    | [] => closest
    | c :: _ => Some c
    end.
Proof.
  induction ks as [|k ks IH]; intros closest Hks Hc; [reflexivity|].
  inversion Hks as [|? ? Hk Hks']; subst. cbn [fold_left filter].
  assert (Hstep : closest_step payload closest k
                  = if in_range payload k then Some k else closest).
  { unfold closest_step, in_range.
    destruct (Z.leb_spec (Z.abs (k - payload)) IN_GROUP) as [Hle|Hgt];
      [|reflexivity].
    destruct closest as [c|]; [|reflexivity]. simpl.
    destruct (Z.ltb_spec (Z.abs (k - payload)) c); [reflexivity | lia]. }
  rewrite Hstep. destruct (in_range payload k).
  - rewrite (IH (Some k) Hks' Hk). simpl rev.
    destruct (rev (filter (in_range payload) ks)); reflexivity.
  - apply IH; assumption.
Qed.

(** X18.  When every key of [groups] is above [IN_GROUP], [closest_group]
    returns the last key, in the order in which [groups] is iterated, that
    is within [IN_GROUP] of the payload length, whether or not another key
    is nearer: the distance is compared with the key [closest], not with
    the distance of [closest]. *)
Theorem closest_group_takes_last
    (payload : Z) (groups : dict (list Z))
    (Hkeys : Forall (fun k => IN_GROUP < k) (keys groups)) :
  closest_group payload groups
  = hd_error (rev (filter (in_range payload) (keys groups))).
Proof.
  unfold closest_group. rewrite (closest_loop_last payload _ None Hkeys I).
  destruct (rev (filter (in_range payload) (keys groups))); reflexivity.
Qed.

Lemma closest_group_takes_last_witness :
  Forall (fun k => IN_GROUP < k) (keys Samples.two_groups) /\
  closest_group 12 Samples.two_groups = Some 15.
Proof.
  assert (H : Forall (fun k => IN_GROUP < k) (keys Samples.two_groups))
    by (repeat constructor).
  split; [exact H|].
  rewrite (closest_group_takes_last 12 Samples.two_groups H).
  reflexivity.
Defined.

Lemma closest_group_single key ms payload :
  Z.abs (key - payload) <= IN_GROUP ->
  closest_group payload [(key, ms)] = Some key.
Proof.
  intros H. unfold closest_group. simpl. unfold closest_step.
  destruct (Z.leb_spec (Z.abs (key - payload)) IN_GROUP); [reflexivity | lia].
Qed.

Lemma cluster_loop_single key payloads : forall ms,
  hd_error ms = Some key ->
  Forall (fun m => Z.abs (key - m) <= IN_GROUP) ms ->
  Forall (fun m => Z.abs (key - m) <= IN_GROUP) payloads ->
  rfold cluster_step payloads [(key, ms)] = Ok [(key, ms ++ payloads)].
Proof.
  induction payloads as [|p payloads IH]; intros ms Hhd Hms Hps; simpl.
  - rewrite app_nil_r. reflexivity.
  - inversion Hps as [|? ? Hp Hps']; subst.
    destruct (cluster_step_keeps_keys [(key, ms)] p) as (g & Hg & _ & Hshape).
    { intros k m [H|[]]. injection H as <- <-. auto. }
    rewrite (closest_group_single key ms p Hp) in Hshape.
    destruct Hshape as (ms' & Hget & ->). simpl in Hget.
    rewrite Z.eqb_refl in Hget. injection Hget as <-.
    rewrite Hg. cbn [rbind]. simpl dset. rewrite Z.eqb_refl.
    rewrite IH.
    + rewrite <- app_assoc. reflexivity.
    + destruct ms; [discriminate | exact Hhd].
    + apply Forall_app. split; [exact Hms|]. constructor; [exact Hp|constructor].
    + exact Hps'.
Qed.

Lemma tenth_below {A : Type} (l : list A) :
  l <> [] -> flt (flen l * MIN_SIZE)%Q (flen l) = true.
Proof.
  intros Hl. apply Classifier.flt_iff.
  unfold Qlt, flen, MIN_SIZE, Qmult, inject_Z. simpl.
  destruct l; [contradiction|]. clear Hl. simpl length. lia.
Qed.

Lemma most_below {A : Type} (l : list A) :
  l <> [] ->
  flt (N_MOD_DIST * flen l)%Q (inject_Z (0 + Z.of_nat (length l))) = true.
Proof.
  intros Hl. apply Classifier.flt_iff.
  unfold Qlt, flen, N_MOD_DIST, Qmult, inject_Z. cbn [Qnum Qden].
  destruct l; [contradiction|]. clear Hl. cbn [length].
  rewrite Nat2Z.inj_succ. lia.
Qed.

(** X20.  When the payload lengths of all the client datagrams with
    payload are within [IN_GROUP] of the first one, they make a single
    group and [is_PS_modally_distributed] returns [True], logging 100%. *)
Theorem uniform_payloads_are_modal
    (self : ssdssc) (first : Datagram) (others : list Datagram)
    (Hdatagrams : self_datagrams self = first :: others)
    (Hnear : Forall (fun d => Z.abs (payloadLen first - payloadLen d)
                              <= IN_GROUP) others) :
  exists percent,
    (percent == 100)%Q /\
    is_PS_modally_distributed self
    = ([Checking_if_n_modulus_distribution; n_modulus_at percent], Ok true).
Proof.
  unfold is_PS_modally_distributed. rewrite Hdatagrams.
  set (payloads := map payloadLen (first :: others)).
  assert (Hne : payloads <> []) by discriminate.
  assert (Hrun : rfold cluster_step payloads [] = Ok [(payloadLen first, payloads)]).
  { subst payloads. cbn [map].
    change (rfold cluster_step (payloadLen first :: map payloadLen others) [])
      with (rfold cluster_step (map payloadLen others)
                  [(payloadLen first, [payloadLen first])]).
    rewrite (cluster_loop_single (payloadLen first) (map payloadLen others)
               [payloadLen first] eq_refl).
    - reflexivity.
    - constructor; [|constructor]. rewrite Z.sub_diag. unfold IN_GROUP. simpl. lia.
    - apply Forall_map. exact Hnear. }
  rewrite Hrun. unfold lift. cbn [mbind log]. 
  unfold significant. cbn [fold_left snd]. rewrite (tenth_below payloads Hne).
  unfold fdiv. rewrite (flen_nonzero payloads Hne).
  rewrite (most_below payloads Hne).
  unfold mbind, log, mret. simpl app.
  eexists. split; [|reflexivity].
  change (inject_Z (Z.of_nat (length payloads))
          / inject_Z (Z.of_nat (length payloads)) * 100 == 100)%Q.
  assert (Hn : ~ (inject_Z (Z.of_nat (length payloads)) == 0)%Q).
  { unfold Qeq, inject_Z. cbn [Qnum Qden]. clearbody payloads.
    destruct payloads; [contradiction|]. clear. cbn [length].
    rewrite Nat2Z.inj_succ. lia. }
  field. exact Hn.
Qed.

Lemma uniform_payloads_are_modal_witness :
  exists percent,
    (percent == 100)%Q /\
    is_PS_modally_distributed (init Samples.steady)
    = ([Checking_if_n_modulus_distribution; n_modulus_at percent], Ok true).
Proof.
  apply (uniform_payloads_are_modal (init Samples.steady)
           (Samples.datagram true 0 10 (Some 100))
           (map (fun i => Samples.datagram true (Z.of_nat i * 1000) 10 (Some 100))
                (seq 1 21))).
  - reflexivity.
  - apply Forall_map, Forall_forall. intros i _. unfold IN_GROUP. simpl. lia.
Defined.

(** *** The verdict of [is_stepping_stone] *)

Lemma compare_RTT_IAT_cases (c : connection) :
  RTT_annotated (init c) ->
  ((client_payload_count c <= 20)%nat ->
   compare_RTT_IAT (init c)
   = ([Computation_of_RTT_IAT_similarity; Not_enough_useful_datagrams],
      Ok None)) /\
  ((20 < client_payload_count c)%nat ->
   exists percent b,
     compare_RTT_IAT (init c)
     = ([Computation_of_RTT_IAT_similarity;
         Similarity_between_IATs_RTTs percent], Ok (Some b))).
Proof.
  intros Hrtt. destruct (RTTs_total _ Hrtt) as (RTTs & HR).
  destruct (build_IATs_length (datagrams c)) as (IATs & HI & HIlen).
  fold (client_payload_count c) in HIlen.
  assert (HRlen : length (tl RTTs) = (client_payload_count c - 1)%nat).
  { pose proof (rmap_length _ _ _ HR) as H. simpl in H.
    fold (client_payload_count c) in H. destruct RTTs; simpl in *; lia. }
  split; intros Hn.
  - apply (compare_RTT_IAT_inconclusive (init c) RTTs HR). lia.
  - destruct (similarity_total (tl RTTs) IATs) as (percent & b & HS).
    + lia.
    + intros Hnil. rewrite Hnil in HRlen. simpl in HRlen. lia.
    + exists percent, b.
      apply (compare_RTT_IAT_conclusive (init c) RTTs IATs percent b);
        try assumption. lia.
Qed.

Lemma is_stepping_stone_unfold self t prov :
  compare_RTT_IAT self = (t, Ok prov) ->
  is_stepping_stone self
  = match prov with
    | Some true => (t, Ok true)
    | Some false =>
        (t ++ fst (is_PS_modally_distributed self),
         snd (is_PS_modally_distributed self))
    | None => (t, Ok false)
    end.
Proof.
  intros H. unfold is_stepping_stone. rewrite H, mbind_ok.
  destruct prov as [[|]|]; simpl; rewrite ?app_nil_r; reflexivity.
Qed.

Lemma client_payload_nonempty (c : connection) :
  (0 < client_payload_count c)%nat -> self_datagrams (init c) <> [].
Proof.
  unfold client_payload_count. simpl. intros H Hnil. rewrite Hnil in H.
  simpl in H. lia.
Qed.

(** C1.  With [A] what [compare_RTT_IAT] returns and logs and [B] what
    [is_PS_modally_distributed] does: when [A] is [True] the verdict is
    [True] and nothing more is logged ([B] is not run); when [A] is [False]
    the verdict is that of [B], run after [A]; when [A] is [None] ("no
    verdict") the verdict is [False] and [B] is not run; an exception of
    [A] is that of [is_stepping_stone].  [A] is [None] only when fewer than
    20 of the datagrams that the detector keeps remain once the first is
    dropped, and it is [None] whenever that is so and they all have an
    RTT. *)
Theorem is_stepping_stone_by_cases (self : ssdssc) :
  let A := compare_RTT_IAT self in
  let B := is_PS_modally_distributed self in
  match snd A with
  | Ok (Some true) => is_stepping_stone self = (fst A, Ok true)
  | Ok (Some false) => is_stepping_stone self = (fst A ++ fst B, snd B)
  | Ok None =>
      is_stepping_stone self = (fst A, Ok false) /\
      (length (tl (self_datagrams self)) < 20)%nat
  | Raise e => is_stepping_stone self = (fst A, Raise e)
  end /\
  (Forall (fun d => RTT d <> None) (self_datagrams self) ->
   (length (tl (self_datagrams self)) < 20)%nat ->
   A = ([Computation_of_RTT_IAT_similarity; Not_enough_useful_datagrams],
        Ok None)).
Proof.
  intros A B. split.
  - destruct A as [t [prov|e]] eqn:HA; cbn [fst snd].
    + pose proof (is_stepping_stone_unfold self t prov HA) as H.
      destruct prov as [[|]|]; try exact H. split; [exact H|].
      unfold A, compare_RTT_IAT in HA.
      destruct (rmap RTT_total_seconds (self_datagrams self)) as [RTTs|e]
        eqn:HR; [|discriminate].
      pose proof (rmap_length _ _ _ HR) as Hlen.
      assert (Htl : length (tl RTTs) = length (tl (self_datagrams self))).
      { destruct RTTs, (self_datagrams self); simpl in *; lia. }
      destruct (Nat.ltb_spec (length (tl RTTs)) 20) as [Hlt|Hge]; [lia|].
      exfalso. unfold lift, log, mret in HA. cbn [mbind app] in HA.
      destruct (Nat.ltb_spec (length (tl RTTs)) 20) as [Hlt|_]; [lia|].
      destruct (build_IATs (datagrams (self_connection self))) as [IATs|e];
        [|discriminate].
      destruct (similarity (tl RTTs) IATs) as [t' [b|e]]; discriminate.
    + unfold is_stepping_stone. fold A. rewrite HA. reflexivity.
  - intros Hrtt Hfew. unfold A.
    destruct (RTTs_total _ Hrtt) as (RTTs & HR).
    apply (compare_RTT_IAT_inconclusive self RTTs HR).
    pose proof (rmap_length _ _ _ HR) as Hlen.
    destruct RTTs, (self_datagrams self); simpl in *; lia.
Qed.

Lemma is_stepping_stone_by_cases_witness :
  snd (compare_RTT_IAT (init Samples.brisk)) = Ok (Some true) /\
  is_stepping_stone (init Samples.brisk)
  = (fst (compare_RTT_IAT (init Samples.brisk)), Ok true).
Proof.
  assert (HA : snd (compare_RTT_IAT (init Samples.brisk)) = Ok (Some true))
    by (vm_compute; reflexivity).
  split; [exact HA|].
  pose proof (is_stepping_stone_by_cases (init Samples.brisk)) as [H _].
  cbv zeta in H. rewrite HA in H. exact H.
Defined.

(** C1 (counterexample).  An inconclusive comparison of RTTs and IATs
    does not give the verdict of [is_PS_modally_distributed]: on a
    connection with a single client datagram with payload the comparison
    is inconclusive and [is_PS_modally_distributed] would answer [True],
    but [is_stepping_stone] answers [False] without running it. *)
Lemma inconclusive_is_False :
  compare_RTT_IAT (init Samples.lone)
  = ([Computation_of_RTT_IAT_similarity; Not_enough_useful_datagrams],
     Ok None) /\
  snd (is_PS_modally_distributed (init Samples.lone)) = Ok true /\
  is_stepping_stone (init Samples.lone)
  = ([Computation_of_RTT_IAT_similarity; Not_enough_useful_datagrams],
     Ok false).
Proof. repeat split. Qed.

Lemma is_stepping_stone_total (c : connection) :
  RTT_annotated (init c) ->
  exists t v, is_stepping_stone (init c) = (t, Ok v).
Proof.
  intros Hrtt. destruct (compare_RTT_IAT_cases c Hrtt) as [Hfew Hmany].
  destruct (Nat.le_gt_cases (client_payload_count c) 20) as [Hn|Hn].
  - rewrite (is_stepping_stone_unfold _ _ _ (Hfew Hn)).
    eexists. eexists. reflexivity.
  - destruct (Hmany Hn) as (percent & different & HA).
    rewrite (is_stepping_stone_unfold _ _ _ HA). destruct different.
    + eexists. eexists. reflexivity.
    + destruct (is_PS_modally_distributed_total (init c))
        as (percent' & modal & HB).
      { apply client_payload_nonempty. lia. }
      rewrite HB. eexists. eexists. reflexivity.
Qed.

(** X13.  On a connection whose client datagrams with payload all have an
    RTT, [is_stepping_stone] does not raise.  With at most 20 such datagrams
    it returns [False] after the comparison of RTTs and IATs has logged that
    there are not enough datagrams, and [is_PS_modally_distributed] is not
    run.  With more than 20 the comparison returns [True] or [False]: on
    [True] the result is [True] and [is_PS_modally_distributed] is not run;
    on [False] the result is what [is_PS_modally_distributed] returns. *)
Theorem is_stepping_stone_verdict
    (c : connection) (Hrtt : RTT_annotated (init c)) :
  ((client_payload_count c <= 20)%nat ->
   is_stepping_stone (init c)
   = ([Computation_of_RTT_IAT_similarity; Not_enough_useful_datagrams],
      Ok false)) /\
  ((20 < client_payload_count c)%nat ->
   exists percent different,
     compare_RTT_IAT (init c)
     = ([Computation_of_RTT_IAT_similarity;
         Similarity_between_IATs_RTTs percent], Ok (Some different)) /\
     if different then
       is_stepping_stone (init c)
       = ([Computation_of_RTT_IAT_similarity;
           Similarity_between_IATs_RTTs percent], Ok true)
     else
       exists percent' modal,
         is_PS_modally_distributed (init c)
         = ([Checking_if_n_modulus_distribution; n_modulus_at percent'],
            Ok modal) /\
         is_stepping_stone (init c)
         = ([Computation_of_RTT_IAT_similarity;
             Similarity_between_IATs_RTTs percent;
             Checking_if_n_modulus_distribution; n_modulus_at percent'],
            Ok modal)).
Proof.
  destruct (compare_RTT_IAT_cases c Hrtt) as [Hfew Hmany]. split; intros Hn.
  - rewrite (is_stepping_stone_unfold _ _ _ (Hfew Hn)). reflexivity.
  - destruct (Hmany Hn) as (percent & different & HA).
    exists percent, different. split; [exact HA|].
    rewrite (is_stepping_stone_unfold _ _ _ HA).
    destruct different; [reflexivity|].
    destruct (is_PS_modally_distributed_total (init c))
      as (percent' & modal & HB).
    { apply client_payload_nonempty. lia. }
    exists percent', modal. split; [exact HB|]. rewrite HB. reflexivity.
Qed.

Lemma Samples_steady_annotated : RTT_annotated (init Samples.steady).
Proof.
  apply Forall_forall. intros d Hd.
  assert (H : forallb (fun d => match RTT d with
                                | Some _ => true
                                | None => false
                                end)
                      (self_datagrams (init Samples.steady)) = true)
    by (vm_compute; reflexivity).
  rewrite forallb_forall in H. specialize (H d Hd).
  destruct (RTT d); [discriminate | discriminate H].
Qed.

Lemma is_stepping_stone_verdict_witness :
  RTT_annotated (init Samples.lone) /\
  is_stepping_stone (init Samples.lone)
  = ([Computation_of_RTT_IAT_similarity; Not_enough_useful_datagrams],
     Ok false).
Proof.
  assert (Hrtt : RTT_annotated (init Samples.lone))
    by (repeat constructor; discriminate).
  split; [exact Hrtt|].
  apply (is_stepping_stone_verdict Samples.lone Hrtt).
  apply Nat.leb_le. reflexivity.
Defined.

Lemma rmap_unset (ds : list Datagram) :
  Exists (fun d => RTT d = None) ds ->
  rmap RTT_total_seconds ds = Raise AttributeError.
Proof.
  induction ds as [|d ds IH]; intros H; [inversion H|]. simpl.
  unfold RTT_total_seconds at 1. destruct (RTT d) as [v|] eqn:Hd;
    [|reflexivity].
  cbn [rbind]. rewrite IH; [reflexivity|].
  inversion H as [? ? Hd'|? ? Hds]; subst; [congruence | exact Hds].
Qed.

Lemma is_stepping_stone_unset self :
  Exists (fun d => RTT d = None) (self_datagrams self) ->
  compare_RTT_IAT self
  = ([Computation_of_RTT_IAT_similarity], Raise AttributeError) /\
  is_stepping_stone self
  = ([Computation_of_RTT_IAT_similarity], Raise AttributeError).
Proof.
  intros Hunset.
  assert (HA : compare_RTT_IAT self
               = ([Computation_of_RTT_IAT_similarity], Raise AttributeError)).
  { unfold compare_RTT_IAT. rewrite (rmap_unset _ Hunset). reflexivity. }
  split; [exact HA|]. unfold is_stepping_stone. rewrite HA. reflexivity.
Qed.

(** X14.  When one client datagram with payload has no RTT,
    [compare_RTT_IAT] raises [AttributeError] right after its first log
    message, whatever the number of datagrams; so does [is_stepping_stone],
    and so does the turn of the loop of [analyse] for a connection of more
    than 20 datagrams, which then records no verdict. *)
Theorem unset_RTT_raises
    (c : connection)
    (Hunset : Exists (fun d => RTT d = None) (self_datagrams (init c))) :
  compare_RTT_IAT (init c)
  = ([Computation_of_RTT_IAT_similarity], Raise AttributeError) /\
  is_stepping_stone (init c)
  = ([Computation_of_RTT_IAT_similarity], Raise AttributeError) /\
  ((20 < length (datagrams c))%nat ->
   forall vs,
     analyse_step vs c
     = ([Starting_computation_for_connect (nb c);
         Computation_of_RTT_IAT_similarity], Raise AttributeError)).
Proof.
  destruct (is_stepping_stone_unset (init c) Hunset) as [HA HS].
  split; [exact HA|]. split; [exact HS|].
  intros Hlen vs. unfold analyse_step.
  apply Nat.ltb_lt in Hlen. rewrite Hlen, HS. reflexivity.
Qed.

Lemma unset_RTT_raises_witness :
  Exists (fun d => RTT d = None) (self_datagrams (init Samples.unmeasured)) /\
  is_stepping_stone (init Samples.unmeasured)
  = ([Computation_of_RTT_IAT_similarity], Raise AttributeError).
Proof.
  assert (Hunset : Exists (fun d => RTT d = None)
                          (self_datagrams (init Samples.unmeasured)))
    by (constructor; reflexivity).
  split; [exact Hunset|].
  apply (unset_RTT_raises Samples.unmeasured Hunset).
Defined.

(** *** The pairs that [compare_RTT_IAT] compares *)

Lemma IAT_loop_gaps ds : forall IATs last,
  exists last',
    rfold IAT_step ds (IATs, false, Some last)
    = Ok (IATs ++ gaps (last :: filter client_payload ds), false, Some last').
Proof.
  induction ds as [|d ds IH]; intros IATs last.
  - simpl. rewrite app_nil_r. eexists. reflexivity.
  - cbn [rfold filter]. unfold IAT_step at 1, client_payload at 1.
    destruct (payloadLen d =? 0).
    + rewrite Bool.andb_false_r. cbn [rbind]. apply IH.
    + rewrite Bool.andb_true_r. destruct (sentByClient d); simpl negb;
        cbn [andb rbind].
      * destruct (IH (IATs ++ [total_seconds (time d - time last)]) d)
          as (last' & ->).
        exists last'. rewrite <- app_assoc. reflexivity.
      * apply IH.
Qed.

Lemma IAT_loop_start ds :
  exists first last,
    rfold IAT_step ds ([], true, None)
    = Ok (gaps (filter client_payload ds), first, last).
Proof.
  induction ds as [|d ds IH].
  - simpl. eexists. eexists. reflexivity.
  - cbn [rfold filter]. unfold IAT_step at 1, client_payload at 1.
    destruct (payloadLen d =? 0).
    + rewrite Bool.andb_false_r. cbn [rbind]. exact IH.
    + rewrite Bool.andb_true_r. destruct (sentByClient d); simpl negb;
        cbn [andb rbind].
      * destruct (IAT_loop_gaps ds [] d) as (last' & ->).
        eexists. eexists. reflexivity.
      * exact IH.
Qed.

(** X16.  The list [IATs] that [compare_RTT_IAT] builds holds the times
    between each client datagram with payload and the next one, in order;
    building it never raises ([last_datagram] is bound whenever it is
    read). *)
Theorem IATs_are_gaps (c : connection) :
  build_IATs (datagrams c) = Ok (gaps (self_datagrams (init c))).
Proof.
  unfold build_IATs.
  destruct (IAT_loop_start (datagrams c)) as (first & last & ->).
  reflexivity.
Qed.

Lemma index_app {A : Type} (pre : list A) (x : A) (post : list A) :
  index (pre ++ x :: post) (length pre) = Ok x.
Proof.
  unfold index. rewrite nth_error_app2, Nat.sub_diag by apply Nat.le_refl.
  reflexivity.
Qed.

Lemma compare_step_close RTTs IATs r a RTTs' IATs' compt :
  length IATs = length RTTs ->
  compare_step (RTTs ++ r :: RTTs') (IATs ++ a :: IATs') compt (length RTTs)
  = Ok (if close r a then compt + 1 else compt)%Q.
Proof.
  intros Hlen. unfold compare_step, close. rewrite index_app. cbn [rbind].
  destruct (PrimFloat.eqb r 0) eqn:Hz; simpl negb; cbv iota; [reflexivity|].
  rewrite <- Hlen, index_app. cbn [rbind]. unfold float_div. rewrite Hz.
  cbn [rbind andb]. destruct (PrimFloat.leb _ CLOSE_ENOUGH); reflexivity.
Qed.

Lemma Qplus_one (n : Z) : (inject_Z n + 1)%Q = inject_Z (n + 1).
Proof. unfold Qplus, inject_Z. simpl. f_equal. lia. Qed.

Lemma compare_loop_counts RTTs' : forall RTTs IATs IATs' (k : nat),
  length IATs = length RTTs -> length IATs' = length RTTs' ->
  rfold (compare_step (RTTs ++ RTTs') (IATs ++ IATs'))
        (seq (length RTTs) (length RTTs')) (inject_Z (Z.of_nat k))
  = Ok (inject_Z (Z.of_nat (k + close_pairs RTTs' IATs'))).
Proof.
  induction RTTs' as [|r RTTs' IH]; intros RTTs IATs IATs' k Hlen Hlen'.
  - simpl. rewrite Nat.add_0_r. reflexivity.
  - destruct IATs' as [|a IATs']; [discriminate|].
    cbn [length seq rfold]. rewrite (compare_step_close _ _ _ _ _ _ _ Hlen).
    cbn [rbind].
    replace (RTTs ++ r :: RTTs') with ((RTTs ++ [r]) ++ RTTs')
      by (rewrite <- app_assoc; reflexivity).
    replace (IATs ++ a :: IATs') with ((IATs ++ [a]) ++ IATs')
      by (rewrite <- app_assoc; reflexivity).
    replace (S (length RTTs)) with (length (RTTs ++ [r]))
      by (rewrite length_app; simpl; lia).
    unfold close_pairs. cbn [combine filter fst snd].
    destruct (close r a).
    + rewrite Qplus_one.
      replace (Z.of_nat k + 1) with (Z.of_nat (S k)) by lia.
      rewrite IH.
      * cbn [length]. do 3 f_equal. unfold close_pairs. lia.
      * rewrite !length_app. simpl. lia.
      * simpl in Hlen'. lia.
    + rewrite IH.
      * reflexivity.
      * rewrite !length_app. simpl. lia.
      * simpl in Hlen'. lia.
Qed.

Lemma ratio_below (k n : nat) :
  (0 < n)%nat ->
  fle (inject_Z (Z.of_nat k) / inject_Z (Z.of_nat n)) IAT_RTT_DIFFERENT
  = (100 * k <=? n)%nat.
Proof.
  intros Hn.
  assert (H : (inject_Z (Z.of_nat k) / inject_Z (Z.of_nat n)
               <= IAT_RTT_DIFFERENT)%Q <-> (100 * k <= n)%nat).
  { unfold IAT_RTT_DIFFERENT, Qle, Qdiv, Qmult, Qinv, inject_Z.
    cbn [Qnum Qden]. destruct n as [|n]; [lia|]. clear Hn.
    rewrite Nat2Z.inj_succ. unfold Z.succ.
    destruct (Z.of_nat n + 1) as [|p|p] eqn:Hp; [lia| |lia].
    cbn [Qnum Qden]. nia. }
  destruct (Nat.leb_spec (100 * k) n) as [Hle|Hgt].
  - apply Classifier.fle_iff, H, Hle.
  - destruct (fle _ _) eqn:E; [|reflexivity].
    apply Classifier.fle_iff, H in E. lia.
Qed.

Lemma similarity_counts RTTs IATs :
  length IATs = length RTTs -> RTTs <> [] ->
  similarity RTTs IATs
  = ([Similarity_between_IATs_RTTs
        (inject_Z (Z.of_nat (close_pairs RTTs IATs)) / flen RTTs * 100)],
     Ok (100 * close_pairs RTTs IATs <=? length RTTs)%nat).
Proof.
  intros Hlen Hne. unfold similarity.
  pose proof (compare_loop_counts RTTs [] [] IATs 0 eq_refl Hlen) as Hloop.
  cbn [app length Nat.add] in Hloop.
  change (inject_Z (Z.of_nat 0)) with 0%Q in Hloop. rewrite Hloop.
  unfold lift, fdiv. rewrite (flen_nonzero RTTs Hne).
  unfold mbind, log, mret. cbn [app].
  unfold flen. rewrite ratio_below
    by (destruct RTTs; [contradiction | simpl; lia]).
  destruct (100 * close_pairs RTTs IATs <=? length RTTs)%nat; reflexivity.
Qed.

Lemma rmap_RTT_seconds (ds : list Datagram) :
  Forall (fun d => RTT d <> None) ds ->
  rmap RTT_total_seconds ds = Ok (RTT_seconds ds).
Proof.
  induction 1 as [|d ds Hd _ IH]; [reflexivity|].
  cbn [rmap RTT_seconds flat_map]. unfold RTT_total_seconds at 1.
  destruct (RTT d); [|contradiction].
  cbn [rbind]. rewrite IH. reflexivity.
Qed.

(** X15.  On a connection with more than 20 client datagrams with payload,
    all with an RTT, [compare_RTT_IAT] compares the RTT of each of them but
    the first, in seconds, with the time in seconds since the one before.
    It returns [True] exactly when at most one in a hundred of these pairs
    (RTT, IAT) is close, a pair being close when the RTT is not zero and
    [abs((RTT - IAT)/RTT) <= 0.5] in binary64 arithmetic; the percentage it
    logs is that of the close pairs.  With fewer than 100 pairs it returns
    [True] only when no pair is close. *)
Theorem compare_RTT_IAT_counts_close_pairs
    (c : connection)
    (Hrtt : RTT_annotated (init c))
    (Hmany : (20 < client_payload_count c)%nat) :
  let RTTs := tl (RTT_seconds (self_datagrams (init c))) in
  let IATs := gaps (self_datagrams (init c)) in
  let close_ones := close_pairs RTTs IATs in
  let pairs := (client_payload_count c - 1)%nat in
  length RTTs = pairs /\ length IATs = pairs /\
  compare_RTT_IAT (init c)
  = ([Computation_of_RTT_IAT_similarity;
      Similarity_between_IATs_RTTs
        (inject_Z (Z.of_nat close_ones) / inject_Z (Z.of_nat pairs) * 100)],
     Ok (Some (100 * close_ones <=? pairs)%nat)) /\
  ((pairs < 100)%nat ->
   (100 * close_ones <=? pairs)%nat = (close_ones =? 0)%nat).
Proof.
  pose proof (rmap_RTT_seconds _ Hrtt) as HR.
  destruct (build_IATs_length (datagrams c)) as (IATs & HI & HIlen).
  fold (client_payload_count c) in HIlen.
  assert (HIATs : IATs = gaps (self_datagrams (init c))).
  { unfold build_IATs in HI.
    destruct (IAT_loop_start (datagrams c)) as (first & last & Hloop).
    rewrite Hloop in HI. cbn [rbind fst] in HI. injection HI as <-.
    reflexivity. }
  subst IATs.
  assert (HRlen : length (tl (RTT_seconds (self_datagrams (init c))))
                  = (client_payload_count c - 1)%nat).
  { pose proof (rmap_length _ _ _ HR) as H. simpl in H.
    fold (client_payload_count c) in H.
    destruct (RTT_seconds _); simpl in *; lia. }
  cbv zeta. split; [exact HRlen|]. split; [exact HIlen|]. split.
  - pose proof (similarity_counts
                  (tl (RTT_seconds (self_datagrams (init c))))
                  (gaps (self_datagrams (init c)))) as HS.
    unfold flen in HS. rewrite HRlen in HS.
    eapply (compare_RTT_IAT_conclusive (init c)); [exact HR|lia|exact HI|].
    apply HS; [exact HIlen|].
    intros Hnil. rewrite Hnil in HRlen. simpl in HRlen. lia.
  - intros Hsmall.
    destruct (Nat.leb_spec
                (100 * close_pairs (tl (RTT_seconds (self_datagrams (init c))))
                                   (gaps (self_datagrams (init c))))
                (client_payload_count c - 1)) as [Hle|Hgt];
      destruct (Nat.eqb_spec
                  (close_pairs (tl (RTT_seconds (self_datagrams (init c))))
                               (gaps (self_datagrams (init c)))) 0); lia.
Qed.

Lemma Samples_brisk_annotated : RTT_annotated (init Samples.brisk).
Proof.
  apply Forall_forall. intros d Hd.
  assert (H : forallb (fun d => match RTT d with
                                | Some _ => true
                                | None => false
                                end)
                      (self_datagrams (init Samples.brisk)) = true)
    by (vm_compute; reflexivity).
  rewrite forallb_forall in H. specialize (H d Hd).
  destruct (RTT d); [discriminate | discriminate H].
Qed.

Lemma compare_RTT_IAT_counts_close_pairs_witness :
  RTT_annotated (init Samples.brisk) /\
  (20 < client_payload_count Samples.brisk)%nat /\
  close_pairs (tl (RTT_seconds (self_datagrams (init Samples.brisk))))
              (gaps (self_datagrams (init Samples.brisk))) = 0%nat /\
  compare_RTT_IAT (init Samples.brisk)
  = ([Computation_of_RTT_IAT_similarity;
      Similarity_between_IATs_RTTs
        (inject_Z (Z.of_nat 0) / inject_Z (Z.of_nat 20) * 100)],
     Ok (Some true)).
Proof.
  assert (Hmany : (20 < client_payload_count Samples.brisk)%nat)
    by (apply Nat.ltb_lt; reflexivity).
  assert (Hnone :
    close_pairs (tl (RTT_seconds (self_datagrams (init Samples.brisk))))
                (gaps (self_datagrams (init Samples.brisk))) = 0%nat)
    by (vm_compute; reflexivity).
  split; [exact Samples_brisk_annotated|]. split; [exact Hmany|].
  split; [exact Hnone|].
  destruct (compare_RTT_IAT_counts_close_pairs Samples.brisk
              Samples_brisk_annotated Hmany) as (_ & _ & Hrun & _).
  rewrite Hrun, Hnone. reflexivity.
Defined.

(** *** The verdicts that [analyse] records and [result] reads *)

Lemma verdict_recorded vs c v :
  ServerSide.verdict (record_verdict vs c v) c = Ok v.
Proof.
  induction vs as [|[n v'] vs IH]; simpl.
  - rewrite Nat.eqb_refl. reflexivity.
  - destruct (Nat.eqb n (nb c)) eqn:E; simpl; rewrite E; [reflexivity|exact IH].
Qed.

Lemma verdict_other vs c v c' :
  nb c' <> nb c ->
  ServerSide.verdict (record_verdict vs c v) c' = ServerSide.verdict vs c'.
Proof.
  intros Hne. induction vs as [|[n v'] vs IH]; simpl.
  - destruct (Nat.eqb_spec (nb c) (nb c')); [congruence | reflexivity].
  - destruct (Nat.eqb_spec n (nb c)) as [->|Hn]; simpl.
    + destruct (Nat.eqb_spec (nb c) (nb c')); [congruence | reflexivity].
    + rewrite IH. reflexivity.
Qed.

Lemma verdict_kept vs c v c' :
  (exists v', ServerSide.verdict vs c' = Ok v') ->
  exists v', ServerSide.verdict (record_verdict vs c v) c' = Ok v'.
Proof.
  intros H. destruct (Nat.eq_dec (nb c') (nb c)) as [Heq|Hne].
  - exists v. clear H. induction vs as [|[n v'] vs IH]; simpl.
    + rewrite Heq, Nat.eqb_refl. reflexivity.
    + destruct (Nat.eqb_spec n (nb c)) as [->|Hn]; simpl.
      * rewrite Heq, Nat.eqb_refl. reflexivity.
      * rewrite Heq. destruct (Nat.eqb_spec n (nb c)); [contradiction|].
        exact IH.
  - rewrite (verdict_other vs c v c' Hne). exact H.
Qed.

Lemma analyse_step_total vs c :
  ((20 < length (datagrams c))%nat -> RTT_annotated (init c)) ->
  exists t v,
    analyse_step vs c = (t, Ok (record_verdict vs c v)) /\
    if (20 <? length (datagrams c))%nat
    then snd (is_stepping_stone (init c)) = Ok v
    else v = false.
Proof.
  intros Hrtt. unfold analyse_step.
  destruct (Nat.ltb_spec 20 (length (datagrams c))) as [Hlen|Hlen].
  - destruct (is_stepping_stone_total c (Hrtt Hlen)) as (t & v & ->).
    eexists. exists v. split; reflexivity.
  - eexists. exists false. split; reflexivity.
Qed.

Lemma analyse_loop connections : forall vs,
  Forall (fun c => (20 < length (datagrams c))%nat ->
                   RTT_annotated (init c)) connections ->
  exists t vs',
    mfold analyse_step connections vs = (t, Ok vs') /\
    (forall c, (exists v, ServerSide.verdict vs c = Ok v) ->
               exists v, ServerSide.verdict vs' c = Ok v) /\
    (forall c, In c connections -> exists v, ServerSide.verdict vs' c = Ok v) /\
    (NoDup (map nb connections) ->
     (forall c, ~ In (nb c) (map nb connections) ->
                ServerSide.verdict vs' c = ServerSide.verdict vs c) /\
     forall c, In c connections ->
       ServerSide.verdict vs' c
       = if (20 <? length (datagrams c))%nat
         then snd (is_stepping_stone (init c))
         else Ok false).
Proof.
  induction connections as [|c cs IH]; intros vs Hrtt.
  - exists [], vs. split; [reflexivity|]. split; [auto|].
    split; [intros c []|]. intros _. split; [reflexivity | intros c []].
  - inversion Hrtt as [|? ? Hc Hcs]; subst.
    destruct (analyse_step_total vs c Hc) as (t1 & v & Hstep & Hv).
    destruct (IH (record_verdict vs c v) Hcs)
      as (t2 & vs' & Hrest & Hkept & Hall & Hdistinct).
    exists (t1 ++ t2), vs'. split.
    { cbn [mfold]. rewrite Hstep, mbind_ok, Hrest. reflexivity. }
    split.
    { intros c' H. apply Hkept, verdict_kept, H. }
    split.
    { intros c' [<-|Hin]; [|apply Hall, Hin].
      apply Hkept. exists v. apply verdict_recorded. }
    intros Hnd. cbn [map] in Hnd. apply NoDup_cons_iff in Hnd as [Hc' Hnd].
    destruct (Hdistinct Hnd) as [Hout Hin]. split.
    + intros c' Hc''. cbn [map] in Hc''. rewrite Hout.
      * apply verdict_other. intros Heq. apply Hc''. left. symmetry. exact Heq.
      * intros H. apply Hc''. right. exact H.
    + intros c' [<-|Hc'']; [|apply Hin, Hc''].
      rewrite (Hout c Hc'), verdict_recorded.
      destruct (20 <? length (datagrams c))%nat; congruence.
Qed.

Lemma stepping_stones_total vs connections :
  (forall c, In c connections -> exists v, ServerSide.verdict vs c = Ok v) ->
  exists l, ServerSide.stepping_stones vs connections = Ok l.
Proof.
  induction connections as [|c cs IH]; intros H; simpl.
  - eexists. reflexivity.
  - destruct (H c (or_introl eq_refl)) as (v & ->). cbn [rbind].
    destruct IH as (l & ->); [intros c' Hc'; apply H; right; exact Hc'|].
    cbn [rbind]. destruct v; eexists; reflexivity.
Qed.

Lemma result_total vs connections :
  (forall c, In c connections -> exists v, ServerSide.verdict vs c = Ok v) ->
  exists s, ServerSide.result connections vs = Ok s.
Proof.
  intros H. unfold ServerSide.result.
  destruct (stepping_stones_total vs connections H) as (l & ->).
  cbn [rbind]. destruct l; eexists; reflexivity.
Qed.

(** X21.  When the connections of more than 20 datagrams have an RTT on all
    their client datagrams with payload, [analyse] does not raise and
    records a verdict for every connection, so that [result] does not raise
    afterwards.  When the connections have distinct numbers, the verdict of
    a connection of at most 20 datagrams is [False] and that of a longer one
    is what [is_stepping_stone] returns for it. *)
Theorem analyse_gives_every_connection_a_verdict
    (connections : list connection) (vs : verdicts)
    (Hrtt : Forall (fun c => (20 < length (datagrams c))%nat ->
                             RTT_annotated (init c)) connections) :
  exists t vs',
    analyse connections vs = (Starting_computation :: t, Ok vs') /\
    (forall c, In c connections -> exists v, ServerSide.verdict vs' c = Ok v) /\
    (exists s, ServerSide.result connections vs' = Ok s) /\
    (NoDup (map nb connections) ->
     forall c, In c connections ->
       ServerSide.verdict vs' c
       = if (20 <? length (datagrams c))%nat
         then snd (is_stepping_stone (init c))
         else Ok false).
Proof.
  destruct (analyse_loop connections vs Hrtt)
    as (t & vs' & Hrun & _ & Hall & Hdistinct).
  exists t, vs'. split.
  { unfold analyse. rewrite Hrun. reflexivity. }
  split; [exact Hall|]. split; [apply result_total, Hall|].
  intros Hnd. apply (Hdistinct Hnd).
Qed.

Lemma analyse_gives_every_connection_a_verdict_witness :
  exists t vs',
    analyse [Samples.lone; Samples.steady] [] = (t, Ok vs') /\
    ServerSide.verdict vs' Samples.lone = Ok false.
Proof.
  destruct (analyse_gives_every_connection_a_verdict
              [Samples.lone; Samples.steady] [])
    as (t & vs' & Hrun & _ & _ & Hverdict).
  - constructor; [|constructor; [|constructor]]; intros _.
    + repeat constructor; discriminate.
    + exact Samples_steady_annotated.
  - assert (Hnd : NoDup (map nb [Samples.lone; Samples.steady]))
      by (repeat constructor; simpl; intuition discriminate).
    eexists. exists vs'. split; [exact Hrun|].
    rewrite (Hverdict Hnd Samples.lone (or_introl eq_refl)).
    reflexivity.
Defined.

Lemma verdict_missing vs c :
  ~ In (nb c) (map fst vs) <-> ServerSide.verdict vs c = Raise KeyError.
Proof.
  induction vs as [|[n v] vs IH]; simpl.
  - split; [reflexivity | intros _ []].
  - destruct (Nat.eqb_spec n (nb c)) as [->|Hn].
    + split; [intros H; exfalso; apply H; left; reflexivity | discriminate].
    + rewrite <- IH. split; [intros H H'; apply H; right; exact H'|].
      intros H [H'|H']; [contradiction | apply H, H'].
Qed.

Lemma verdict_exn vs c e : ServerSide.verdict vs c = Raise e -> e = KeyError.
Proof.
  induction vs as [|[n v] vs IH]; simpl.
  - intros H. injection H as <-. reflexivity.
  - destruct (Nat.eqb n (nb c)); [discriminate | exact IH].
Qed.

(** X22.  [result] raises exactly when some connection has no recorded
    verdict (as after [load_connections] without [analyse]), and what it
    raises then is [KeyError]. *)
Theorem result_needs_every_verdict
    (connections : list connection) (vs : verdicts) :
  (forall e, ServerSide.result connections vs = Raise e -> e = KeyError) /\
  ((exists e, ServerSide.result connections vs = Raise e) <->
   exists c, In c connections /\ ~ In (nb c) (map fst vs)).
Proof.
  assert (Hss : forall e, ServerSide.stepping_stones vs connections = Raise e ->
                          e = KeyError /\
                          exists c, In c connections /\ ~ In (nb c) (map fst vs)).
  { induction connections as [|c cs IH]; intros e; simpl; [discriminate|].
    destruct (ServerSide.verdict vs c) as [v|e'] eqn:Hv; cbn [rbind].
    - destruct (ServerSide.stepping_stones vs cs) as [l|e'] eqn:Hl; cbn [rbind].
      + destruct v; discriminate.
      + intros H. injection H as <-. destruct (IH e' eq_refl) as [-> (c' & Hc' & Hm)].
        split; [reflexivity|]. exists c'. auto.
    - intros H. injection H as <-. pose proof (verdict_exn _ _ _ Hv) as ->.
      split; [reflexivity|]. exists c. split; [left; reflexivity|].
      apply verdict_missing, Hv. }
  assert (Hres : forall e, ServerSide.result connections vs = Raise e ->
                           ServerSide.stepping_stones vs connections = Raise e).
  { intros e. unfold ServerSide.result.
    destruct (ServerSide.stepping_stones vs connections) as [[|s l]|e'];
      cbn [rbind]; [discriminate | discriminate |].
    intros H. injection H as <-. reflexivity. }
  split; [intros e H; apply (Hss e), Hres, H|]. split.
  - intros (e & H). apply (Hss e), Hres, H.
  - intros (c & Hc & Hm).
    destruct (ServerSide.result connections vs) as [s|e] eqn:Hr;
      [|exists e; reflexivity].
    exfalso. unfold ServerSide.result in Hr.
    destruct (ServerSide.stepping_stones vs connections) as [l|e] eqn:Hl;
      [|discriminate].
    clear Hr Hres Hss. revert l Hl.
    induction connections as [|c' cs IH]; [destruct Hc|]. intros l. simpl.
    destruct (ServerSide.verdict vs c') as [v|e] eqn:Hv; cbn [rbind];
      [|discriminate].
    destruct (ServerSide.stepping_stones vs cs) as [l'|e] eqn:Hl'; cbn [rbind];
      [|discriminate].
    intros _. destruct Hc as [->|Hc].
    + apply verdict_missing in Hm. congruence.
    + apply (IH Hc l' eq_refl).
Qed.

(** X30.  The test of [analyse] is on the number of all the datagrams of
    the connection.  With at most 20 datagrams it records [False] and logs
    that there are not enough datagrams, without creating the detector of
    the connection.  With more than 20 datagrams of which at most 20 are
    client datagrams with payload (all with an RTT), it runs
    [compare_RTT_IAT], which logs that there are not enough useful
    datagrams, then records and logs [False]. *)
Theorem analyse_step_guards_on_all_datagrams
    (c : connection) (vs : verdicts) :
  ((length (datagrams c) <= 20)%nat ->
   analyse_step vs c
   = ([Starting_computation_for_connect (nb c);
       Not_enough_datagrams_in_connection],
      Ok (record_verdict vs c false))) /\
  ((20 < length (datagrams c))%nat -> (client_payload_count c <= 20)%nat ->
   RTT_annotated (init c) ->
   analyse_step vs c
   = ([Starting_computation_for_connect (nb c);
       Computation_of_RTT_IAT_similarity; Not_enough_useful_datagrams;
       Is_stepping_stone false],
      Ok (record_verdict vs c false))).
Proof.
  unfold analyse_step. split.
  - intros Hlen. apply Nat.ltb_ge in Hlen. rewrite Hlen. reflexivity.
  - intros Hlen Hfew Hrtt. apply Nat.ltb_lt in Hlen. rewrite Hlen.
    destruct (compare_RTT_IAT_cases c Hrtt) as [Hnone _].
    rewrite (is_stepping_stone_unfold _ _ _ (Hnone Hfew)). reflexivity.
Qed.

Lemma analyse_step_guards_on_all_datagrams_witness :
  RTT_annotated (init Samples.lone) /\
  analyse_step [] Samples.lone
  = ([Starting_computation_for_connect 0;
      Computation_of_RTT_IAT_similarity; Not_enough_useful_datagrams;
      Is_stepping_stone false],
     Ok [(0%nat, false)]).
Proof.
  assert (Hrtt : RTT_annotated (init Samples.lone))
    by (repeat constructor; discriminate).
  split; [exact Hrtt|].
  apply (analyse_step_guards_on_all_datagrams Samples.lone []).
  - apply Nat.ltb_lt. reflexivity.
  - apply Nat.leb_le. reflexivity.
  - exact Hrtt.
Defined.




(** *** The datagrams that the detector reads *)

Lemma filter_twice {A : Type} (f : A -> bool) (l : list A) :
  filter f (filter f l) = filter f l.
Proof.
  induction l as [|x l IH]; [reflexivity|]. cbn [filter].
  destruct (f x) eqn:E; [|exact IH]. cbn [filter]. rewrite E, IH. reflexivity.
Qed.

Lemma build_IATs_kept ds :
  build_IATs (filter client_payload ds) = build_IATs ds.
Proof.
  unfold build_IATs.
  destruct (IAT_loop_start (filter client_payload ds)) as (f1 & l1 & ->).
  destruct (IAT_loop_start ds) as (f2 & l2 & ->).
  cbn [rbind fst]. rewrite filter_twice. reflexivity.
Qed.

(** X26.  [compare_RTT_IAT], [is_PS_modally_distributed] and
    [is_stepping_stone] read only the client datagrams with payload: on the
    connection reduced to them they return, log or raise what they do on
    the whole connection.  (The other datagrams count only in the test
    [len(c.datagrams) > 20] of [analyse].) *)
Theorem is_stepping_stone_reads_client_payload (c : connection) :
  compare_RTT_IAT (init (kept c)) = compare_RTT_IAT (init c) /\
  is_PS_modally_distributed (init (kept c))
  = is_PS_modally_distributed (init c) /\
  is_stepping_stone (init (kept c)) = is_stepping_stone (init c).
Proof.
  assert (HA : compare_RTT_IAT (init (kept c)) = compare_RTT_IAT (init c)).
  { unfold compare_RTT_IAT, init, kept.
    cbn [self_datagrams self_connection datagrams].
    rewrite filter_twice, build_IATs_kept. reflexivity. }
  assert (HB : is_PS_modally_distributed (init (kept c))
               = is_PS_modally_distributed (init c)).
  { unfold is_PS_modally_distributed, init, kept.
    cbn [self_datagrams datagrams]. rewrite filter_twice. reflexivity. }
  split; [exact HA|]. split; [exact HB|].
  unfold is_stepping_stone. rewrite HA, HB. reflexivity.
Qed.

(** *** From [compute_RTT] to the detector *)

Lemma measured_datagrams number h l d :
  In d (self_datagrams (init (measured number h l))) ->
  exists r, In r l /\ d = fst (compute_RTT h l) r /\
            sentByClient (h r) = true.
Proof.
  unfold measured, init, objects. cbn [self_datagrams datagrams].
  rewrite RTTEstimator.compute_RTT_list. intros Hd.
  apply filter_In in Hd as [Hin Hcp]. apply in_map_iff in Hin as (r & <- & Hr).
  exists r. split; [exact Hr|]. split; [reflexivity|].
  unfold client_payload in Hcp. apply Bool.andb_true_iff in Hcp as [Hs _].
  rewrite <- Hs. symmetry.
  apply RTTEstimator.erase_sentByClient, RTTEstimator.compute_RTT_frame.
Qed.

(** X23.  [compute_RTT] gives the detector what it needs: when the
    datagrams are distinct objects and Step 1 has measured the RTT of one
    client datagram of the list, every client datagram with payload has an
    RTT after [compute_RTT], and [is_stepping_stone] on the connection does
    not raise. *)
Theorem compute_RTT_then_is_stepping_stone
    (h : heap) (datagrams : list ref) (m : ref) (number : nat)
    (Hdistinct : NoDup datagrams)
    (Hm : In m datagrams) (Hclient : sentByClient (h m) = true)
    (Hmatched : RTT (after_step1 h datagrams m) <> None) :
  RTT_annotated (init (measured number h datagrams)) /\
  exists t v,
    is_stepping_stone (init (measured number h datagrams)) = (t, Ok v).
Proof.
  assert (Hrtt : RTT_annotated (init (measured number h datagrams))).
  { apply Forall_forall. intros d Hd.
    apply measured_datagrams in Hd as (r & Hr & -> & Hway).
    rewrite RTTEstimator.compute_RTT_store.
    apply (RTTEstimator.direction_filled _ datagrams true m r Hdistinct);
      [|exact Hmatched|]; apply RTTEstimator.way_of_In; split;
      try assumption; rewrite RTTEstimator.after_step1_way; assumption. }
  split; [exact Hrtt|]. apply is_stepping_stone_total, Hrtt.
Qed.

Lemma compute_RTT_then_is_stepping_stone_witness :
  exists t v,
    is_stepping_stone (init (measured 0 Samples.capture Samples.capture_order))
    = (t, Ok v).
Proof.
  apply (compute_RTT_then_is_stepping_stone
           Samples.capture Samples.capture_order 1%nat 0).
  - apply seq_NoDup.
  - simpl. tauto.
  - reflexivity.
  - simpl. discriminate.
Defined.

(** X24.  When Step 1 of [compute_RTT] measures no RTT for a client
    datagram (none is acknowledged by the server) and none had one, the
    client datagrams still have no RTT after [compute_RTT]; if one of them
    carries payload, [is_stepping_stone] on the connection raises
    [AttributeError]. *)
Theorem unacknowledged_client_raises
    (h : heap) (datagrams : list ref) (d : ref) (number : nat)
    (Hunmatched : unset (after_step1 h datagrams)
                        (way_of (after_step1 h datagrams) datagrams true))
    (Hd : In d datagrams) (Hclient : sentByClient (h d) = true)
    (Hpayload : payloadLen (h d) <> 0) :
  is_stepping_stone (init (measured number h datagrams))
  = ([Computation_of_RTT_IAT_similarity], Raise AttributeError).
Proof.
  apply is_stepping_stone_unset. apply Exists_exists.
  exists (fst (compute_RTT h datagrams) d).
  assert (Hframe := RTTEstimator.compute_RTT_frame h datagrams d).
  split.
  - unfold measured, init, objects. cbn [self_datagrams SteppingStone.datagrams].
    rewrite RTTEstimator.compute_RTT_list. apply filter_In. split.
    + apply in_map, Hd.
    + unfold client_payload.
      rewrite (RTTEstimator.erase_sentByClient _ _ Hframe), Hclient.
      replace (payloadLen (fst (compute_RTT h datagrams) d))
        with (payloadLen (h d))
        by (symmetry; apply (RTTEstimator.erase_unchanged _ _ Hframe)).
      destruct (Z.eqb_spec (payloadLen (h d)) 0); [contradiction|reflexivity].
  - rewrite RTTEstimator.compute_RTT_store.
    apply (RTTEstimator.interpolate_none _ datagrams true Hunmatched).
    apply RTTEstimator.way_of_In. split; [exact Hd|].
    rewrite RTTEstimator.after_step1_way. exact Hclient.
Qed.

Lemma unacknowledged_client_raises_witness :
  is_stepping_stone (init (measured 0 Samples.capture [0; 3]%nat))
  = ([Computation_of_RTT_IAT_similarity], Raise AttributeError).
Proof.
  apply (unacknowledged_client_raises Samples.capture [0; 3]%nat 0%nat 0).
  - intros r [<-|[<-|[]]]; reflexivity.
  - simpl. tauto.
  - reflexivity.
  - simpl. discriminate.
Defined.

End Detector.

(** ** The old RTT estimator *)

Module RoughEstimator.

Import Connection RoughRTT.
Import RTTEstimator.

(** *** Dictionaries *)

Lemma dget_dset {V : Type} (d : dict V) (k k' : Z) (v : V) :
  dget (dset d k v) k' = if k =? k' then Ok v else dget d k'.
Proof.
  induction d as [|[k0 v0] d IH]; simpl.
  - reflexivity.
  - destruct (Z.eqb_spec k0 k) as [->|Hne]; simpl.
    + destruct (k =? k'); reflexivity.
    + rewrite IH. destruct (Z.eqb_spec k0 k') as [->|Hne'];
        [|reflexivity].
      destruct (Z.eqb_spec k k'); [congruence | reflexivity].
Qed.

Lemma keys_dset_iff {V : Type} (d : dict V) (k k' : Z) (v : V) :
  In k' (keys (dset d k v)) <-> k' = k \/ In k' (keys d).
Proof.
  induction d as [|[k0 v0] d IH]; simpl.
  - intuition.
  - destruct (Z.eqb_spec k0 k) as [->|Hne]; simpl.
    + intuition.
    + rewrite IH. intuition.
Qed.

Lemma dget_keys {V : Type} (d : dict V) (k : Z) :
  In k (keys d) <-> exists v, dget d k = Ok v.
Proof.
  induction d as [|[k0 v0] d IH]; simpl.
  - split; [intros [] | intros (v & H); discriminate].
  - destruct (Z.eqb_spec k0 k) as [->|Hne].
    + split; [eexists; reflexivity | auto].
    + rewrite <- IH. intuition.
Qed.

(** The acknowledgment dictionary after the first loop. *)
Lemma acking_loop h l : forall acks way k a,
  dget (bget (fold_left (acking_step h) l acks) way) k = Ok a ->
  (dget (bget acks way) k = Ok a /\
   forall a', In a' l ->
     ~ (sentByClient (h a') = negb way /\ ack (h a') = k /\ -1 < k)) \/
  (exists l1 l2,
      l = l1 ++ a :: l2 /\ sentByClient (h a) = negb way /\ ack (h a) = k /\
      -1 < k /\
      forall a', In a' l2 ->
        ~ (sentByClient (h a') = negb way /\ ack (h a') = k)).
Proof.
  induction l as [|x l IH]; intros acks way k a H.
  - left. split; [exact H | intros a' []].
  - cbn [fold_left] in H. destruct (IH _ _ _ _ H) as [[Hget Hno]|Hlast].
    + unfold acking_step in Hget.
      destruct (Z.gtb_spec (ack (h x)) (-1)) as [Hack|Hack].
      * destruct (Bool.bool_dec way (negb (sentByClient (h x)))) as [Hw|Hw].
        -- rewrite Hw, bget_bset_same, dget_dset in Hget.
           destruct (Z.eqb_spec (ack (h x)) k) as [Hk|Hk].
           ++ injection Hget as <-. right. exists [], l.
              split; [reflexivity|]. rewrite Hw, Bool.negb_involutive.
              split; [reflexivity|]. split; [exact Hk|]. split; [lia|].
              intros a' Ha' [H1 H2]. apply (Hno a' Ha').
              rewrite Hw, Bool.negb_involutive. split; [exact H1|].
              split; [exact H2 | lia].
           ++ left. rewrite Hw. split; [exact Hget|].
              intros a' [<-|Ha']; [|rewrite <- Hw; apply Hno, Ha'].
              intros (_ & H2 & _). contradiction.
        -- rewrite (bget_bset_other _ _ _ _ Hw) in Hget. left.
           split; [exact Hget|].
           intros a' [<-|Ha']; [|apply Hno, Ha'].
           intros (H1 & _). apply Hw. rewrite H1, Bool.negb_involutive.
           reflexivity.
      * left. split; [exact Hget|].
        intros a' [<-|Ha']; [|apply Hno, Ha']. intros (_ & H2 & H3). lia.
    + right. destruct Hlast as (l1 & l2 & -> & Hrest).
      exists (x :: l1), l2. split; [reflexivity | exact Hrest].
Qed.

Lemma acking_keys h l : forall acks way k,
  In k (keys (bget (fold_left (acking_step h) l acks) way)) <->
  In k (keys (bget acks way)) \/
  exists a, In a l /\ sentByClient (h a) = negb way /\ ack (h a) = k /\ -1 < k.
Proof.
  induction l as [|x l IH]; intros acks way k.
  - simpl. split; [auto | intros [H|(a & [] & _)]; exact H].
  - cbn [fold_left]. rewrite IH. unfold acking_step.
    destruct (Z.gtb_spec (ack (h x)) (-1)) as [Hack|Hack].
    + destruct (Bool.bool_dec way (negb (sentByClient (h x)))) as [Hw|Hw].
      * rewrite Hw at 1. rewrite bget_bset_same, keys_dset_iff, <- Hw. split.
        -- intros [[->|H]|(a & Ha & Hrest)].
           ++ right. exists x. split; [left; reflexivity|].
              rewrite Hw, Bool.negb_involutive. repeat split. lia.
           ++ left. exact H.
           ++ right. exists a. split; [right; exact Ha | exact Hrest].
        -- intros [H|(a & [<-|Ha] & H1 & H2 & H3)].
           ++ left. right. exact H.
           ++ left. left. symmetry. exact H2.
           ++ right. exists a. auto.
      * rewrite (bget_bset_other _ _ _ _ Hw). split.
        -- intros [H|(a & Ha & Hrest)]; [left; exact H|].
           right. exists a. split; [right; exact Ha | exact Hrest].
        -- intros [H|(a & [<-|Ha] & H1 & H2 & H3)]; [left; exact H| |].
           ++ exfalso. apply Hw. rewrite H1, Bool.negb_involutive. reflexivity.
           ++ right. exists a. auto.
    + split.
      * intros [H|(a & Ha & Hrest)]; [left; exact H|].
        right. exists a. split; [right; exact Ha | exact Hrest].
      * intros [H|(a & [<-|Ha] & H1 & H2 & H3)]; [left; exact H|lia|].
        right. exists a. auto.
Qed.

Lemma fold_min_spec l : forall m,
  let r := fold_left Z.min l m in
  (r = m \/ In r l) /\ r <= m /\ forall k, In k l -> r <= k.
Proof.
  induction l as [|x l IH]; intros m; simpl.
  - split; [left; reflexivity|]. split; [lia | intros k []].
  - destruct (IH (Z.min m x)) as (Hin & Hle & Hall).
    split; [|split].
    + destruct Hin as [Hr|Hr]; [|right; right; exact Hr].
      destruct (Z.min_spec m x) as [[_ Hm]|[_ Hm]];
        [left | right; left]; rewrite Hr, Hm; reflexivity.
    + lia.
    + intros k [<-|Hk]; [lia | apply Hall, Hk].
Qed.

Lemma min_above_spec ks s :
  match min_above ks s with
  | Some m => In m ks /\ s < m /\ forall k, In k ks -> s < k -> m <= k
  | None => forall k, In k ks -> k <= s
  end.
Proof.
  unfold min_above.
  destruct (filter (fun sNb => sNb >? s) ks) as [|x rest] eqn:Hf.
  - intros k Hk. destruct (Z.gtb_spec k s) as [Hgt|Hle]; [|exact Hle].
    assert (H : In k (filter (fun sNb => sNb >? s) ks)).
    { apply filter_In. split; [exact Hk|]. apply Z.gtb_lt. lia. }
    rewrite Hf in H. destruct H.
  - destruct (fold_min_spec rest x) as (Hin & Hle & Hall).
    assert (Hmem : forall k, In k (x :: rest) <-> In k ks /\ s < k).
    { intros k. rewrite <- Hf, filter_In, Z.gtb_lt. intuition lia. }
    assert (Hr : In (fold_left Z.min rest x) (x :: rest)).
    { destruct Hin as [->|Hin]; [left; reflexivity | right; exact Hin]. }
    apply Hmem in Hr as [Hr1 Hr2]. split; [exact Hr1|]. split; [exact Hr2|].
    intros k Hk Hs. assert (Hk' : In k (x :: rest)) by (apply Hmem; auto).
    destruct Hk' as [<-|Hk']; [exact Hle | apply Hall, Hk'].
Qed.

(** *** The second loop *)

Lemma rough_step_outcome acks h hcur d :
  same_frame h hcur ->
  rough_step acks hcur d
  = Ok (match outcome acks h d with
        | Some v => assign_RTT hcur d (Some v)
        | None => hcur
        end).
Proof.
  intros Hframe. unfold rough_step, outcome.
  rewrite (erase_sentByClient _ _ (Hframe d)).
  replace (seqNb (hcur d)) with (seqNb (h d))
    by (symmetry; apply (erase_unchanged _ _ (Hframe d))).
  pose proof (min_above_spec (keys (bget acks (sentByClient (h d))))
                             (seqNb (h d))) as Hmin.
  destruct (min_above _ _) as [m|]; [|reflexivity].
  destruct Hmin as (Hin & _). apply dget_keys in Hin as (a & Ha).
  rewrite Ha. cbn [rbind].
  rewrite (erase_time _ _ (Hframe a)), (erase_time _ _ (Hframe d)).
  reflexivity.
Qed.

Lemma rough_loop acks h l : forall hcur,
  same_frame h hcur ->
  exists h',
    rfold (rough_step acks) l hcur = Ok h' /\ same_frame h h' /\
    (forall r, ~ In r l -> h' r = hcur r) /\
    (forall r, outcome acks h r = None -> h' r = hcur r) /\
    (forall r v, In r l -> outcome acks h r = Some v -> RTT (h' r) = Some v).
Proof.
  induction l as [|d l IH]; intros hcur Hframe.
  - exists hcur. simpl. repeat split; auto. intros r v [].
  - cbn [rfold]. rewrite (rough_step_outcome acks h hcur d Hframe).
    cbn [rbind].
    set (h1 := match outcome acks h d with
               | Some v => assign_RTT hcur d (Some v)
               | None => hcur
               end).
    assert (Hframe1 : same_frame h h1).
    { unfold h1. destruct (outcome acks h d); [|exact Hframe].
      eapply same_frame_trans; [exact Hframe | apply same_frame_assign]. }
    assert (Hother : forall r, r <> d -> h1 r = hcur r).
    { intros r Hr. unfold h1. destruct (outcome acks h d); [|reflexivity].
      apply assign_RTT_other, Hr. }
    destruct (IH h1 Hframe1) as (h' & Hrun & Hframe' & Hout & Hnone & Hsome).
    exists h'. split; [exact Hrun|]. split; [exact Hframe'|].
    split; [|split].
    + intros r Hr. rewrite Hout by (intros H; apply Hr; right; exact H).
      apply Hother. intros ->. apply Hr. left. reflexivity.
    + intros r Hr. rewrite (Hnone r Hr).
      destruct (Nat.eq_dec r d) as [->|Hne]; [|apply Hother, Hne].
      unfold h1. rewrite Hr. reflexivity.
    + intros r v Hr Hv. destruct (in_dec Nat.eq_dec r l) as [Hin|Hnin].
      * apply (Hsome r v Hin Hv).
      * destruct Hr as [<-|Hr]; [|contradiction].
        rewrite (Hout d Hnin). unfold h1. rewrite Hv. apply assign_RTT_same.
Qed.

Lemma acks_after_iff h d a :
  acks_after h d a = true <->
  sentByClient (h a) = negb (sentByClient (h d)) /\
  -1 < ack (h a) /\ seqNb (h d) < ack (h a).
Proof.
  unfold acks_after. rewrite !Bool.andb_true_iff, !Z.gtb_lt.
  destruct (sentByClient (h a)), (sentByClient (h d)); simpl;
    intuition congruence.
Qed.

(** X8.  [compute_RTT_2] never raises, changes no field other than the
    RTT and no datagram outside the list.  A datagram [d] that no datagram
    of the other direction acknowledges beyond its sequence number is left
    as it was.  Otherwise [d] of the list gets the time of its acker minus
    its own time, the acker being, among the datagrams of the other
    direction whose [ack] is above -1 and above [d.seqNb], one with the
    smallest [ack], and the last of the list with that [ack]. *)
Theorem compute_RTT_2_rough (h : heap) (datagrams : list ref) :
  exists h',
    compute_RTT_2 h datagrams = Ok h' /\
    (forall r, unchanged_but_RTT (h r) (h' r)) /\
    (forall r, ~ In r datagrams -> h' r = h r) /\
    forall d,
      (Forall (fun a => acks_after h d a = false) datagrams -> h' d = h d) /\
      (In d datagrams ->
       Exists (fun a => acks_after h d a = true) datagrams ->
       exists before acker after,
         datagrams = before ++ acker :: after /\
         acks_after h d acker = true /\
         (forall a, In a datagrams -> acks_after h d a = true ->
                    ack (h acker) <= ack (h a)) /\
         (forall a, In a after -> acks_after h d a = true ->
                    ack (h a) <> ack (h acker)) /\
         RTT (h' d) = Some (time (h acker) - time (h d))).
Proof.
  unfold compute_RTT_2.
  set (acks := fold_left (acking_step h) datagrams (mkBdict [] [])).
  destruct (rough_loop acks h datagrams h (same_frame_refl h))
    as (h' & Hrun & Hframe & Hout & Hnone & Hsome).
  exists h'. split; [exact Hrun|].
  split; [intros r; apply erase_unchanged, Hframe|].
  split; [exact Hout|]. intros d.
  pose proof (min_above_spec (keys (bget acks (sentByClient (h d))))
                             (seqNb (h d))) as Hmin.
  assert (Hkeys : forall k,
             In k (keys (bget acks (sentByClient (h d)))) <->
             exists a, In a datagrams /\
                       sentByClient (h a) = negb (sentByClient (h d)) /\
                       ack (h a) = k /\ -1 < k).
  { intros k. unfold acks. rewrite acking_keys. split.
    - intros [H|H]; [destruct (sentByClient (h d)); destruct H | exact H].
    - intros H. right. exact H. }
  split.
  - intros Hnone'. apply Hnone. unfold outcome.
    destruct (min_above _ _) as [m|]; [|reflexivity]. exfalso.
    destruct Hmin as (Hin & Hgt & _).
    apply Hkeys in Hin as (a & Ha & Hway & Hack & Hpos).
    rewrite Forall_forall in Hnone'. specialize (Hnone' a Ha).
    assert (acks_after h d a = true)
      by (apply acks_after_iff; split; [exact Hway | lia]).
    congruence.
  - intros Hd Hex. apply Exists_exists in Hex as (a0 & Ha0 & Hafter0).
    apply acks_after_iff in Hafter0 as (Hway0 & Hpos0 & Hgt0).
    destruct (min_above _ _) as [m|] eqn:Hm.
    + destruct Hmin as (Hin & Hgt & Hleast).
      pose proof Hin as Hin'. apply dget_keys in Hin' as (acker & Hget).
      destruct (acking_loop h datagrams (mkBdict [] []) _ _ _ Hget)
        as [[Hempty _]|(before & after & Hsplit & Hway & Hack & Hpos & Hlast)].
      { destruct (sentByClient (h d)); discriminate. }
      exists before, acker, after. split; [exact Hsplit|].
      split; [apply acks_after_iff; split; [exact Hway | lia]|].
      split; [|split].
      * intros a Ha Hafter. apply acks_after_iff in Hafter as (H1 & H2 & H3).
        rewrite Hack. apply Hleast; [|exact H3]. apply Hkeys. exists a. auto.
      * intros a Ha Hafter Heq.
        apply acks_after_iff in Hafter as (H1 & H2 & H3).
        apply (Hlast a Ha). split; [exact H1 | congruence].
      * apply (Hsome d _ Hd). unfold outcome. rewrite Hm, Hget. reflexivity.
    + exfalso. assert (ack (h a0) <= seqNb (h d)); [|lia].
      apply Hmin, Hkeys. exists a0. auto.
Qed.

End RoughEstimator.
